(** * HARPIA transient-absorption helpers: a shallow embedding

    The Python module [HARPIA_Analysis_Functions.py] loads a Carpetview
    export with [numpy.genfromtxt] and derives spectra, bleach kinetics and
    pump-power diagnostics from it.  Numbers are IEEE 754 binary64 values
    (numpy's [float64]); they are modelled with the standard library's
    [spec_float] at precision 53 and maximal exponent 1024, so that NaN,
    the infinities, the two zeros and rounding are the ones the program
    sees.  Python exceptions are an explicit error result; the matplotlib
    canvas is a log of drawing commands threaded through the plotting
    functions. *)

From Stdlib Require Import ZArith NArith String Ascii Bool Lia ZifyBool List.
From Stdlib Require Import SpecFloat.
Import ListNotations.

Local Open Scope Z_scope.

(** ** binary64 arithmetic *)

Module F64.

Definition prec : Z := 53.
Definition emax : Z := 1024.

Definition float : Type := spec_float.

Definition add : float -> float -> float := SFadd prec emax.
Definition sub : float -> float -> float := SFsub prec emax.
Definition mul : float -> float -> float := SFmul prec emax.
Definition div : float -> float -> float := SFdiv prec emax.
Definition opp : float -> float := SFopp.
Definition abs : float -> float := SFabs.

Definition nan : float := S754_nan.
Definition zero : float := S754_zero false.
Definition one : float := S754_finite false 4503599627370496 (-52).

Definition is_nan (x : float) : bool :=
  match x with S754_nan => true | _ => false end.

Definition is_zero (x : float) : bool :=
  match x with S754_zero _ => true | _ => false end.

Definition is_finite (x : float) : bool :=
  match x with
  | S754_zero _ | S754_finite _ _ _ => true
  | _ => false
  end.

Definition is_inf (x : float) : bool :=
  match x with S754_infinity _ => true | _ => false end.

(** Well-formed binary64 data: the mantissa is canonical for its exponent. *)
Definition valid (x : float) : bool := valid_binary prec emax x.

(** The C comparisons [==], [<], [<=], [>=]; all are false on NaN. *)
Definition eqb (x y : float) : bool := SFeqb x y.
Definition ltb (x y : float) : bool := SFltb x y.
Definition leb (x y : float) : bool := SFleb x y.
Definition geb (x y : float) : bool := SFleb y x.

(** Correctly rounded quotient of two positive integers. *)
Definition round_ratio (s : bool) (n d : positive) : float :=
  let '(q, e, l) := SFdiv_core_binary prec emax (Zpos n) 0 (Zpos d) 0 in
  binary_round_aux prec emax s q e l.

(** Conversion of an integer (Python [int] to [float64]). *)
Definition of_Z (z : Z) : float := binary_normalize prec emax z 0 false.

Definition of_nat (n : nat) : float := of_Z (Z.of_nat n).



(** Integer part towards zero of a finite float (C cast, Python [int]). *)
Definition trunc (x : float) : option Z :=
  match x with
  | S754_zero _ => Some 0
  | S754_finite s m e =>
      let a := match e with
               | Zneg p => Z.shiftr (Zpos m) (Zpos p)
               | _ => Z.shiftl (Zpos m) e
               end in
      Some (if s then - a else a)
  | _ => None
  end.

End F64.

Notation float := F64.float.

(** ** Python results *)

Inductive exn : Type :=
| ValueError
| IndexError
| OverflowError.

Inductive result (A : Type) : Type :=
| Ok (a : A)
| Raise (e : exn).

Arguments Ok {A} a.
Arguments Raise {A} e.

Definition bind {A B : Type} (r : result A) (k : A -> result B) : result B :=
  match r with
  | Ok a => k a
  | Raise e => Raise e
  end.

Declare Scope py_scope.
Delimit Scope py_scope with py.
Notation "x <- r ;; k" := (bind r (fun x => k))
  (at level 61, r at next level, right associativity) : py_scope.
Notation "' p <- r ;; k" := (bind r (fun x => let 'p := x in k))
  (at level 61, p pattern, r at next level, right associativity) : py_scope.

Fixpoint mapM {A B : Type} (f : A -> result B) (l : list A) : result (list B) :=
  match l with
  | [] => Ok []
  | a :: l' =>
      bind (f a) (fun b => bind (mapM f l') (fun bs => Ok (b :: bs)))
  end.

(** [l[i]] for a non-negative index. *)
Definition index {A : Type} (l : list A) (i : nat) : result A :=
  match nth_error l i with
  | Some a => Ok a
  | None => Raise IndexError
  end.

(** [l[lo:hi]] for non-negative bounds: the entries [lo <= i < hi]. *)
Definition slice {A : Type} (lo hi : nat) (l : list A) : list A :=
  skipn lo (firstn hi l).

(** ** Text: code points, whitespace splitting and Python's [float] *)

(** A Python [str] is a sequence of code points.  A string literal of this
    development stands for the text it encodes in UTF-8; bytes that are no
    UTF-8 stand for U+FFFD. *)
Notation char := N (only parsing).
Notation text := (list N) (only parsing).

Definition ord (a : ascii) : char := N_of_ascii a.

Definition replacement : char := 65533%N.

Definition utf8_lead (n : N) : option char * nat * N :=
  (if n <? 128 then (Some n, 0%nat, 0)
   else if (192 <=? n) && (n <? 224) then (None, 1%nat, n - 192)
   else if (224 <=? n) && (n <? 240) then (None, 2%nat, n - 224)
   else if (240 <=? n) && (n <? 248) then (None, 3%nat, n - 240)
   else (Some replacement, 0%nat, 0))%N.

Definition emit (o : option char) (t : text) : text :=
  match o with Some c => c :: t | None => t end.

Fixpoint utf8_go (s : string) (need : nat) (acc : N) : text :=
  match s with
  | EmptyString => match need with O => [] | _ => [replacement] end
  | String b s' =>
      let n := N_of_ascii b in
      match need with
      | S k =>
          if ((128 <=? n) && (n <? 192))%N
          then match k with
               | O => (acc * 64 + (n - 128))%N :: utf8_go s' 0%nat 0%N
               | _ => utf8_go s' k (acc * 64 + (n - 128))%N
               end
          else let '(o, need', acc') := utf8_lead n in
               replacement :: emit o (utf8_go s' need' acc')
      | O => let '(o, need', acc') := utf8_lead n in
             emit o (utf8_go s' need' acc')
      end
  end.

Definition utf8 (s : string) : list N := utf8_go s 0%nat 0%N.

Coercion utf8 : string >-> list.

Arguments cons {A} & a l.

Module Text.

Local Open Scope N_scope.

(** [c == a] for an ASCII character [a]. *)
Definition is_char (a : ascii) (c : char) : bool := c =? ord a.

Definition is_empty {A : Type} (s : list A) : bool :=
  match s with [] => true | _ => false end.

Fixpoint eqb (a b : text) : bool :=
  match a, b with
  | [], [] => true
  | x :: a', y :: b' => (x =? y) && eqb a' b'
  | _, _ => false
  end.

(** The decimal digits of Unicode 14.0, the character database of
    CPython 3.11: the code points of the digits zero, each followed by its
    digits one to nine. *)
Definition decimal_zeros : list char :=
  [ 48; 1632; 1776; 1984; 2406; 2534; 2662; 2790; 2918; 3046; 3174; 3302;
    3430; 3558; 3664; 3792; 3872; 4160; 4240; 6112; 6160; 6470; 6608; 6784;
    6800; 6992; 7088; 7232; 7248; 42528; 43216; 43264; 43472; 43504; 43600;
    44016; 65296; 66720; 68912; 69734; 69872; 69942; 70096; 70384; 70736;
    70864; 71248; 71360; 71472; 71904; 72016; 72784; 73040; 73120; 92768;
    92864; 93008; 120782; 120792; 120802; 120812; 120822; 123200; 123632;
    125264; 130032 ].

(** [Py_UNICODE_TODECIMAL]: the value of a decimal digit. *)
Definition to_decimal (c : char) : option N :=
  match find (fun z => (z <=? c) && (c <? z + 10)) decimal_zeros with
  | Some z => Some (c - z)
  | None => None
  end.

(** [str.isdecimal]: the class [\d] of [re] and the digits [float] reads. *)
Definition is_digit (c : char) : bool :=
  match to_decimal c with Some _ => true | None => false end.

Definition digit_val (c : char) : Z :=
  match to_decimal c with Some d => Z.of_N d | None => 0%Z end.

(** [Py_UNICODE_ISSPACE]: the characters [str.split()] separates on. *)
Definition is_space (c : char) : bool :=
  existsb (N.eqb c)
    [ 9; 10; 11; 12; 13; 28; 29; 30; 31; 32; 133; 160; 5760;
      8192; 8193; 8194; 8195; 8196; 8197; 8198; 8199; 8200; 8201; 8202;
      8232; 8233; 8239; 8287; 12288 ].

Fixpoint split_go (cur : text) (s : text) : list text :=
  match s with
  | [] => if is_empty cur then [] else [cur]
  | c :: s' =>
      if is_space c
      then (if is_empty cur then split_go [] s'
            else cur :: split_go [] s')
      else split_go (cur ++ [c]) s'
  end.

(** [s.split()] *)
Definition split_ws (s : text) : list text := split_go [] s.

(** [s.split('#')[0]] *)
Fixpoint before_hash (s : text) : text :=
  match s with
  | [] => []
  | c :: s' => if is_char "#" c then [] else c :: before_hash s'
  end.

(** The longest prefix of characters of a class, and the rest. *)
Fixpoint span (p : char -> bool) (s : text) : text * text :=
  match s with
  | c :: s' =>
      if p c
      then let '(d, r) := span p s' in (c :: d, r)
      else ([], s)
  | [] => ([], [])
  end.

Fixpoint digits_value (acc : Z) (s : text) : Z :=
  match s with
  | [] => acc
  | c :: s' => digits_value (10 * acc + digit_val c)%Z s'
  end.

(** [_PyUnicode_TransformDecimalAndSpaceToASCII], the first step of
    [float(s)]: an ASCII text is kept; otherwise decimal digits become
    ASCII digits, blanks become spaces, and the text is cut at the first
    other character from U+007F on, which is replaced by [?]. *)
Definition is_ascii (s : text) : bool := forallb (fun c => c <? 128) s.

Fixpoint transform (s : text) : text :=
  match s with
  | [] => []
  | c :: s' =>
      if c <? 127 then c :: transform s'
      else if is_space c then 32 :: transform s'
      else match to_decimal c with
           | Some d => (48 + d) :: transform s'
           | None => [63]
           end
  end.

Definition to_ascii (s : text) : text :=
  if is_ascii s then s else transform s.

(** The digits of C: [0] to [9]. *)
Definition is_ascii_digit (c : char) : bool := (48 <=? c) && (c <=? 57).

(** [Py_ISSPACE] *)
Definition c_space (c : char) : bool :=
  ((9 <=? c) && (c <=? 13)) || (c =? 32).

Fixpoint lstrip (s : text) : text :=
  match s with
  | c :: s' => if c_space c then lstrip s' else s
  | [] => []
  end.

(** The blanks [float_from_string_inner] drops at both ends. *)
Definition strip (s : text) : text := rev (lstrip (rev (lstrip s))).

Definition lower (c : char) : char :=
  if (65 <=? c) && (c <=? 90) then c + 32 else c.

Definition lowercase (s : text) : text := map lower s.

(** PEP 515: an underscore is legal only between two digits; legal
    underscores are dropped before the number is read. *)
Fixpoint strip_underscores (prev_digit : bool) (s : text) : option text :=
  match s with
  | [] => Some []
  | c :: s' =>
      if is_char "_" c
      then match s' with
           | d :: _ =>
               if prev_digit && is_ascii_digit d
               then strip_underscores false s'
               else None
           | [] => None
           end
      else option_map (cons c) (strip_underscores (is_ascii_digit c) s')
  end.

(** The value [(-1)^s * m * 10^e], rounded to nearest even. *)
Definition decimal (s : bool) (m e : Z) : float :=
  match m with
  | Zpos p =>
      match e with
      | Zneg k => F64.round_ratio s p (Pos.pow 10 k)
      | _ => F64.round_ratio s (p * Z.to_pos (10 ^ e)) 1
      end
  | _ => S754_zero s
  end.

(** An optional exponent part [[eE][+-]?[0-9]+] up to the end of the text. *)
Definition read_exponent (s : text) : option Z :=
  match s with
  | [] => Some 0%Z
  | c :: s' =>
      if is_char "e" (lower c)
      then
        let '(neg, s'') :=
          match s' with
          | c' :: t =>
              if is_char "-" c' then (true, t)
              else if is_char "+" c' then (false, t)
              else (false, s')
          | [] => (false, s')
          end in
        match span is_ascii_digit s'' with
        | ((_ :: _) as d, []) =>
            let v := digits_value 0 d in Some (if neg then (- v)%Z else v)
        | _ => None
        end
      else None
  end.

Definition read_unsigned (s : bool) (body : text) : option float :=
  let low := lowercase body in
  if eqb low "inf"%string || eqb low "infinity"%string
  then Some (S754_infinity s)
  else if eqb low "nan"%string then Some S754_nan
  else
    let '(ip, r) := span is_ascii_digit body in
    let '(fp, r') :=
      match r with
      | c :: t => if is_char "." c then span is_ascii_digit t else ([], r)
      | [] => ([], r)
      end in
    if is_empty ip && is_empty fp then None
    else
      match read_exponent r' with
      | Some e =>
          Some (decimal s (digits_value 0 (ip ++ fp))
                          (e - Z.of_nat (length fp)))
      | None => None
      end.

(** The number an ASCII text denotes: underscores are dropped, then the
    blanks at both ends, then an optional sign is read. *)
Definition parse_float (s : text) : option float :=
  match strip_underscores false s with
  | Some t =>
      match strip t with
      | c :: body =>
          if is_char "-" c then read_unsigned true body
          else if is_char "+" c then read_unsigned false body
          else read_unsigned false (c :: body)
      | [] => None
      end
  | None => None
  end.

(** [float(s)]; [None] stands for the [ValueError] Python raises. *)
Definition py_float (s : text) : option float := parse_float (to_ascii s).

End Text.

(** ** The numpy operations the module calls *)

Inductive ndarray : Type :=
| Arr0 (x : float)
| Arr1 (v : list float)
| Arr2 (rows : list (list float)).

Module Np.

Local Open Scope nat_scope.

(** [np.squeeze] of a two-dimensional array with at least one row. *)
Definition squeeze (rows : list (list float)) : ndarray :=
  match rows with
  | [[x]] => Arr0 x
  | [r] => Arr1 r
  | _ =>
      if forallb (fun r => length r =? 1) rows
      then Arr1 (concat rows)
      else Arr2 rows
  end.

(** [StringConverter._loose_call]: a cell [float] rejects becomes NaN. *)
Definition to_float (tok : text) : float :=
  match Text.py_float tok with
  | Some v => v
  | None => F64.nan
  end.

(** [LineSplitter]: drop the comment, split on blanks. *)
Definition split_line (line : text) : list text :=
  Text.split_ws (Text.before_hash line).

(** [np.genfromtxt(fname, skip_header=n)] on the lines of the file.
    Lines without a cell are passed over; a line whose cell count differs
    from the first data line's makes the call raise; no data at all gives
    an empty one-dimensional array. *)
Definition genfromtxt (lines : list text) (skip_header : nat)
  : result ndarray :=
  let rows :=
    filter (fun r => negb (length r =? 0))
           (map split_line (skipn skip_header lines)) in
  match rows with
  | [] => Ok (Arr1 [])
  | first :: _ =>
      if forallb (fun r => length r =? length first) rows
      then Ok (squeeze (map (map to_float) rows))
      else Raise ValueError
  end.

(** [a.argmin()]: the first minimal entry, a NaN counting as minimal. *)
Fixpoint argmin_loop (l : list float) (i : nat) (mp : float) (min_ind : nat)
  : nat :=
  match l with
  | [] => min_ind
  | x :: l' =>
      if negb (F64.geb x mp)
      then (if F64.is_nan x then i else argmin_loop l' (S i) x i)
      else argmin_loop l' (S i) mp min_ind
  end.

Definition argmin (a : list float) : result nat :=
  match a with
  | [] => Raise ValueError
  | x :: l => Ok (if F64.is_nan x then 0 else argmin_loop l 1 x 0)
  end.

(** [np.maximum(x, y)]: NaN if either is NaN, else the greater. *)
Definition maximum (x y : float) : float :=
  if F64.geb x y || F64.is_nan x then x else y.

(** IEEE 754 does not order [-0.0] and [+0.0], and numpy's reductions
    compare the entries lane by lane, in an order that depends on the
    instruction set numpy was built for.  Which zero a maximum is, when
    zeros of both signs are the greatest entries, is therefore a choice of
    the build; [zero_tie a] is the sign it returns for the array [a]. *)
Class build : Type := { zero_tie : list float -> bool }.

Definition has_zero (s : bool) (a : list float) : bool :=
  existsb (fun x => match x with
                    | S754_zero s' => Bool.eqb s s'
                    | _ => false
                    end) a.

(** [a.max()]: NaN if one is present, else the greatest entry. *)
Definition max {numpy : build} (a : list float) : result float :=
  match a with
  | [] => Raise ValueError
  | x :: l =>
      let m := fold_left maximum l x in
      Ok (if F64.is_zero m && has_zero true a && has_zero false a
          then S754_zero (zero_tie a)
          else m)
  end.

(** The build without vector instructions: its loop keeps the earlier of
    two entries that compare equal. *)
Definition scalar_loop : build :=
  {| zero_tie := fun a =>
       match fold_left maximum (tl a) (hd F64.zero a) with
       | S754_zero s => s
       | _ => false
       end |}.

(** [np.add.reduce]: numpy's pairwise summation.  Fewer than 8 terms are
    added in order; up to 128 terms go through eight running sums; longer
    inputs are halved at a multiple of 8. *)
Fixpoint zip_add (r l : list float) : list float :=
  match r, l with
  | x :: r', y :: l' => F64.add x y :: zip_add r' l'
  | _, _ => r
  end.

Fixpoint add_blocks (k : nat) (r l : list float) : list float * list float :=
  match k with
  | 0 => (r, l)
  | S k' => add_blocks k' (zip_add r (firstn 8 l)) (skipn 8 l)
  end.

Definition sum8 (a : list float) : float :=
  let '(r, rest) :=
    add_blocks (length a / 8 - 1) (firstn 8 a) (skipn 8 a) in
  let r_ i := nth i r F64.zero in
  let res :=
    F64.add (F64.add (F64.add (r_ 0) (r_ 1)) (F64.add (r_ 2) (r_ 3)))
            (F64.add (F64.add (r_ 4) (r_ 5)) (F64.add (r_ 6) (r_ 7))) in
  fold_left F64.add rest res.

Fixpoint pairwise_sum (fuel : nat) (a : list float) : float :=
  let n := length a in
  if n <? 8 then fold_left F64.add a F64.zero
  else if n <=? 128 then sum8 a
  else
    match fuel with
    | 0 => F64.zero
    | S fuel' =>
        let n2 := n / 2 - (n / 2) mod 8 in
        F64.add (pairwise_sum fuel' (firstn n2 a))
                (pairwise_sum fuel' (skipn n2 a))
    end.

Definition sum (a : list float) : float :=
  F64.add F64.zero (pairwise_sum (length a) a).

(** [a.mean()]: the sum over the count; NaN for an empty array. *)
Definition mean (a : list float) : float :=
  F64.div (sum a) (F64.of_nat (length a)).

(** Insertion sort as [ndarray.sort] orders floats: NaN last. *)
Definition sort_le (x y : float) : bool :=
  F64.is_nan y || F64.leb x y.

Fixpoint insert (x : float) (l : list float) : list float :=
  match l with
  | [] => [x]
  | y :: l' => if sort_le x y then x :: l else y :: insert x l'
  end.

Definition sort (a : list float) : list float :=
  fold_right insert [] a.

(** [np.percentile(a, q)] with the default linear method: the entries
    around the position [(n-1) q/100] of the sorted data, interpolated;
    NaN if the data contain one.  On empty data the lookup of the
    neighbours raises. *)
Definition lerp (a b t : float) : float :=
  let diff := F64.sub b a in
  if F64.geb t (F64.div F64.one (F64.of_Z 2))
  then F64.sub b (F64.mul diff (F64.sub F64.one t))
  else F64.add a (F64.mul diff t).

Definition percentile (a : list float) (q : float) : result float :=
  let quantile := F64.div q (F64.of_Z 100) in
  if negb (F64.leb F64.zero quantile && F64.leb quantile F64.one)
  then Raise ValueError
  else
    match a with
    | [] => Raise IndexError
    | x0 :: _ =>
        let n := length a in
        let arr := sort a in
        let virtual := F64.mul (F64.of_nat (n - 1)) quantile in
        match F64.trunc virtual with
        | Some z =>
            let prev := Nat.min (Z.to_nat z) (n - 1) in
            let next := Nat.min (S prev) (n - 1) in
            if F64.is_nan (nth (n - 1) arr x0) then Ok F64.nan
            else
              let gamma := F64.sub virtual (F64.of_nat prev) in
              Ok (lerp (nth prev arr x0) (nth next arr x0) gamma)
        | None => Raise ValueError
        end
    end.

End Np.

(** ** The matplotlib canvas *)

Inductive label : Type :=
| NoLabel
| IntLabel (z : Z)
| StrLabel (s : string).

Inductive plt_cmd : Type :=
| Plot (xs ys : list float) (fmt : string) (lbl : label)
| Legend (title : option string)
| Xlabel (s : string)
| Ylabel (s : string)
| Yscale (s : string)
| Axhline (y : float)
| Axvline (x : float)
| Hist (data : list float) (bins : nat)
| Show.

(** The implicit current figure: the commands issued so far. *)
Definition canvas : Type := list plt_cmd.

Definition draw (cv : canvas) (c : plt_cmd) : canvas := cv ++ [c].

(** [plt.hist] bins over the data range and refuses a range that is not
    finite. *)
Definition hist (cv : canvas) (data : list float) (bins : nat)
  : result canvas :=
  if forallb F64.is_finite data then Ok (draw cv (Hist data bins))
  else Raise ValueError.

(** [int(x)] of a float. *)
Definition py_int (x : float) : result Z :=
  match F64.trunc x with
  | Some z => Ok z
  | None => if F64.is_nan x then Raise ValueError else Raise OverflowError
  end.

(** ** The regular expression [Pump=(\d+\.\d+e[+-]?\d+)] *)

Module Re.

Import Text.

Fixpoint strip_prefix (p s : text) : option text :=
  match p, s with
  | [], _ => Some s
  | a :: p', b :: s' =>
      if N.eqb a b then strip_prefix p' s' else None
  | _, [] => None
  end.

(** [\d+\.\d+e[+-]?\d+] anchored at the start of [s]: the matched text.
    [\d] is any decimal digit.  Every repetition is greedy, and no shorter
    repetition can succeed where the longest fails, since a digit is never
    [.], [e] or a sign. *)
Definition match_number (s : text) : option text :=
  let '(d1, r1) := span is_digit s in
  if is_empty d1 then None
  else
    match r1 with
    | c1 :: r2 =>
        if negb (is_char "." c1) then None
        else
          let '(d2, r3) := span is_digit r2 in
          if is_empty d2 then None
          else
            match r3 with
            | c3 :: r4 =>
                if negb (is_char "e" c3) then None
                else
                  let '(sg, r5) :=
                    match r4 with
                    | c4 :: t =>
                        if is_char "+" c4 || is_char "-" c4 then ([c4], t)
                        else ([], r4)
                    | [] => ([], r4)
                    end in
                  let '(d3, _) := span is_digit r5 in
                  if is_empty d3 then None
                  else Some (d1 ++ c1 :: d2 ++ c3 :: sg ++ d3)
            | [] => None
            end
    | [] => None
    end.

Definition match_pump_here (s : text) : option text :=
  match strip_prefix "Pump="%string s with
  | Some r => match_number r
  | None => None
  end.

(** [re.search(r'Pump=(\d+\.\d+e[+-]?\d+)', line)]: group 1 of the
    leftmost match. *)
Fixpoint search_pump (line : text) : option text :=
  match match_pump_here line with
  | Some g => Some g
  | None =>
      match line with
      | [] => None
      | _ :: rest => search_pump rest
      end
  end.

End Re.

(** ** The module's functions *)

Local Open Scope py_scope.
Local Open Scope nat_scope.

(** A file is given by its lines, without the line terminators. *)
Definition file : Type := list text.

(** [load_TA(fname)] *)
Definition load_TA (fname : file)
  : result (list float * list float * list (list float)) :=
  data <- Np.genfromtxt fname 2 ;;
  match data with
  | Arr2 rows =>
      row0 <- index rows 0 ;;
      let wavelengths := skipn 1 row0 in
      timepoints <- mapM (fun r => index r 0) (skipn 1 rows) ;;
      let intensities := map (skipn 1) (skipn 1 rows) in
      Ok (wavelengths, timepoints, intensities)
  | _ => Raise IndexError
  end.

(** [np.argmin(np.abs(axis - v))] *)
Definition nearest (axis : list float) (v : float) : result nat :=
  Np.argmin (map (fun a => F64.abs (F64.sub a v)) axis).

(** [plot_spectrum(fname, times, mOD, wls)] *)
Definition plot_curve (wavelengths timepoints : list float)
    (intensities : list (list float)) (wls : list nat) (i : nat) (cv : canvas)
  : result canvas :=
  lo <- index wls 0 ;;
  hi <- index wls 1 ;;
  row <- index intensities i ;;
  t <- index timepoints i ;;
  lbl <- py_int t ;;
  Ok (draw cv (Plot (slice lo hi wavelengths) (slice lo hi row)
                    EmptyString (IntLabel lbl))).

Fixpoint plot_curves (wavelengths timepoints : list float)
    (intensities : list (list float)) (wls times : list nat) (cv : canvas)
  : result canvas :=
  match times with
  | [] => Ok cv
  | i :: times' =>
      cv' <- plot_curve wavelengths timepoints intensities wls i cv ;;
      plot_curves wavelengths timepoints intensities wls times' cv'
  end.

Definition plot_spectrum (fname : file) (times : list float) (mOD : bool)
    (wls : list float) (cv : canvas) : result canvas :=
  '(wavelengths, timepoints, intensities) <- load_TA fname ;;
  wls <- mapM (nearest wavelengths) wls ;;
  times <- mapM (nearest timepoints) times ;;
  cv <- plot_curves wavelengths timepoints intensities wls times cv ;;
  let cv := draw cv (Legend (Some "Time (ns)"%string)) in
  let cv := draw cv (Xlabel "Wavelength (nm)") in
  let cv := draw cv (Ylabel (if mOD then "mOD" else "${{\Delta}}$ T/T")) in
  Ok (draw cv (Axhline F64.zero)).

(** The float literal [2.28]. *)
Definition c_2_28 : float := S754_finite false 5134103575202365 (-51).

(** [intensities[:, lo:hi].mean(axis=1)] *)
Definition window_mean (lo hi : nat) (intensities : list (list float))
  : list float :=
  map (fun row => Np.mean (slice lo hi row)) intensities.

(** Lines 69-72 of [plot_bleach]. *)
Definition unit_transform (mOD : bool) (constant : float) (signal : list float)
  : list float :=
  if negb mOD
  then map (fun s => F64.add (F64.mul (F64.opp c_2_28) s) constant) signal
  else map (fun s => F64.sub s constant) signal.

(** The local variables of [plot_bleach], one field per assignment. *)
Record bleach_locals : Type := {
  wavelengths_ : list float;
  timepoints_ : list float;
  intensities_ : list (list float);
  wls_ : list nat;               (* line 66 *)
  signal_mean : list float;      (* line 67 *)
  signal_max : nat;              (* line 68 *)
  signal_unit : list float;      (* lines 69-72 *)
  timepoints_cut : list float;   (* line 74 *)
  signal_cut : list float;       (* line 75 *)
  signal_norm : list float       (* line 77 *)
}.

Definition bleach_compute {numpy : Np.build} (fname : file) (wls : list float)
    (normalise mOD from_max : bool) (constant : float) : result bleach_locals :=
  '(wavelengths, timepoints, intensities) <- load_TA fname ;;
  wls <- mapM (nearest wavelengths) wls ;;
  lo <- index wls 0 ;;
  hi <- index wls 1 ;;
  let signal := window_mean lo hi intensities in
  signal_max <- Np.argmin signal ;;
  let signal1 := unit_transform mOD constant signal in
  '(timepoints2, signal2) <-
     (if from_max
      then t0 <- index timepoints signal_max ;;
           Ok (map (fun t => F64.sub t t0) (skipn signal_max timepoints),
               skipn signal_max signal1)
      else Ok (timepoints, signal1)) ;;
  signal3 <-
     (if normalise
      then m <- Np.max signal2 ;; Ok (map (fun s => F64.div s m) signal2)
      else Ok signal2) ;;
  Ok {| wavelengths_ := wavelengths; timepoints_ := timepoints;
        intensities_ := intensities; wls_ := wls;
        signal_mean := signal; signal_max := signal_max;
        signal_unit := signal1; timepoints_cut := timepoints2;
        signal_cut := signal2; signal_norm := signal3 |}.

(** [plot_bleach(fname, wls, normalise, mOD, label, from_max, constant)]:
    the new canvas and the returned two-row array. *)
Definition plot_bleach {numpy : Np.build} (fname : file) (wls : list float)
    (normalise mOD : bool) (lbl : label) (from_max : bool) (constant : float)
    (cv : canvas) : result (canvas * list (list float)) :=
  l <- bleach_compute fname wls normalise mOD from_max constant ;;
  let cv := draw cv (Plot (timepoints_cut l) (signal_norm l) EmptyString lbl) in
  let cv := draw cv (Xlabel "Time (ns)") in
  let cv := draw cv (Ylabel (if mOD then "$\Delta$mOD" else "${{\Delta}}$ T/T")) in
  let cv := draw cv (Yscale "log") in
  let cv := draw cv (Legend None) in
  Ok (cv, [timepoints_cut l; signal_norm l]).

(** The values [extract_pump_values] computes on its way. *)
Record pump_locals : Type := {
  pump_values : list float;
  percentage_deviation : list float;
  percentile_95 : float;
  percentile_5 : float
}.

(** Lines 96-102: one value per matching line, in file order. *)
Fixpoint read_pump_values (lines : file) : result (list float) :=
  match lines with
  | [] => Ok []
  | line :: rest =>
      match Re.search_pump line with
      | Some g =>
          match Text.py_float g with
          | Some v => vs <- read_pump_values rest ;; Ok (v :: vs)
          | None => Raise ValueError
          end
      | None => read_pump_values rest
      end
  end.

(** Line 111. *)
Definition deviations (pump_values : list float) : list float :=
  map (fun value =>
         F64.mul (F64.div (F64.sub (Np.mean pump_values) value)
                          (Np.mean pump_values))
                 (F64.of_Z 100))
      pump_values.

Fixpoint scatter (i : nat) (vals : list float) (cv : canvas) : canvas :=
  match vals with
  | [] => cv
  | val :: rest =>
      let cv := draw cv (Plot [F64.of_nat i] [val] "r." NoLabel) in
      let cv := draw cv (Ylabel "Picolo Pump Power on Photodiode per spectrum") in
      let cv := draw cv (Xlabel "Experimental Points Measured") in
      scatter (S i) rest cv
  end.

(** [extract_pump_values(file_path)] *)
Definition extract_pump_values (file_path : file) (cv : canvas)
  : result (canvas * pump_locals) :=
  pump_values <- read_pump_values file_path ;;
  let cv := draw (scatter 0 pump_values cv) Show in
  let percentage_deviation := deviations pump_values in
  percentile_95 <- Np.percentile percentage_deviation (F64.of_Z 95) ;;
  percentile_5 <- Np.percentile percentage_deviation (F64.of_Z 5) ;;
  cv <- hist cv percentage_deviation 100 ;;
  let cv := draw cv (Axvline percentile_95) in
  let cv := draw cv (Axvline percentile_5) in
  let cv := draw cv (Xlabel "Percentage Deviation from Mean") in
  Ok (draw cv Show,
      {| pump_values := pump_values;
         percentage_deviation := percentage_deviation;
         percentile_95 := percentile_95;
         percentile_5 := percentile_5 |}).

(** * Properties *)

(** ** Results and lists *)

Lemma bind_Ok {A B : Type} (r : result A) (k : A -> result B) (b : B) :
  bind r k = Ok b -> exists a, r = Ok a /\ k a = Ok b.
Proof.
  destruct r as [a|e]; simpl; intros H; [exists a; auto | discriminate].
Qed.

Lemma index_Ok {A : Type} (l : list A) (i : nat) (a : A) :
  index l i = Ok a <-> nth_error l i = Some a.
Proof.
  unfold index. destruct (nth_error l i); split; congruence.
Qed.

Lemma index_lt {A : Type} (l : list A) (i : nat) :
  i < length l -> exists a, index l i = Ok a.
Proof.
  intros H. unfold index.
  destruct (nth_error l i) as [a|] eqn:E; [eauto|].
  apply nth_error_None in E. lia.
Qed.

Lemma mapM_length {A B : Type} (f : A -> result B) (l : list A) (bs : list B) :
  mapM f l = Ok bs -> length bs = length l.
Proof.
  revert bs. induction l as [|a l IH]; simpl; intros bs H.
  - injection H as <-. reflexivity.
  - apply bind_Ok in H as (b & _ & H).
    apply bind_Ok in H as (bs' & Hbs & H).
    injection H as <-. simpl. f_equal. auto.
Qed.

Lemma mapM_nth {A B : Type} (f : A -> result B) (l : list A) (bs : list B) :
  mapM f l = Ok bs ->
  forall i a, nth_error l i = Some a ->
              exists b, nth_error bs i = Some b /\ f a = Ok b.
Proof.
  revert bs. induction l as [|a0 l IH]; simpl; intros bs H i a Hi.
  - destruct i; discriminate.
  - apply bind_Ok in H as (b & Hb & H).
    apply bind_Ok in H as (bs' & Hbs & H).
    injection H as <-.
    destruct i as [|i]; simpl in *.
    + injection Hi as <-. eauto.
    + eauto.
Qed.

Lemma mapM_total {A B : Type} (f : A -> result B) (l : list A) :
  (forall a, In a l -> exists b, f a = Ok b) -> exists bs, mapM f l = Ok bs.
Proof.
  induction l as [|a l IH]; simpl; intros H; [eauto|].
  destruct (H a (or_introl eq_refl)) as (b & ->).
  destruct IH as (bs & ->); [intros; apply H; auto|].
  simpl. eauto.
Qed.

Lemma slice_empty {A : Type} (lo hi : nat) (l : list A) :
  hi <= lo -> slice lo hi l = [].
Proof.
  intros H. unfold slice. apply skipn_all2.
  rewrite length_firstn. lia.
Qed.


(** ** The loader *)

(** The cells of the data lines, as [genfromtxt] sees them. *)
Definition cells (lines : file) (skip_header : nat) : list (list text) :=
  filter (fun r => negb (length r =? 0))
         (map Np.split_line (skipn skip_header lines)).

Lemma squeeze_Arr2 (rows rows' : list (list float)) (c : nat) :
  Forall (fun r => length r = c) rows ->
  Np.squeeze rows = Arr2 rows' ->
  rows' = rows /\ 2 <= length rows /\ c <> 1.
Proof.
  intros Hc H. unfold Np.squeeze in H.
  destruct rows as [|r0 [|r1 rest]].
  - simpl in H. discriminate.
  - destruct r0 as [|x [|y r0]]; discriminate.
  - destruct (forallb _ _) eqn:E in H.
    + destruct r0 as [|x [|y r0]]; discriminate.
    + assert (H' : Arr2 (r0 :: r1 :: rest) = Arr2 rows').
      { destruct r0 as [|x [|y r0]]; exact H. }
      injection H' as <-. repeat split; [simpl; lia|].
      intros ->.
      assert (Ht : forallb (fun r : list float => length r =? 1)
                           (r0 :: r1 :: rest) = true).
      { apply forallb_forall. intros r Hr. rewrite Forall_forall in Hc.
        rewrite (Hc r Hr). reflexivity. }
      congruence.
Qed.

Lemma genfromtxt_Arr2 (lines : file) (n : nat) (rows : list (list float)) :
  Np.genfromtxt lines n = Ok (Arr2 rows) ->
  rows = map (map Np.to_float) (cells lines n) /\
  2 <= length rows /\
  exists c, 2 <= c /\ Forall (fun r => length r = c) rows.
Proof.
  unfold Np.genfromtxt. fold (cells lines n).
  destruct (cells lines n) as [|first rest] eqn:E; [discriminate|].
  destruct (forallb _ _) eqn:Hall; [|discriminate].
  intros H. injection H as H.
  assert (Hlen : Forall (fun r : list float => length r = length first)
                        (map (map Np.to_float) (first :: rest))).
  { rewrite Forall_map. rewrite Forall_forall. intros r Hr.
    rewrite length_map. rewrite forallb_forall in Hall.
    apply Nat.eqb_eq. auto. }
  destruct (squeeze_Arr2 _ _ _ Hlen H) as (-> & H2 & Hc).
  repeat split; [exact H2|].
  exists (length first). split; [|exact Hlen].
  assert (Hin : In first (cells lines n)) by (rewrite E; left; reflexivity).
  unfold cells in Hin. apply filter_In in Hin as [_ Hne].
  destruct first; [discriminate | simpl in *; lia].
Qed.

(** What a successful [load_TA] returns. *)
Lemma load_TA_inv (fname : file) (w t : list float) (I : list (list float)) :
  load_TA fname = Ok (w, t, I) ->
  exists row0 rest,
    map (map Np.to_float) (cells fname 2) = row0 :: rest /\
    rest <> [] /\
    2 <= length row0 /\
    Forall (fun r => length r = length row0) rest /\
    w = skipn 1 row0 /\
    t = map (fun r => hd F64.zero r) rest /\
    I = map (skipn 1) rest.
Proof.
  unfold load_TA. intros H.
  apply bind_Ok in H as (data & Hg & H).
  destruct data as [x|v|rows]; try discriminate.
  apply genfromtxt_Arr2 in Hg as (Hrows & H2 & c & Hc & Hall).
  rewrite <- Hrows.
  destruct rows as [|row0 rest]; [simpl in H2; lia|].
  simpl in H. apply bind_Ok in H as (tp & Htp & H).
  injection H as <- <- <-.
  inversion Hall as [|? ? Hlen0 Hrest]; subst.
  exists row0, rest. repeat split; auto.
  - destruct rest; [simpl in H2; lia | discriminate].
  - clear - Htp Hrest Hc. revert tp Htp.
    induction Hrest as [|r rest Hr Hrest IH]; simpl; intros tp Htp.
    + injection Htp as <-. reflexivity.
    + apply bind_Ok in Htp as (x & Hx & Htp).
      apply bind_Ok in Htp as (tp' & Htp' & Htp).
      injection Htp as <-. f_equal; [|auto].
      destruct r; [discriminate|]. simpl in Hx. injection Hx as <-. reflexivity.
Qed.

(** The shape invariant and non-emptiness of a loaded grid. *)
Lemma load_TA_shape (fname : file) (w t : list float) (I : list (list float)) :
  load_TA fname = Ok (w, t, I) ->
  1 <= length w /\ 1 <= length t /\ length I = length t /\
  Forall (fun row => length row = length w) I.
Proof.
  intros H. apply load_TA_inv in H
    as (row0 & rest & _ & Hne & H2 & Hall & -> & -> & ->).
  rewrite length_skipn, !length_map. repeat split; try lia.
  - destruct rest; [congruence | simpl; lia].
  - rewrite Forall_map. eapply Forall_impl; [|exact Hall].
    intros r Hr. simpl in Hr. rewrite !length_skipn. lia.
Qed.

(** ** [argmin] and [max] return on non-empty data *)

Lemma argmin_loop_bound (l : list float) (i : nat) (mp : float) (k : nat) :
  k < i -> Np.argmin_loop l i mp k < i + length l.
Proof.
  revert i mp k. induction l as [|x l IH]; simpl; intros i mp k Hk; [lia|].
  destruct (negb (F64.geb x mp)).
  - destruct (F64.is_nan x); [lia|].
    specialize (IH (S i) x i). lia.
  - specialize (IH (S i) mp k). lia.
Qed.

Lemma argmin_Ok (a : list float) :
  a <> [] -> exists i, Np.argmin a = Ok i /\ i < length a.
Proof.
  destruct a as [|x l]; [congruence|]. intros _. simpl.
  eexists; split; [reflexivity|].
  destruct (F64.is_nan x); [lia|].
  pose proof (argmin_loop_bound l 1 x 0). lia.
Qed.

Lemma argmin_lt (a : list float) (i : nat) :
  Np.argmin a = Ok i -> i < length a.
Proof.
  intros H. destruct a as [|x l]; [discriminate|].
  destruct (argmin_Ok (x :: l)) as (j & Hj & Hlt); [discriminate|].
  congruence.
Qed.

Lemma max_Ok {numpy : Np.build} (a : list float) : a <> [] -> exists m, Np.max a = Ok m.
Proof.
  destruct a; [congruence|]. simpl. eauto.
Qed.

Lemma nearest_Ok (axis : list float) (v : float) :
  axis <> [] -> exists i, nearest axis v = Ok i /\ i < length axis.
Proof.
  intros H. unfold nearest.
  destruct (argmin_Ok (map (fun a => F64.abs (F64.sub a v)) axis)) as (i & Hi & Hlt).
  - destruct axis; [congruence | discriminate].
  - rewrite length_map in Hlt. eauto.
Qed.

(** ** The stages of [plot_bleach] *)

Lemma bleach_compute_inv {numpy : Np.build} fname wls normalise mOD from_max constant l :
  bleach_compute fname wls normalise mOD from_max constant = Ok l ->
  load_TA fname = Ok (wavelengths_ l, timepoints_ l, intensities_ l) /\
  mapM (nearest (wavelengths_ l)) wls = Ok (wls_ l) /\
  exists lo hi,
    nth_error (wls_ l) 0 = Some lo /\
    nth_error (wls_ l) 1 = Some hi /\
    signal_mean l = window_mean lo hi (intensities_ l) /\
    Np.argmin (signal_mean l) = Ok (signal_max l) /\
    signal_unit l = unit_transform mOD constant (signal_mean l) /\
    (if from_max
     then exists t0,
         nth_error (timepoints_ l) (signal_max l) = Some t0 /\
         timepoints_cut l =
           map (fun t => F64.sub t t0) (skipn (signal_max l) (timepoints_ l)) /\
         signal_cut l = skipn (signal_max l) (signal_unit l)
     else timepoints_cut l = timepoints_ l /\ signal_cut l = signal_unit l) /\
    (if normalise
     then exists m,
         Np.max (signal_cut l) = Ok m /\
         signal_norm l = map (fun s => F64.div s m) (signal_cut l)
     else signal_norm l = signal_cut l).
Proof.
  unfold bleach_compute. intros H.
  apply bind_Ok in H as ([[w t] I] & Hload & H).
  apply bind_Ok in H as (idx & Hidx & H).
  apply bind_Ok in H as (lo & Hlo & H).
  apply bind_Ok in H as (hi & Hhi & H).
  apply bind_Ok in H as (smax & Hsmax & H).
  apply bind_Ok in H as ([t2 s2] & Hcut & H).
  apply bind_Ok in H as (s3 & Hnorm & H).
  injection H as <-. simpl.
  apply index_Ok in Hlo, Hhi.
  repeat split; auto.
  exists lo, hi. repeat split; auto.
  - destruct from_max.
    + apply bind_Ok in Hcut as (t0 & Ht0 & Hcut).
      apply index_Ok in Ht0. injection Hcut as <- <-. eauto.
    + injection Hcut as <- <-. auto.
  - destruct normalise.
    + apply bind_Ok in Hnorm as (m & Hm & Hnorm).
      injection Hnorm as <-. eauto.
    + injection Hnorm as <-. reflexivity.
Qed.

(** Once the grid is loaded and two bounds are given, nothing raises. *)
Lemma bleach_compute_total {numpy : Np.build} fname wls normalise mOD from_max constant w t I :
  load_TA fname = Ok (w, t, I) ->
  2 <= length wls ->
  exists l, bleach_compute fname wls normalise mOD from_max constant = Ok l.
Proof.
  intros Hload Hwls. unfold bleach_compute. rewrite Hload. simpl.
  apply load_TA_shape in Hload as (Hw & Ht & HI & _).
  destruct (mapM_total (nearest w) wls) as (idx & Hidx).
  { intros v _. destruct (nearest_Ok w v) as (i & Hi & _); [|eauto].
    destruct w; [simpl in Hw; lia | discriminate]. }
  rewrite Hidx. simpl.
  pose proof (mapM_length _ _ _ Hidx) as Hlen.
  destruct (index_lt idx 0) as (lo & ->); [lia|].
  destruct (index_lt idx 1) as (hi & ->); [lia|]. simpl.
  destruct (argmin_Ok (window_mean lo hi I)) as (smax & Hs & Hlt).
  { unfold window_mean. destruct I; [simpl in HI; lia | discriminate]. }
  rewrite Hs. simpl.
  unfold window_mean in Hlt. rewrite length_map in Hlt.
  set (s1 := unit_transform mOD constant (window_mean lo hi I)).
  assert (Hs1 : length s1 = length I).
  { unfold s1, unit_transform, window_mean.
    destruct (negb mOD); rewrite !length_map; reflexivity. }
  assert (Hcut : exists t2 s2,
    (if from_max
     then bind (index t smax) (fun t0 =>
            Ok (map (fun x => F64.sub x t0) (skipn smax t), skipn smax s1))
     else Ok (t, s1)) = Ok (t2, s2) /\ s2 <> []).
  { destruct from_max.
    - destruct (index_lt t smax) as (t0 & ->); [lia|]. simpl.
      do 2 eexists; split; [reflexivity|].
      intros E. apply (f_equal (@length float)) in E.
      rewrite length_skipn in E. simpl in E. lia.
    - do 2 eexists; split; [reflexivity|].
      destruct s1; [simpl in Hs1; lia | discriminate]. }
  destruct Hcut as (t2 & s2 & -> & Hne). simpl.
  destruct normalise.
  - destruct (max_Ok s2 Hne) as (m & ->). simpl. eauto.
  - simpl. eauto.
Qed.

(** ** Scenario data *)

Local Open Scope string_scope.

(** The grid of the specification's scenario, below two header lines. *)
Definition grid_file : file :=
  [ "Carpetview export"; "time \ wavelength";
    "0 500 600 700";
    "0 1 2 3";
    "1 4 5 6";
    "2 7 8 9" ].

Definition grid_wavelengths : list float := map F64.of_Z [500; 600; 700]%Z.
Definition grid_timepoints : list float := map F64.of_Z [0; 1; 2]%Z.
Definition grid_intensities : list (list float) :=
  map (map F64.of_Z) [[1; 2; 3]; [4; 5; 6]; [7; 8; 9]]%Z.

Lemma load_grid :
  load_TA grid_file = Ok (grid_wavelengths, grid_timepoints, grid_intensities).
Proof. vm_compute. reflexivity. Qed.

Lemma mean_nil : Np.mean [] = F64.nan.
Proof. vm_compute. reflexivity. Qed.

Lemma window_mean_nth (lo hi : nat) (I : list (list float)) (t : nat)
    (row : list float) :
  nth_error I t = Some row ->
  nth_error (window_mean lo hi I) t = Some (Np.mean (slice lo hi row)).
Proof.
  intros H. unfold window_mean. rewrite nth_error_map, H. reflexivity.
Qed.

(** ** C1: the signal is the mean over the half-open column window *)



(** ** C2: a window from the first to the last column *)




(** ** C3: the unit transform *)





(** ** C10: a window whose bounds resolve in reverse order *)

Lemma window_mean_empty (lo hi : nat) (I : list (list float)) :
  hi <= lo -> window_mean lo hi I = repeat F64.nan (length I).
Proof.
  intros H. unfold window_mean.
  induction I as [|row I IH]; simpl; [reflexivity|].
  rewrite IH, (slice_empty lo hi row H), mean_nil. reflexivity.
Qed.

Lemma unit_transform_nan (mOD : bool) (constant : float) (n : nat) :
  unit_transform mOD constant (repeat F64.nan n) = repeat F64.nan n.
Proof.
  unfold unit_transform.
  destruct mOD; simpl; induction n as [|n IH]; simpl;
    try rewrite IH; reflexivity.
Qed.

Lemma max_nan {numpy : Np.build} (n : nat) :
  Np.max (repeat F64.nan (S n)) = Ok F64.nan.
Proof.
  assert (H : fold_left Np.maximum (repeat F64.nan n) F64.nan = F64.nan)
    by (induction n as [|n IH]; simpl; auto).
  unfold Np.max. cbn [repeat]. rewrite H. reflexivity.
Qed.

Lemma map_div_nan (m : float) (n : nat) :
  map (fun s => F64.div s m) (repeat F64.nan n) = repeat F64.nan n.
Proof.
  induction n as [|n IH]; simpl; try rewrite IH; reflexivity.
Qed.

(** C10, as stated, fails: on the scenario grid the bounds 700 and 500
    resolve to the indices 2 and 0, the window is empty, and the call
    returns; its signal row holds one NaN per time row. *)
Lemma reversed_window_counterexample :
  mapM (nearest grid_wavelengths) [F64.of_Z 700; F64.of_Z 500] = Ok [2; 0] /\
  exists cv,
    plot_bleach (numpy := Np.scalar_loop) grid_file [F64.of_Z 700; F64.of_Z 500]
                false false NoLabel true F64.zero []
    = Ok (cv, [grid_timepoints; [F64.nan; F64.nan; F64.nan]]).
Proof.
  split; [vm_compute; reflexivity|].
  eexists. vm_compute. reflexivity.
Qed.

(** C10, amended.  The resolved indices are used as they come.  When
    [hi <= lo] the column slice of every row is empty, the mean of each row
    is NaN, so the signal has one NaN per time row (it is not empty),
    [argmin] answers 0, every later stage keeps the NaNs, and the call
    returns the two-row array instead of raising. *)
Theorem reversed_window_gives_nan {numpy : Np.build}
    fname wls normalise mOD lbl from_max constant cv w t I idx lo hi :
  load_TA fname = Ok (w, t, I) ->
  mapM (nearest w) wls = Ok idx ->
  nth_error idx 0 = Some lo ->
  nth_error idx 1 = Some hi ->
  hi <= lo ->
  exists l cv',
    bleach_compute fname wls normalise mOD from_max constant = Ok l /\
    wls_ l = idx /\
    (forall row, In row (intensities_ l) -> slice lo hi row = []) /\
    1 <= length t /\
    signal_mean l = repeat F64.nan (length t) /\
    signal_max l = 0 /\
    signal_norm l = repeat F64.nan (length t) /\
    plot_bleach fname wls normalise mOD lbl from_max constant cv
    = Ok (cv', [timepoints_cut l; repeat F64.nan (length t)]).
Proof.
  intros Hload Hidx Hlo Hhi Hle.
  assert (Hwls : 2 <= length wls).
  { rewrite <- (mapM_length _ _ _ Hidx).
    assert (1 < length idx); [|lia].
    apply nth_error_Some. congruence. }
  destruct (bleach_compute_total fname wls normalise mOD from_max constant
              _ _ _ Hload Hwls) as (l & Hl).
  pose proof (load_TA_shape _ _ _ _ Hload) as (_ & Ht & HI & _).
  pose proof (bleach_compute_inv _ _ _ _ _ _ _ Hl)
    as (Hload' & Hidx' & lo' & hi' & Hlo' & Hhi' & Hmean & Hmin
        & Hunit & Hcut & Hnorm).
  rewrite Hload in Hload'. injection Hload' as Hw Ht' HI'.
  rewrite <- Hw, Hidx in Hidx'. injection Hidx' as Hidx'.
  rewrite <- Hidx', Hlo in Hlo'. rewrite <- Hidx', Hhi in Hhi'.
  injection Hlo' as <-. injection Hhi' as <-.
  rewrite <- HI', (window_mean_empty _ _ _ Hle), HI in Hmean.
  assert (Hmax : signal_max l = 0).
  { rewrite Hmean in Hmin. destruct (length t); [lia|].
    simpl in Hmin. congruence. }
  rewrite Hmean, unit_transform_nan in Hunit.
  assert (Hcut' : signal_cut l = repeat F64.nan (length t)).
  { destruct from_max.
    - destruct Hcut as (t0 & _ & _ & ->). rewrite Hmax, Hunit. reflexivity.
    - destruct Hcut as (_ & ->). exact Hunit. }
  assert (Hnorm' : signal_norm l = repeat F64.nan (length t)).
  { destruct normalise.
    - destruct Hnorm as (m & _ & ->). rewrite Hcut'. apply map_div_nan.
    - congruence. }
  exists l. eexists. repeat split; auto.
  - intros row _. apply slice_empty, Hle.
  - unfold plot_bleach. rewrite Hl. simpl. rewrite Hnorm'. reflexivity.
Qed.

Lemma reversed_window_gives_nan_witness :
  exists l cv',
    bleach_compute (numpy := Np.scalar_loop) grid_file [F64.of_Z 700; F64.of_Z 500]
                   true false true F64.zero = Ok l /\
    wls_ l = [2; 0] /\
    (forall row, In row (intensities_ l) -> slice 2 0 row = []) /\
    1 <= length grid_timepoints /\
    signal_mean l = repeat F64.nan (length grid_timepoints) /\
    signal_max l = 0 /\
    signal_norm l = repeat F64.nan (length grid_timepoints) /\
    plot_bleach (numpy := Np.scalar_loop) grid_file [F64.of_Z 700; F64.of_Z 500]
                true false NoLabel true F64.zero []
    = Ok (cv', [timepoints_cut l; repeat F64.nan (length grid_timepoints)]).
Proof.
  apply ((reversed_window_gives_nan (numpy := Np.scalar_loop)) grid_file [F64.of_Z 700; F64.of_Z 500]
           true false NoLabel true F64.zero []
           grid_wavelengths grid_timepoints grid_intensities [2; 0] 2 0).
  - vm_compute. reflexivity.
  - vm_compute. reflexivity.
  - reflexivity.
  - reflexivity.
  - lia.
Defined.

(** ** C7: what [load_TA] accepts *)

Lemma genfromtxt_few_rows (lines : file) (n : nat) :
  length (cells lines n) < 2 ->
  exists data, Np.genfromtxt lines n = Ok data /\
               forall rows, data <> Arr2 rows.
Proof.
  unfold Np.genfromtxt. fold (cells lines n).
  destruct (cells lines n) as [|first [|second rest]]; simpl; intros H;
    try lia.
  - eexists; split; [reflexivity | discriminate].
  - rewrite Nat.eqb_refl. simpl.
    eexists; split; [reflexivity|].
    destruct first as [|x [|y r]]; discriminate.
Qed.

Lemma load_TA_few_rows (fname : file) :
  length (cells fname 2) < 2 -> load_TA fname = Raise IndexError.
Proof.
  intros H. unfold load_TA.
  destruct (genfromtxt_few_rows fname 2 H) as (data & -> & Hd). simpl.
  destruct data; try reflexivity. exfalso. apply (Hd rows). reflexivity.
Qed.

Lemma cells_length (lines : file) (n : nat) :
  length (cells lines n) <= length lines - n.
Proof.
  unfold cells.
  etransitivity; [apply filter_length_le|].
  rewrite length_map, length_skipn. lia.
Qed.

Lemma squeeze_wide (rows : list (list float)) (c : nat) :
  2 <= length rows -> 2 <= c ->
  Forall (fun r => length r = c) rows ->
  Np.squeeze rows = Arr2 rows.
Proof.
  intros Hrows Hc Hall.
  destruct rows as [|r0 [|r1 rest]]; simpl in Hrows; try lia.
  inversion Hall as [|? ? H0 _]; subst.
  unfold Np.squeeze.
  replace (forallb _ _) with false.
  - destruct r0 as [|x [|y r0]]; reflexivity.
  - simpl. destruct r0 as [|x [|y r0]]; simpl in *; try lia; reflexivity.
Qed.

Lemma mapM_index_hd (rows : list (list float)) :
  Forall (fun r => 1 <= length r) rows ->
  mapM (fun r => index r 0) rows = Ok (map (fun r => hd F64.zero r) rows).
Proof.
  induction 1 as [|r rows Hr _ IH]; simpl; [reflexivity|].
  destruct r; [simpl in Hr; lia|]. simpl. rewrite IH. reflexivity.
Qed.

Lemma load_TA_total (fname : file) (r0 : list text)
    (rest : list (list text)) :
  cells fname 2 = r0 :: rest ->
  rest <> [] ->
  2 <= length r0 ->
  Forall (fun r => length r = length r0) rest ->
  load_TA fname
  = Ok (skipn 1 (map Np.to_float r0),
        map (fun r => hd F64.zero (map Np.to_float r)) rest,
        map (fun r => skipn 1 (map Np.to_float r)) rest).
Proof.
  intros E Hne Hc Hall. unfold load_TA, Np.genfromtxt.
  fold (cells fname 2). rewrite E.
  replace (forallb _ _) with true.
  2:{ symmetry. apply forallb_forall. intros r [<-|Hr].
      - apply Nat.eqb_refl.
      - rewrite Forall_forall in Hall. apply Nat.eqb_eq. auto. }
  rewrite (squeeze_wide _ (length r0)).
  - simpl. rewrite mapM_index_hd.
    + simpl. rewrite !map_map. reflexivity.
    + rewrite Forall_map. eapply Forall_impl; [|exact Hall].
      intros r Hr. simpl in Hr. rewrite length_map. lia.
  - simpl. rewrite length_map. destruct rest; [congruence | simpl; lia].
  - exact Hc.
  - simpl. constructor; [apply length_map|].
    rewrite Forall_map. eapply Forall_impl; [|exact Hall].
    intros r Hr. simpl in Hr. rewrite length_map. exact Hr.
Qed.

Lemma load_TA_ragged (fname : file) (r1 r2 : list text) :
  In r1 (cells fname 2) -> In r2 (cells fname 2) ->
  length r1 <> length r2 ->
  load_TA fname = Raise ValueError.
Proof.
  intros H1 H2 Hne. unfold load_TA, Np.genfromtxt. fold (cells fname 2).
  destruct (cells fname 2) as [|first rest] eqn:E; [destruct H1|].
  destruct (forallb _ _) eqn:Hall; [|reflexivity].
  rewrite forallb_forall in Hall.
  apply Hall, Nat.eqb_eq in H1. apply Hall, Nat.eqb_eq in H2. lia.
Qed.

(** A grid whose second wavelength cell is not a number. *)
Definition grid_file_text_cell : file :=
  [ "Carpetview export"; "time \ wavelength";
    "0 500 abc 700";
    "0 1 2 3";
    "1 4 5 6" ].

(** C7, as stated, fails: a cell that is no number, outside the two header
    lines, does not make [load_TA] raise; the cell is read as NaN. *)
Lemma load_TA_text_cell_counterexample :
  In ("abc" : text) (Np.split_line "0 500 abc 700") /\
  Text.py_float "abc" = None /\
  load_TA grid_file_text_cell
  = Ok ([F64.of_Z 500; F64.nan; F64.of_Z 700],
        map F64.of_Z [0; 1]%Z,
        map (map F64.of_Z) [[1; 2; 3]; [4; 5; 6]]%Z).
Proof.
  split; [vm_compute; auto|].
  split; vm_compute; reflexivity.
Qed.

(** C7, amended.  [load_TA] raises on every file shorter than 3 lines (in
    fact whenever fewer than two data lines remain below the header) and on
    every file with two data lines of different cell counts.  Whenever at
    least two data lines of one common width of at least two cells remain
    it returns, whatever the cells are: a cell [float] rejects is read as
    NaN.  What it returns satisfies
    [intensities.shape == (len(timepoints), len(wavelengths))]. *)
Theorem load_TA_spec :
  (forall fname, length fname < 3 -> load_TA fname = Raise IndexError) /\
  (forall fname, length (cells fname 2) < 2 ->
                 load_TA fname = Raise IndexError) /\
  (forall fname r1 r2,
      In r1 (cells fname 2) -> In r2 (cells fname 2) ->
      length r1 <> length r2 ->
      load_TA fname = Raise ValueError) /\
  (forall fname r0 rest,
      cells fname 2 = r0 :: rest -> rest <> [] -> 2 <= length r0 ->
      Forall (fun r => length r = length r0) rest ->
      load_TA fname
      = Ok (skipn 1 (map Np.to_float r0),
            map (fun r => hd F64.zero (map Np.to_float r)) rest,
            map (fun r => skipn 1 (map Np.to_float r)) rest)) /\
  (forall tok, Text.py_float tok = None -> Np.to_float tok = F64.nan) /\
  (forall fname w t I,
      load_TA fname = Ok (w, t, I) ->
      length I = length t /\ Forall (fun row => length row = length w) I).
Proof.
  repeat split.
  - intros fname H. apply load_TA_few_rows.
    pose proof (cells_length fname 2). lia.
  - exact load_TA_few_rows.
  - exact load_TA_ragged.
  - exact load_TA_total.
  - intros tok H. unfold Np.to_float. rewrite H. reflexivity.
  - apply load_TA_shape in H. tauto.
  - apply load_TA_shape in H. tauto.
Qed.

Lemma load_TA_spec_witness :
  load_TA ["Carpetview export"; "time \ wavelength"] = Raise IndexError /\
  load_TA ["Carpetview export"; "time \ wavelength"; "0 500 600"; "0 1"]
  = Raise ValueError /\
  (exists w t I,
      load_TA grid_file_text_cell = Ok (w, t, I) /\
      length I = length t /\ Forall (fun row => length row = length w) I) /\
  Np.to_float "abc" = F64.nan.
Proof.
  destruct load_TA_spec as (Hshort & _ & Hragged & Htotal & Hnan & Hshape).
  split; [apply Hshort; simpl; lia|].
  split.
  { apply (Hragged _ ["0"; "500"; "600"] ["0"; "1"]).
    - vm_compute. auto.
    - vm_compute. auto.
    - simpl. lia. }
  split.
  { pose proof (Htotal grid_file_text_cell
                  ["0"; "500"; "abc"; "700"]
                  [["0"; "1"; "2"; "3"]; ["1"; "4"; "5"; "6"]]) as Hok.
    do 3 eexists. split.
    - apply Hok.
      + vm_compute. reflexivity.
      + discriminate.
      + simpl. lia.
      + repeat constructor.
    - eapply Hshape. apply Hok.
      + vm_compute. reflexivity.
      + discriminate.
      + simpl. lia.
      + repeat constructor. }
  apply Hnan. vm_compute. reflexivity.
Defined.

(** ** Characters and digits *)

Local Open Scope list_scope.
Local Open Scope N_scope.

Ltac ord_values :=
  repeat match goal with
         | |- context [ord ?a] =>
             let x := eval vm_compute in (ord a) in change (ord a) with x
         | H : context [ord ?a] |- _ =>
             let x := eval vm_compute in (ord a) in
             change (ord a) with x in H
         end.

(** Tests on characters, as arithmetic on code points. *)
Ltac char_lia :=
  unfold Text.is_char, Text.is_ascii_digit, Text.c_space in *;
  ord_values; lia.

Lemma is_char_true (a : ascii) (c : char) :
  Text.is_char a c = true -> c = ord a.
Proof. unfold Text.is_char. apply N.eqb_eq. Qed.

Lemma to_decimal_spec (c : char) (d : N) :
  Text.to_decimal c = Some d ->
  exists z, In z Text.decimal_zeros /\ z <= c /\ c < z + 10 /\ d = c - z.
Proof.
  unfold Text.to_decimal.
  destruct (find _ _) as [z|] eqn:E; [|discriminate].
  intros H. injection H as <-. apply find_some in E as [Hin Hp].
  exists z. repeat split; auto; lia.
Qed.

Lemma decimal_zeros_ascii :
  Forall (fun z => z = 48 \/ 1632 <= z) Text.decimal_zeros.
Proof.
  unfold Text.decimal_zeros. repeat (constructor; [lia|]). constructor.
Qed.

Lemma to_decimal_lt (c : char) (d : N) :
  Text.to_decimal c = Some d -> d < 10.
Proof.
  intros H. apply to_decimal_spec in H as (z & _ & H1 & H2 & ->). lia.
Qed.

(** Below U+0080 the decimal digits are [0] to [9]. *)
Lemma to_decimal_small (c : char) (d : N) :
  c < 128 -> Text.to_decimal c = Some d -> c = 48 + d.
Proof.
  intros Hc H. apply to_decimal_spec in H as (z & Hin & H1 & H2 & ->).
  pose proof decimal_zeros_ascii as Hz. rewrite Forall_forall in Hz.
  destruct (Hz z Hin); lia.
Qed.

Lemma to_decimal_ascii (d : N) :
  d < 10 -> Text.to_decimal (48 + d) = Some d.
Proof.
  intros H.
  assert (Hd : d = 0 \/ d = 1 \/ d = 2 \/ d = 3 \/ d = 4 \/ d = 5 \/ d = 6 \/
               d = 7 \/ d = 8 \/ d = 9) by lia.
  repeat (destruct Hd as [-> | Hd]; [reflexivity|]). subst. reflexivity.
Qed.

Lemma ascii_digit_decimal (c : char) :
  Text.is_ascii_digit c = true -> Text.to_decimal c = Some (c - 48).
Proof.
  intros H. replace c with (48 + (c - 48)) at 1 by char_lia.
  apply to_decimal_ascii. char_lia.
Qed.

Lemma ascii_digit_is_digit (c : char) :
  Text.is_ascii_digit c = true -> Text.is_digit c = true.
Proof.
  intros H. unfold Text.is_digit. rewrite (ascii_digit_decimal c H).
  reflexivity.
Qed.

(** A character below U+0080 that is a decimal digit is one of C's. *)
Lemma digit_small (c : char) :
  c < 128 -> Text.is_digit c = true -> Text.is_ascii_digit c = true.
Proof.
  unfold Text.is_digit. intros Hc H.
  destruct (Text.to_decimal c) as [d|] eqn:E; [|discriminate].
  pose proof (to_decimal_lt _ _ E). apply to_decimal_small in E; [|exact Hc].
  char_lia.
Qed.

Lemma digit_not_space (c : char) :
  Text.is_digit c = true -> Text.is_space c = false.
Proof.
  intros H. destruct (Text.is_space c) eqn:E; [|reflexivity].
  unfold Text.is_space in E. apply existsb_exists in E as (x & Hin & Hx).
  apply N.eqb_eq in Hx. subst x.
  assert (Hall : forallb (fun x => negb (Text.is_digit x))
                   [ 9; 10; 11; 12; 13; 28; 29; 30; 31; 32; 133; 160; 5760;
                     8192; 8193; 8194; 8195; 8196; 8197; 8198; 8199; 8200;
                     8201; 8202; 8232; 8233; 8239; 8287; 12288 ] = true)
    by (vm_compute; reflexivity).
  rewrite forallb_forall in Hall. apply Hall in Hin.
  rewrite H in Hin. discriminate.
Qed.

(** A digit is none of the other characters of the pattern. *)
Lemma digit_not_char (a : ascii) (c : char) :
  Text.is_digit (ord a) = false -> Text.is_digit c = true ->
  Text.is_char a c = false.
Proof.
  intros Ha Hc. destruct (Text.is_char a c) eqn:E; [|reflexivity].
  apply is_char_true in E. congruence.
Qed.

(** ** Spans *)

Definition starts (p : char -> bool) (s : text) : bool :=
  match s with
  | c :: _ => p c
  | [] => false
  end.

Definition all_digits (s : text) : bool := forallb Text.is_digit s.

Definition starts_with_digit (s : text) : bool := starts Text.is_digit s.

Lemma span_spec (p : char -> bool) (s d r : text) :
  Text.span p s = (d, r) ->
  s = d ++ r /\ forallb p d = true /\ starts p r = false.
Proof.
  revert d r. induction s as [|c s IH]; simpl; intros d r H.
  - injection H as <- <-. auto.
  - destruct (p c) eqn:Hc.
    + destruct (Text.span p s) as [d' r'].
      injection H as <- <-.
      destruct (IH d' r' eq_refl) as (-> & Hd & Hr).
      simpl. rewrite Hc. auto.
    + injection H as <- <-. simpl. rewrite Hc. auto.
Qed.

Lemma span_app (p : char -> bool) (d r : text) :
  forallb p d = true -> starts p r = false ->
  Text.span p (d ++ r) = (d, r).
Proof.
  intros Hd Hr. induction d as [|c d IH]; simpl in *.
  - destruct r as [|c r]; simpl in *; [reflexivity | rewrite Hr; reflexivity].
  - apply andb_true_iff in Hd as [Hc Hd]. rewrite Hc, (IH Hd). reflexivity.
Qed.

Lemma starts_app (p : char -> bool) (d r : text) :
  forallb p d = true -> d <> [] -> starts p (d ++ r) = true.
Proof.
  destruct d as [|c d]; [congruence|]. simpl.
  intros H _. apply andb_true_iff in H. tauto.
Qed.

Lemma is_empty_false {A : Type} (s : list A) :
  Text.is_empty s = false -> s <> [].
Proof. destruct s; [discriminate | discriminate]. Qed.

Lemma is_empty_cons {A : Type} (s : list A) :
  s <> [] -> Text.is_empty s = false.
Proof. destruct s; [congruence | reflexivity]. Qed.

(** ** [float] on the text of a number *)

(** What the first step of [float] makes of a digit. *)
Definition asciify (c : char) : char :=
  match Text.to_decimal c with
  | Some d => 48 + d
  | None => c
  end.

Lemma asciify_small (c : char) : c < 128 -> asciify c = c.
Proof.
  intros Hc. unfold asciify.
  destruct (Text.to_decimal c) as [d|] eqn:E; [|reflexivity].
  symmetry. apply to_decimal_small; assumption.
Qed.

Lemma asciify_digit (c : char) :
  Text.is_digit c = true ->
  Text.is_ascii_digit (asciify c) = true /\
  Text.digit_val (asciify c) = Text.digit_val c.
Proof.
  unfold Text.is_digit, asciify, Text.digit_val.
  destruct (Text.to_decimal c) as [d|] eqn:E; [|discriminate]. intros _.
  pose proof (to_decimal_lt _ _ E) as Hd.
  rewrite (to_decimal_ascii d Hd). split; [char_lia | reflexivity].
Qed.

(** A text of digits and of characters below U+007F only. *)
Definition plain (s : text) : Prop :=
  Forall (fun c => Text.is_digit c = true \/ c < 127) s.

Lemma transform_plain (s : text) :
  plain s -> Text.transform s = map asciify s.
Proof.
  induction 1 as [|c s Hc _ IH]; simpl; [reflexivity|].
  destruct (c <? 127) eqn:E.
  - rewrite asciify_small by lia. f_equal. exact IH.
  - destruct Hc as [Hc|Hc]; [|lia].
    rewrite (digit_not_space c Hc).
    unfold Text.is_digit in Hc. unfold asciify.
    destruct (Text.to_decimal c); [|discriminate]. f_equal. exact IH.
Qed.

Lemma ascii_plain (s : text) :
  plain s -> Text.is_ascii s = true -> map asciify s = s.
Proof.
  induction 1 as [|c s Hc _ IH]; simpl; [reflexivity|].
  intros H. apply andb_true_iff in H as [H1 H2].
  rewrite asciify_small by lia. f_equal. auto.
Qed.

Lemma to_ascii_plain (s : text) :
  plain s -> Text.to_ascii s = map asciify s.
Proof.
  intros H. unfold Text.to_ascii.
  destruct (Text.is_ascii s) eqn:E.
  - symmetry. apply ascii_plain; assumption.
  - apply transform_plain, H.
Qed.

Lemma asciify_digits (d : text) :
  all_digits d = true ->
  forallb Text.is_ascii_digit (map asciify d) = true /\
  forall acc, Text.digits_value acc (map asciify d) = Text.digits_value acc d.
Proof.
  induction d as [|c d IH]; simpl; [auto|].
  intros H. apply andb_true_iff in H as [Hc Hd].
  destruct (asciify_digit c Hc) as [H1 H2].
  destruct (IH Hd) as [H3 H4].
  rewrite H1, H3, H2. split; [reflexivity|]. intros acc. apply H4.
Qed.

Lemma digits_plain (d : text) : all_digits d = true -> plain d.
Proof.
  intros H. apply Forall_forall. intros c Hc.
  unfold all_digits in H. rewrite forallb_forall in H. left. auto.
Qed.

Lemma strip_underscores_plain (b : bool) (s : text) :
  Forall (fun c => Text.is_char "_" c = false) s ->
  Text.strip_underscores b s = Some s.
Proof.
  intros H. revert b. induction H as [|c s Hc _ IH]; intros b; simpl;
    [reflexivity|].
  rewrite Hc, IH. reflexivity.
Qed.

Lemma lstrip_head (c : char) (s : text) :
  Text.c_space c = false -> Text.lstrip (c :: s) = c :: s.
Proof. intros H. simpl. rewrite H. reflexivity. Qed.

Lemma strip_id (a b : char) (m : text) :
  Text.c_space a = false -> Text.c_space b = false ->
  Text.strip (a :: m ++ [b]) = a :: m ++ [b].
Proof.
  intros Ha Hb. unfold Text.strip. rewrite (lstrip_head a) by exact Ha.
  change (a :: m ++ [b]) with ((a :: m) ++ [b]).
  rewrite rev_app_distr. simpl rev at 2. cbn [app].
  rewrite (lstrip_head b) by exact Hb.
  change (b :: rev (a :: m)) with (rev [b] ++ rev (a :: m)).
  rewrite <- rev_app_distr. apply rev_involutive.
Qed.

(** The number a token denotes: its digits, scaled by the exponent. *)
Definition token_value (d1 d2 sg d3 : text) : float :=
  Text.decimal false (Text.digits_value 0 (d1 ++ d2))
    ((if Text.eqb sg "-" then - Text.digits_value 0 d3
      else Text.digits_value 0 d3)
     - Z.of_nat (length d2))%Z.

Lemma read_exponent_number (sg d3 : text) :
  (sg = "+" \/ sg = "-" \/ sg = "") ->
  forallb Text.is_ascii_digit d3 = true -> d3 <> [] ->
  Text.read_exponent (ord "e" :: sg ++ d3)
  = Some (if Text.eqb sg "-" then (- Text.digits_value 0 d3)%Z
          else Text.digits_value 0 d3).
Proof.
  intros Hsg Hd Hne.
  assert (Hspan : Text.span Text.is_ascii_digit d3 = (d3, [])).
  { rewrite <- (app_nil_r d3) at 1. apply span_app; auto. }
  destruct d3 as [|c u]; [congruence|].
  assert (Hc : Text.is_ascii_digit c = true).
  { simpl in Hd. apply andb_true_iff in Hd. tauto. }
  unfold Text.read_exponent.
  replace (Text.is_char "e" (Text.lower (ord "e"))) with true
    by (vm_compute; reflexivity).
  destruct Hsg as [-> | [-> | ->]].
  - change (utf8 "+" ++ c :: u) with (43 :: c :: u). cbv beta iota.
    replace (Text.is_char "-" 43) with false by (vm_compute; reflexivity).
    replace (Text.is_char "+" 43) with true by (vm_compute; reflexivity).
    cbv beta iota. rewrite Hspan. reflexivity.
  - change (utf8 "-" ++ c :: u) with (45 :: c :: u). cbv beta iota.
    replace (Text.is_char "-" 45) with true by (vm_compute; reflexivity).
    cbv beta iota. rewrite Hspan. reflexivity.
  - change (utf8 "" ++ c :: u) with (c :: u). cbv beta iota.
    replace (Text.is_char "-" c) with false by (symmetry; char_lia).
    replace (Text.is_char "+" c) with false by (symmetry; char_lia).
    cbv beta iota. rewrite Hspan. reflexivity.
Qed.

Lemma lower_digit (c : char) :
  Text.is_ascii_digit c = true -> Text.lower c = c.
Proof.
  intros H. unfold Text.lower.
  destruct ((65 <=? c) && (c <=? 90)) eqn:E; [char_lia | reflexivity].
Qed.

(** A text that starts with a digit is none of [inf], [infinity], [nan]. *)
Lemma not_a_name (c : char) (t : text) (k : string) :
  Text.is_ascii_digit c = true -> starts Text.is_ascii_digit k = false ->
  Text.eqb (Text.lowercase (c :: t)) k = false.
Proof.
  intros Hc Hk. unfold Text.lowercase. cbn [map].
  rewrite (lower_digit c Hc).
  destruct (utf8 k) as [|a k']; [reflexivity|]. cbn [Text.eqb].
  simpl in Hk. destruct (c =? a) eqn:E; [|reflexivity].
  apply N.eqb_eq in E. congruence.
Qed.

(** The ASCII text of a number, as the C parser reads it. *)
Lemma parse_float_number (d1 d2 sg d3 : text) :
  forallb Text.is_ascii_digit d1 = true -> d1 <> [] ->
  forallb Text.is_ascii_digit d2 = true -> d2 <> [] ->
  (sg = "+" \/ sg = "-" \/ sg = "") ->
  forallb Text.is_ascii_digit d3 = true -> d3 <> [] ->
  Text.parse_float (d1 ++ ord "." :: d2 ++ ord "e" :: sg ++ d3)
  = Some (token_value d1 d2 sg d3).
Proof.
  intros A1 N1 A2 N2 Hsg A3 N3.
  assert (Hno : forall d, forallb Text.is_ascii_digit d = true ->
            Forall (fun c => Text.is_char "_" c = false) d).
  { intros d Hd. apply Forall_forall. intros c Hc.
    rewrite forallb_forall in Hd. apply Hd in Hc. char_lia. }
  unfold Text.parse_float.
  rewrite strip_underscores_plain.
  2:{ apply Forall_app. split; [auto|]. constructor; [reflexivity|].
      apply Forall_app. split; [auto|]. constructor; [reflexivity|].
      apply Forall_app. split; [|auto].
      destruct Hsg as [-> | [-> | ->]]; repeat constructor. }
  destruct d1 as [|a m1]; [congruence|].
  destruct (exists_last N3) as (m3 & b & ->).
  assert (Ha : Text.is_ascii_digit a = true).
  { simpl in A1. apply andb_true_iff in A1. tauto. }
  assert (Hb : Text.is_ascii_digit b = true).
  { rewrite forallb_app in A3. apply andb_true_iff in A3 as [_ A3].
    simpl in A3. apply andb_true_iff in A3. tauto. }
  set (d3 := m3 ++ [b]) in *.
  assert (Estrip : Text.strip ((a :: m1) ++ ord "." :: d2 ++ ord "e" :: sg ++ d3)
                   = (a :: m1) ++ ord "." :: d2 ++ ord "e" :: sg ++ d3).
  { replace ((a :: m1) ++ ord "." :: d2 ++ ord "e" :: sg ++ d3)
      with (a :: (m1 ++ ord "." :: d2 ++ ord "e" :: sg ++ m3) ++ [b]).
    - apply strip_id; char_lia.
    - unfold d3. simpl. f_equal. rewrite <- !app_assoc. simpl.
      f_equal. f_equal. rewrite <- !app_assoc. simpl. f_equal.
      rewrite <- !app_assoc. reflexivity. }
  rewrite Estrip. cbn [app].
  replace (Text.is_char "-" a) with false by (symmetry; char_lia).
  replace (Text.is_char "+" a) with false by (symmetry; char_lia).
  unfold Text.read_unsigned.
  rewrite !(not_a_name a) by (exact Ha || reflexivity).
  cbn [orb].
  change (a :: m1 ++ ord "." :: d2 ++ ord "e" :: sg ++ d3)
    with ((a :: m1) ++ ord "." :: d2 ++ ord "e" :: sg ++ d3).
  rewrite (span_app Text.is_ascii_digit (a :: m1)
             (ord "." :: d2 ++ ord "e" :: sg ++ d3) A1 eq_refl).
  replace (Text.is_char "." (ord ".")) with true by (vm_compute; reflexivity).
  rewrite (span_app Text.is_ascii_digit d2 (ord "e" :: sg ++ d3) A2 eq_refl).
  cbn [Text.is_empty andb].
  rewrite (read_exponent_number sg d3 Hsg A3 N3).
  reflexivity.
Qed.

(** ** The pump log: matched text is a number *)

(** The shape of a match of [\d+\.\d+e[+-]?\d+]. *)
Definition number_shape (g d1 d2 sg d3 : text) : Prop :=
  g = d1 ++ "." ++ d2 ++ "e" ++ sg ++ d3 /\
  all_digits d1 = true /\ d1 <> [] /\
  all_digits d2 = true /\ d2 <> [] /\
  (sg = "+" \/ sg = "-" \/ sg = "") /\
  all_digits d3 = true /\ d3 <> [].

Lemma number_shape_plain (g d1 d2 sg d3 : text) :
  number_shape g d1 d2 sg d3 -> plain g.
Proof.
  intros (-> & A1 & _ & A2 & _ & Hsg & A3 & _).
  apply Forall_app. split; [apply digits_plain, A1|].
  apply Forall_app. split; [repeat constructor; right; reflexivity|].
  apply Forall_app. split; [apply digits_plain, A2|].
  apply Forall_app. split; [repeat constructor; right; reflexivity|].
  apply Forall_app. split; [|apply digits_plain, A3].
  destruct Hsg as [-> | [-> | ->]]; repeat constructor; right; reflexivity.
Qed.

(** [float] accepts every text the pattern's group can capture, whatever
    decimal digits it is written in. *)
Lemma py_float_number (g d1 d2 sg d3 : text) :
  number_shape g d1 d2 sg d3 ->
  Text.py_float g = Some (token_value d1 d2 sg d3).
Proof.
  intros Hs. unfold Text.py_float.
  rewrite (to_ascii_plain g (number_shape_plain _ _ _ _ _ Hs)).
  destruct Hs as (-> & A1 & N1 & A2 & N2 & Hsg & A3 & N3).
  destruct (asciify_digits d1 A1) as [B1 V1].
  destruct (asciify_digits d2 A2) as [B2 V2].
  destruct (asciify_digits d3 A3) as [B3 V3].
  assert (Esg : map asciify sg = sg)
    by (destruct Hsg as [-> | [-> | ->]]; reflexivity).
  rewrite !map_app, Esg.
  change (map asciify (utf8 ".")) with [ord "."].
  change (map asciify (utf8 "e")) with [ord "e"].
  cbn [app].
  rewrite parse_float_number; auto.
  - assert (A12 : all_digits (d1 ++ d2) = true).
    { unfold all_digits in *. rewrite forallb_app, A1, A2. reflexivity. }
    unfold token_value. rewrite <- map_app, V3, length_map.
    rewrite (proj2 (asciify_digits (d1 ++ d2) A12)). reflexivity.
  - destruct d1; [congruence | discriminate].
  - destruct d2; [congruence | discriminate].
  - destruct d3; [congruence | discriminate].
Qed.

Lemma match_number_shape (s g : text) :
  Re.match_number s = Some g ->
  exists d1 d2 sg d3 rest,
    number_shape g d1 d2 sg d3 /\ s = g ++ rest /\
    starts_with_digit rest = false.
Proof.
  unfold Re.match_number.
  destruct (Text.span Text.is_digit s) as [d1 r1] eqn:E1.
  destruct (Text.is_empty d1) eqn:N1; [discriminate|].
  destruct r1 as [|c1 r2]; [discriminate|].
  destruct (Text.is_char "." c1) eqn:Hc1; [|discriminate].
  apply is_char_true in Hc1. subst c1. cbn [negb].
  destruct (Text.span Text.is_digit r2) as [d2 r3] eqn:E2.
  destruct (Text.is_empty d2) eqn:N2; [discriminate|].
  destruct r3 as [|c3 r4]; [discriminate|].
  destruct (Text.is_char "e" c3) eqn:Hc3; [|discriminate].
  apply is_char_true in Hc3. subst c3. cbn [negb].
  set (sp := match r4 with
             | c4 :: t =>
                 if Text.is_char "+" c4 || Text.is_char "-" c4
                 then ([c4], t) else ([], r4)
             | [] => ([], r4)
             end).
  assert (Hsp : exists sg r5, sp = (sg, r5) /\ r4 = sg ++ r5 /\
                              (sg = "+" \/ sg = "-" \/ sg = "")).
  { unfold sp. destruct r4 as [|c4 t].
    - exists [], []. auto.
    - destruct (Text.is_char "+" c4) eqn:Hp.
      + apply is_char_true in Hp. subst. exists [ord "+"], t. auto.
      + destruct (Text.is_char "-" c4) eqn:Hm.
        * apply is_char_true in Hm. subst. exists [ord "-"], t. auto.
        * exists [], (c4 :: t). auto. }
  destruct Hsp as (sg & r5 & -> & -> & Hsg).
  destruct (Text.span Text.is_digit r5) as [d3 r6] eqn:E3.
  destruct (Text.is_empty d3) eqn:N3; [discriminate|].
  intros H. injection H as <-.
  apply span_spec in E1 as (-> & A1 & _).
  apply span_spec in E2 as (-> & A2 & _).
  apply span_spec in E3 as (-> & A3 & S3).
  exists d1, d2, sg, d3, r6. split.
  - repeat split; auto using is_empty_false.
  - split; [|exact S3].
    rewrite <- !app_assoc. simpl. rewrite <- !app_assoc. simpl.
    rewrite <- !app_assoc. reflexivity.
Qed.

(** Where the pattern matches at the very start of a text. *)
Lemma match_number_complete (g d1 d2 sg d3 rest : text) :
  number_shape g d1 d2 sg d3 ->
  starts_with_digit rest = false ->
  Re.match_number (g ++ rest) = Some g.
Proof.
  intros (-> & A1 & N1 & A2 & N2 & Hsg & A3 & N3) Hrest.
  unfold Re.match_number.
  rewrite <- !app_assoc.
  change (utf8 ".") with [ord "."]. change (utf8 "e") with [ord "e"].
  cbn [app].
  rewrite (span_app Text.is_digit d1
             (ord "." :: d2 ++ ord "e" :: sg ++ d3 ++ rest) A1 eq_refl).
  rewrite (is_empty_cons d1 N1).
  replace (Text.is_char "." (ord ".")) with true by (vm_compute; reflexivity).
  cbn [negb].
  rewrite (span_app Text.is_digit d2 (ord "e" :: sg ++ d3 ++ rest) A2 eq_refl).
  rewrite (is_empty_cons d2 N2).
  replace (Text.is_char "e" (ord "e")) with true by (vm_compute; reflexivity).
  cbn [negb].
  assert (Hd : starts_with_digit (d3 ++ rest) = true)
    by (apply starts_app; assumption).
  assert (Hsp : match sg ++ d3 ++ rest with
                | c4 :: t =>
                    if Text.is_char "+" c4 || Text.is_char "-" c4
                    then ([c4], t) else ([], sg ++ d3 ++ rest)
                | [] => ([], sg ++ d3 ++ rest)
                end = (sg, d3 ++ rest)).
  { destruct Hsg as [-> | [-> | ->]]; try reflexivity.
    change (utf8 "" ++ d3 ++ rest) with (d3 ++ rest).
    destruct (d3 ++ rest) as [|c t]; [reflexivity|].
    simpl in Hd.
    rewrite (digit_not_char "+" c eq_refl Hd),
      (digit_not_char "-" c eq_refl Hd). reflexivity. }
  rewrite Hsp.
  rewrite (span_app Text.is_digit d3 rest A3 Hrest).
  rewrite (is_empty_cons d3 N3).
  reflexivity.
Qed.

(** A text that starts with a token is matched, and the match takes in
    every digit that follows the token. *)
Lemma match_number_extends (g d1 d2 sg d3 post : text) :
  number_shape g d1 d2 sg d3 ->
  exists dd rest,
    post = dd ++ rest /\ starts_with_digit rest = false /\
    number_shape (g ++ dd) d1 d2 sg (d3 ++ dd) /\
    Re.match_number (g ++ post) = Some (g ++ dd).
Proof.
  intros Hs.
  destruct (Text.span Text.is_digit post) as [dd rest] eqn:E.
  apply span_spec in E as (-> & Hdd & Hrest).
  exists dd, rest. split; [reflexivity|]. split; [exact Hrest|].
  assert (Hs' : number_shape (g ++ dd) d1 d2 sg (d3 ++ dd)).
  { destruct Hs as (-> & A1 & N1 & A2 & N2 & Hsg & A3 & N3).
    repeat split; auto.
    - rewrite <- !app_assoc. reflexivity.
    - unfold all_digits in *. rewrite forallb_app, A3, Hdd. reflexivity.
    - destruct d3; [congruence | discriminate]. }
  split; [exact Hs'|].
  rewrite app_assoc. apply (match_number_complete _ _ _ _ _ _ Hs' Hrest).
Qed.

Lemma strip_prefix_app (p r : text) : Re.strip_prefix p (p ++ r) = Some r.
Proof.
  induction p as [|a p IH]; simpl; [reflexivity|].
  rewrite N.eqb_refl. exact IH.
Qed.

Lemma strip_prefix_spec (p s r : text) :
  Re.strip_prefix p s = Some r -> s = p ++ r.
Proof.
  revert s. induction p as [|a p IH]; simpl; intros s H.
  - congruence.
  - destruct s as [|b s]; [discriminate|].
    destruct (N.eqb a b) eqn:E; [|discriminate].
    apply N.eqb_eq in E. subst. f_equal. auto.
Qed.

(** ** The leftmost match of a line *)

Local Open Scope nat_scope.

(** [line] holds a token of the pattern after [pre], with text [g]. *)
Definition pump_token (line pre g post : text) : Prop :=
  line = pre ++ "Pump=" ++ g ++ post /\
  exists d1 d2 sg d3, number_shape g d1 d2 sg d3.

(** The token [re.search] reports: none starts further left, and none that
    starts at the same place is longer. *)
Definition leftmost_longest (line pre g post : text) : Prop :=
  pump_token line pre g post /\
  forall p q r,
    pump_token line p q r ->
    length pre < length p \/ (length p = length pre /\ length q <= length g).

Lemma match_pump_here_token (s g post : text) :
  (exists d1 d2 sg d3, number_shape g d1 d2 sg d3) ->
  s = "Pump=" ++ g ++ post ->
  exists dd, Re.match_pump_here s = Some (g ++ dd).
Proof.
  intros (d1 & d2 & sg & d3 & Hs) ->.
  unfold Re.match_pump_here. rewrite strip_prefix_app.
  destruct (match_number_extends _ _ _ _ _ post Hs)
    as (dd & rest & _ & _ & _ & Hm).
  eauto.
Qed.

Lemma app_same_length {A : Type} (a b c d : list A) :
  a ++ b = c ++ d -> length a = length c -> a = c /\ b = d.
Proof.
  revert c. induction a as [|x a IH]; intros [|y c] H Hl;
    simpl in *; try discriminate; [auto|].
  injection H as -> H. destruct (IH c H) as [-> ->]; [lia | auto].
Qed.

(** What [search_pump] returns, stated without the search: the leftmost
    token, taken with all the digits that follow it; nothing if the line
    holds no token. *)
Lemma search_pump_spec (line : text) :
  match Re.search_pump line with
  | Some g =>
      exists pre post d1 d2 sg d3,
        line = pre ++ "Pump=" ++ g ++ post /\
        number_shape g d1 d2 sg d3 /\
        starts_with_digit post = false /\
        forall p q r, pump_token line p q r -> length pre <= length p
  | None => forall p q r, ~ pump_token line p q r
  end.
Proof.
  induction line as [|c line IH].
  - simpl. intros p q r (H & _).
    apply (f_equal (@length char)) in H.
    rewrite !length_app in H. simpl in H. lia.
  - unfold Re.search_pump. fold Re.search_pump.
    destruct (Re.match_pump_here (c :: line)) as [g|] eqn:E.
    + unfold Re.match_pump_here in E.
      destruct (Re.strip_prefix "Pump=" (c :: line)) as [s|] eqn:Ep;
        [|discriminate].
      apply strip_prefix_spec in Ep.
      apply match_number_shape in E
        as (d1 & d2 & sg & d3 & rest & Hshape & -> & Hrest).
      exists [], rest, d1, d2, sg, d3.
      split; [exact Ep|]. split; [exact Hshape|]. split; [exact Hrest|].
      intros. simpl. lia.
    + destruct (Re.search_pump line) as [g|].
      * destruct IH as (pre & post & d1 & d2 & sg & d3 & -> & Hs & Hp & Hleft).
        exists (c :: pre), post, d1, d2, sg, d3.
        split; [reflexivity|]. split; [exact Hs|]. split; [exact Hp|].
        intros p q r (Hline & Hq).
        destruct p as [|c' p].
        -- destruct (match_pump_here_token _ q r Hq Hline) as (dd & Hdd).
           congruence.
        -- simpl in Hline. injection Hline as _ Hline.
           specialize (Hleft p q r (conj Hline Hq)). simpl. lia.
      * intros p q r (Hline & Hq).
        destruct p as [|c' p].
        -- destruct (match_pump_here_token _ q r Hq Hline) as (dd & Hdd).
           congruence.
        -- simpl in Hline. injection Hline as _ Hline.
           apply (IH p q r). split; assumption.
Qed.

Lemma search_pump_shape (line g : text) :
  Re.search_pump line = Some g ->
  exists pre post d1 d2 sg d3,
    line = pre ++ "Pump=" ++ g ++ post /\ number_shape g d1 d2 sg d3.
Proof.
  intros H. pose proof (search_pump_spec line) as Hs. rewrite H in Hs.
  destruct Hs as (pre & post & d1 & d2 & sg & d3 & Hl & Hn & _).
  exists pre, post, d1, d2, sg, d3. auto.
Qed.

Lemma search_pump_leftmost_longest (line g : text) :
  Re.search_pump line = Some g ->
  exists pre post, leftmost_longest line pre g post.
Proof.
  intros H. pose proof (search_pump_spec line) as Hs. rewrite H in Hs.
  destruct Hs as (pre & post & d1 & d2 & sg & d3 & Hl & Hn & Hpost & Hleft).
  exists pre, post. split; [split; eauto 6|].
  intros p q r Hq. pose proof (Hleft p q r Hq) as Hle.
  destruct (Nat.eq_dec (length p) (length pre)) as [El|]; [|lia].
  right. split; [exact El|].
  destruct Hq as (Hline & d1' & d2' & sg' & d3' & Hq).
  rewrite Hl in Hline. symmetry in Hline.
  apply app_same_length in Hline as [_ Hline]; [|exact El].
  apply app_inv_head in Hline.
  destruct (match_number_extends _ _ _ _ _ r Hq) as (dd & rest & _ & _ & _ & Hm).
  rewrite Hline, (match_number_complete _ _ _ _ _ _ Hn Hpost) in Hm.
  injection Hm as ->. rewrite length_app. lia.
Qed.

Lemma leftmost_longest_found (line pre g post : text) :
  leftmost_longest line pre g post -> Re.search_pump line = Some g.
Proof.
  intros (Htok & Hbest).
  destruct (Re.search_pump line) as [g0|] eqn:E.
  - destruct (search_pump_leftmost_longest _ _ E)
      as (pre0 & post0 & Htok0 & Hbest0).
    pose proof (Hbest _ _ _ Htok0) as H1.
    pose proof (Hbest0 _ _ _ Htok) as H2.
    assert (El : length pre0 = length pre) by lia.
    assert (Eg : length g0 = length g) by lia.
    destruct Htok as (Hl & _). destruct Htok0 as (Hl0 & _).
    rewrite Hl in Hl0.
    apply app_same_length in Hl0 as [_ Hl0]; [|lia].
    apply app_inv_head in Hl0.
    apply app_same_length in Hl0 as [-> _]; [reflexivity | lia].
  - pose proof (search_pump_spec line) as Hs. rewrite E in Hs.
    exfalso. exact (Hs _ _ _ Htok).
Qed.

Lemma search_pump_float (line g : text) :
  Re.search_pump line = Some g ->
  exists v, Text.py_float g = Some v /\ Np.to_float g = v.
Proof.
  intros H.
  apply search_pump_shape in H as (_ & _ & d1 & d2 & sg & d3 & _ & Hs).
  unfold Np.to_float. rewrite (py_float_number _ _ _ _ _ Hs). eauto.
Qed.

(** ** C9: values and deviations of the pump log *)

(** What one line contributes: the number after the leftmost [Pump=] that
    is followed by one, or nothing. *)
Definition line_values (line : text) : list float :=
  match Re.search_pump line with
  | Some g => [Np.to_float g]
  | None => []
  end.

Lemma read_pump_values_flat_map (lines : file) :
  read_pump_values lines = Ok (flat_map line_values lines).
Proof.
  induction lines as [|line rest IH]; simpl; [reflexivity|].
  unfold line_values at 1.
  destruct (Re.search_pump line) as [g|] eqn:E.
  - destruct (search_pump_float _ _ E) as (v & -> & ->).
    rewrite IH. reflexivity.
  - exact IH.
Qed.

Lemma extract_pump_values_inv file_path cv cv' loc :
  extract_pump_values file_path cv = Ok (cv', loc) ->
  pump_values loc = flat_map line_values file_path /\
  percentage_deviation loc = deviations (pump_values loc) /\
  Np.percentile (percentage_deviation loc) (F64.of_Z 95)
  = Ok (percentile_95 loc) /\
  Np.percentile (percentage_deviation loc) (F64.of_Z 5)
  = Ok (percentile_5 loc).
Proof.
  unfold extract_pump_values. rewrite read_pump_values_flat_map. simpl.
  intros H.
  apply bind_Ok in H as (p95 & H95 & H).
  apply bind_Ok in H as (p5 & H5 & H).
  apply bind_Ok in H as (cv1 & _ & H).
  injection H as _ <-. simpl. auto.
Qed.

Definition pump_log_scenario : file :=
  [ "Pump=1.0e+00"; "Pump=2.0e+00"; "noise" ].

(** C9.  Each line contributes, in file order, the float of the text
    captured by [re.search] with [Pump=(\d+\.\d+e[+-]?\d+)], and nothing
    when there is no match; reading never raises.  The search finds nothing
    exactly when the line holds no token of the pattern, and otherwise
    captures the leftmost token, taken as long as it can be; the value is
    the correctly rounded number its digits denote.  Deviation [i] is
    [(mean - values[i]) / mean * 100].  The scenario log gives the values
    [1.0, 2.0], the mean 1.5 and the deviations 33.33333333333333 and
    -33.33333333333333. *)
Theorem extract_pump_values_spec :
  (forall lines, read_pump_values lines = Ok (flat_map line_values lines)) /\
  (forall line,
      ((forall pre g post, ~ pump_token line pre g post) <->
       Re.search_pump line = None) /\
      (Re.search_pump line = None -> line_values line = [])) /\
  (forall line g,
      ((exists pre post, leftmost_longest line pre g post) <->
       Re.search_pump line = Some g) /\
      (Re.search_pump line = Some g ->
       exists d1 d2 sg d3,
         number_shape g d1 d2 sg d3 /\
         Text.py_float g = Some (token_value d1 d2 sg d3) /\
         line_values line = [token_value d1 d2 sg d3])) /\
  (forall file_path cv cv' loc,
      extract_pump_values file_path cv = Ok (cv', loc) ->
      pump_values loc = flat_map line_values file_path /\
      length (percentage_deviation loc) = length (pump_values loc) /\
      forall i value,
        nth_error (pump_values loc) i = Some value ->
        nth_error (percentage_deviation loc) i
        = Some (F64.mul
                  (F64.div (F64.sub (Np.mean (pump_values loc)) value)
                           (Np.mean (pump_values loc)))
                  (F64.of_Z 100))) /\
  (exists cv' loc,
      extract_pump_values pump_log_scenario [] = Ok (cv', loc) /\
      pump_values loc = [Np.to_float "1.0"; Np.to_float "2.0"] /\
      Np.mean (pump_values loc) = Np.to_float "1.5" /\
      percentage_deviation loc
      = [Np.to_float "33.33333333333333"; Np.to_float "-33.33333333333333"]).
Proof.
  split; [exact read_pump_values_flat_map|].
  split.
  { intros line. split.
    - split.
      + intros Hno. destruct (Re.search_pump line) as [g|] eqn:E;
          [|reflexivity].
        destruct (search_pump_leftmost_longest _ _ E)
          as (pre & post & Htok & _).
        exfalso. exact (Hno _ _ _ Htok).
      + intros E. pose proof (search_pump_spec line) as Hs.
        rewrite E in Hs. exact Hs.
    - intros H. unfold line_values. rewrite H. reflexivity. }
  split.
  { intros line g. split.
    - split.
      + intros (pre & post & H). exact (leftmost_longest_found _ _ _ _ H).
      + apply search_pump_leftmost_longest.
    - intros H.
      destruct (search_pump_shape _ _ H)
        as (_ & _ & d1 & d2 & sg & d3 & _ & Hs).
      exists d1, d2, sg, d3. split; [exact Hs|].
      pose proof (py_float_number _ _ _ _ _ Hs) as Hv.
      split; [exact Hv|].
      unfold line_values, Np.to_float. rewrite H, Hv. reflexivity. }
  split.
  { intros file_path cv cv' loc H.
    apply extract_pump_values_inv in H as (Hv & Hd & _).
    split; [exact Hv|]. rewrite Hd. unfold deviations.
    split; [apply length_map|].
    intros i value Hi. rewrite nth_error_map, Hi. reflexivity. }
  do 2 eexists. split; [vm_compute; reflexivity|].
  repeat split; vm_compute; reflexivity.
Qed.

Lemma extract_pump_values_spec_witness :
  exists cv' loc,
    extract_pump_values pump_log_scenario [] = Ok (cv', loc) /\
    pump_values loc = flat_map line_values pump_log_scenario /\
    nth_error (percentage_deviation loc) 1
    = Some (F64.mul
              (F64.div (F64.sub (Np.mean (pump_values loc)) (Np.to_float "2.0"))
                       (Np.mean (pump_values loc)))
              (F64.of_Z 100)).
Proof.
  destruct extract_pump_values_spec as (_ & _ & _ & H & _).
  destruct (extract_pump_values pump_log_scenario []) as [[cv' loc]|e] eqn:E.
  2:{ vm_compute in E. discriminate. }
  exists cv', loc. split; [reflexivity|].
  destruct (H _ _ _ _ E) as (Hv & _ & Hd).
  split; [exact Hv|]. apply Hd. rewrite Hv. vm_compute. reflexivity.
Defined.

(** ** C8: a pump log without a matching line *)

Lemma read_pump_values_no_match (lines : file) :
  Forall (fun line => Re.search_pump line = None) lines ->
  read_pump_values lines = Ok [].
Proof.
  intros H. rewrite read_pump_values_flat_map. f_equal.
  induction H as [|line rest Hl _ IH]; simpl; [reflexivity|].
  unfold line_values at 1. rewrite Hl. exact IH.
Qed.

(** C8, as stated, fails: on the empty log, and on a log of lines without a
    match, no deviation exists that could be NaN, and the first percentile
    call raises. *)
Lemma empty_pump_log_counterexample :
  read_pump_values ["noise"; "Pump=off"] = Ok [] /\
  deviations [] = [] /\
  extract_pump_values ["noise"; "Pump=off"] [] = Raise IndexError /\
  extract_pump_values [] [] = Raise IndexError.
Proof.
  repeat split; vm_compute; reflexivity.
Qed.

(** C8, amended.  For a log without a matching line the list of values is
    empty and so is the list of deviations: the comprehension of line 111
    has nothing to iterate over and no mean is taken (the mean of the empty
    array is NaN); the percentile of the empty list raises [IndexError], so
    the call does not return. *)
Theorem empty_pump_log_raises (file_path : file) (cv : canvas) :
  Forall (fun line => Re.search_pump line = None) file_path ->
  read_pump_values file_path = Ok [] /\
  deviations [] = [] /\
  Np.mean [] = F64.nan /\
  Np.percentile (deviations []) (F64.of_Z 95) = Raise IndexError /\
  extract_pump_values file_path cv = Raise IndexError.
Proof.
  intros H. pose proof (read_pump_values_no_match _ H) as Hr.
  repeat split; auto using mean_nil.
  unfold extract_pump_values. rewrite Hr. reflexivity.
Qed.

Lemma empty_pump_log_raises_witness :
  extract_pump_values ["noise"; "Pump=off"] [] = Raise IndexError.
Proof.
  apply (empty_pump_log_raises ["noise"; "Pump=off"] []).
  repeat constructor.
Defined.

(** ** C4: truncation at the bleach peak *)

Lemma sub_self (x : float) :
  F64.is_finite x = true -> F64.sub x x = F64.zero.
Proof.
  destruct x as [s|s| |s m e]; try discriminate; intros _.
  - destruct s; reflexivity.
  - unfold F64.sub, SFsub. rewrite Z.sub_diag. reflexivity.
Qed.





(** ** The order of binary64 values *)

Local Open Scope Z_scope.

(** A key whose lexicographic order is the order of the non-NaN floats. *)
Definition key (x : float) : Z * Z * Z :=
  match x with
  | S754_nan => (0, 0, 0)
  | S754_zero _ => (0, 0, 0)
  | S754_infinity true => (-2, 0, 0)
  | S754_infinity false => (2, 0, 0)
  | S754_finite true m e => (-1, - e, - Zpos m)
  | S754_finite false m e => (1, e, Zpos m)
  end.

Definition key_lt (k1 k2 : Z * Z * Z) : Prop :=
  let '(a1, b1, c1) := k1 in
  let '(a2, b2, c2) := k2 in
  a1 < a2 \/ (a1 = a2 /\ (b1 < b2 \/ (b1 = b2 /\ c1 < c2))).

Definition key_le (k1 k2 : Z * Z * Z) : Prop :=
  let '(a1, b1, c1) := k1 in
  let '(a2, b2, c2) := k2 in
  a1 < a2 \/ (a1 = a2 /\ (b1 < b2 \/ (b1 = b2 /\ c1 <= c2))).

Lemma compare_finite_key (m1 m2 : positive) (e1 e2 : Z) :
  match e1 ?= e2 with
  | Lt => Lt
  | Gt => Gt
  | Eq => Pos.compare_cont Eq m1 m2
  end
  = match e1 ?= e2 with
    | Eq => Zpos m1 ?= Zpos m2
    | c => c
    end.
Proof. destruct (e1 ?= e2); reflexivity. Qed.

Lemma ltb_key (x y : float) :
  F64.is_nan x = false -> F64.is_nan y = false ->
  (F64.ltb x y = true <-> key_lt (key x) (key y)).
Proof.
  destruct x as [sx|sx| |sx mx ex]; try discriminate;
  destruct y as [sy|sy| |sy my ey]; try discriminate; intros _ _;
  try destruct sx; try destruct sy;
  unfold F64.ltb, SFltb, key_lt; simpl;
  try (split; [discriminate | lia]);
  try (split; [lia | reflexivity]);
  try (split; [intros _; lia | reflexivity]).
  - change (Pos.compare_cont Eq mx my) with (Zpos mx ?= Zpos my).
    destruct (Z.compare_spec ex ey); destruct (Z.compare_spec (Zpos mx) (Zpos my));
      simpl; split; intros; try discriminate; try reflexivity; try lia.
  - change (Pos.compare_cont Eq mx my) with (Zpos mx ?= Zpos my).
    destruct (Z.compare_spec ex ey); destruct (Z.compare_spec (Zpos mx) (Zpos my));
      simpl; split; intros; try discriminate; try reflexivity; try lia.
Qed.

Lemma leb_key (x y : float) :
  F64.is_nan x = false -> F64.is_nan y = false ->
  (F64.leb x y = true <-> key_le (key x) (key y)).
Proof.
  destruct x as [sx|sx| |sx mx ex]; try discriminate;
  destruct y as [sy|sy| |sy my ey]; try discriminate; intros _ _;
  try destruct sx; try destruct sy;
  unfold F64.leb, SFleb, key_le; simpl;
  try (split; [discriminate | lia]);
  try (split; [lia | reflexivity]);
  try (split; [intros _; lia | reflexivity]).
  - change (Pos.compare_cont Eq mx my) with (Zpos mx ?= Zpos my).
    destruct (Z.compare_spec ex ey); destruct (Z.compare_spec (Zpos mx) (Zpos my));
      simpl; split; intros; try discriminate; try reflexivity; try lia.
  - change (Pos.compare_cont Eq mx my) with (Zpos mx ?= Zpos my).
    destruct (Z.compare_spec ex ey); destruct (Z.compare_spec (Zpos mx) (Zpos my));
      simpl; split; intros; try discriminate; try reflexivity; try lia.
Qed.

Lemma geb_false_ltb (x y : float) :
  F64.is_nan x = false -> F64.is_nan y = false ->
  F64.geb x y = false -> F64.ltb x y = true.
Proof.
  intros Hx Hy H. apply (ltb_key x y Hx Hy).
  assert (Hn : ~ key_le (key y) (key x)).
  { intros Hle. apply (leb_key y x Hy Hx) in Hle. unfold F64.geb in H.
    unfold F64.leb in Hle. congruence. }
  unfold key_le, key_lt in *.
  destruct (key x) as [[a1 b1] c1], (key y) as [[a2 b2] c2]. lia.
Qed.

Lemma ltb_leb_trans (x y z : float) :
  F64.is_nan x = false -> F64.is_nan y = false -> F64.is_nan z = false ->
  F64.ltb x y = true -> F64.leb y z = true -> F64.ltb x z = true.
Proof.
  intros Hx Hy Hz H1 H2.
  apply (ltb_key x y Hx Hy) in H1. apply (leb_key y z Hy Hz) in H2.
  apply (ltb_key x z Hx Hz).
  unfold key_le, key_lt in *.
  destruct (key x) as [[a1 b1] c1], (key y) as [[a2 b2] c2],
           (key z) as [[a3 b3] c3]. lia.
Qed.

Lemma leb_trans (x y z : float) :
  F64.is_nan x = false -> F64.is_nan y = false -> F64.is_nan z = false ->
  F64.leb x y = true -> F64.leb y z = true -> F64.leb x z = true.
Proof.
  intros Hx Hy Hz H1 H2.
  apply (leb_key x y Hx Hy) in H1. apply (leb_key y z Hy Hz) in H2.
  apply (leb_key x z Hx Hz).
  unfold key_le in *.
  destruct (key x) as [[a1 b1] c1], (key y) as [[a2 b2] c2],
           (key z) as [[a3 b3] c3]. lia.
Qed.

Lemma ltb_leb (x y : float) :
  F64.is_nan x = false -> F64.is_nan y = false ->
  F64.ltb x y = true -> F64.leb x y = true.
Proof.
  intros Hx Hy H. apply (ltb_key x y Hx Hy) in H. apply (leb_key x y Hx Hy).
  unfold key_le, key_lt in *.
  destruct (key x) as [[a1 b1] c1], (key y) as [[a2 b2] c2]. lia.
Qed.

Lemma ltb_not_leb (x y : float) :
  F64.is_nan x = false -> F64.is_nan y = false ->
  F64.ltb x y = true -> F64.leb y x = false.
Proof.
  intros Hx Hy H. apply (ltb_key x y Hx Hy) in H.
  destruct (F64.leb y x) eqn:E; [|reflexivity].
  apply (leb_key y x Hy Hx) in E.
  unfold key_le, key_lt in *.
  destruct (key x) as [[a1 b1] c1], (key y) as [[a2 b2] c2]. lia.
Qed.

Lemma leb_refl (x : float) : F64.is_nan x = false -> F64.leb x x = true.
Proof.
  intros Hx. apply (leb_key x x Hx Hx). unfold key_le.
  destruct (key x) as [[a b] c]. lia.
Qed.

(** ** What [argmin] returns on data without NaN *)

Definition no_nan (l : list float) : Prop :=
  Forall (fun x => F64.is_nan x = false) l.

Lemma argmin_loop_spec (l : list float) :
  forall (seen : list float) (mp : float) (k : nat),
    no_nan (seen ++ l)%list ->
    nth_error seen k = Some mp ->
    (forall x, In x seen -> F64.leb mp x = true) ->
    (forall k' x, (k' < k)%nat -> nth_error seen k' = Some x ->
                  F64.ltb mp x = true) ->
    let j := Np.argmin_loop l (length seen) mp k in
    exists y,
      nth_error (seen ++ l)%list j = Some y /\
      (forall x, In x (seen ++ l)%list -> F64.leb y x = true) /\
      (forall k' x, (k' < j)%nat -> nth_error (seen ++ l)%list k' = Some x ->
                    F64.ltb y x = true).
Proof.
  induction l as [|x l IH]; intros seen mp k Hnan Hk Hle Hlt; simpl.
  - rewrite app_nil_r. exists mp. auto.
  - assert (Hk' : (k < length seen)%nat)
      by (apply nth_error_Some; congruence).
    assert (Hnx : F64.is_nan x = false).
    { unfold no_nan in Hnan. rewrite Forall_forall in Hnan.
      apply Hnan, in_or_app. right. left. reflexivity. }
    assert (Hnmp : F64.is_nan mp = false).
    { unfold no_nan in Hnan. rewrite Forall_forall in Hnan.
      apply Hnan, in_or_app. left. eapply nth_error_In, Hk. }
    assert (Hnseen : forall y, In y seen -> F64.is_nan y = false).
    { intros y Hy. unfold no_nan in Hnan. rewrite Forall_forall in Hnan.
      apply Hnan, in_or_app. left. exact Hy. }
    assert (Happ : ((seen ++ [x]) ++ l = seen ++ x :: l)%list)
      by (rewrite <- app_assoc; reflexivity).
    assert (Hlen : length (seen ++ [x])%list = S (length seen))
      by (rewrite length_app; simpl; lia).
    destruct (F64.geb x mp) eqn:E; simpl.
    + (* the minimum so far is kept *)
      specialize (IH (seen ++ [x])%list mp k).
      rewrite Happ, Hlen in IH. apply IH; auto.
      * rewrite nth_error_app1 by exact Hk'. exact Hk.
      * intros y Hy. apply in_app_or in Hy as [Hy|[<-|[]]]; auto.
      * intros k' y Hk'' Hy. rewrite nth_error_app1 in Hy by lia. eauto.
    + (* a strictly smaller entry *)
      rewrite Hnx.
      pose proof (geb_false_ltb x mp Hnx Hnmp E) as Hxmp.
      specialize (IH (seen ++ [x])%list x (length seen)).
      rewrite Happ, Hlen in IH. apply IH; auto.
      * rewrite nth_error_app2, Nat.sub_diag by lia. reflexivity.
      * intros y Hy. apply in_app_or in Hy as [Hy|[<-|[]]].
        -- apply ltb_leb; auto.
           apply (ltb_leb_trans x mp y); auto.
        -- apply leb_refl, Hnx.
      * intros k' y Hk'' Hy. rewrite nth_error_app1 in Hy by lia.
        apply (ltb_leb_trans x mp y); auto.
        -- apply Hnseen. eapply nth_error_In, Hy.
        -- apply Hle. eapply nth_error_In, Hy.
Qed.

(** On data without NaN, [argmin] returns the lowest index of a least
    entry. *)
Lemma argmin_spec (a : list float) (j : nat) :
  no_nan a ->
  Np.argmin a = Ok j ->
  exists y,
    nth_error a j = Some y /\
    (forall x, In x a -> F64.leb y x = true) /\
    (forall k x, (k < j)%nat -> nth_error a k = Some x -> F64.ltb y x = true).
Proof.
  intros Hnan H. destruct a as [|x l]; [discriminate|].
  simpl in H. injection H as <-.
  assert (Hx : F64.is_nan x = false) by (inversion Hnan; assumption).
  rewrite Hx.
  apply (argmin_loop_spec l [x] x 0%nat Hnan eq_refl).
  - intros y [<-|[]]. apply leb_refl, Hx.
  - intros k' y Hk'. lia.
Qed.

(** ** Rounding to binary64 *)

Definition fexp64 (k : Z) : Z := fexp F64.prec F64.emax k.

Lemma fexp64_eq (k : Z) : fexp64 k = Z.max (k - 53) (-1074).
Proof. reflexivity. Qed.

Lemma digits2_bounds (p : positive) :
  2 ^ (Zpos (digits2_pos p) - 1) <= Zpos p < 2 ^ Zpos (digits2_pos p).
Proof.
  induction p as [p IH|p IH|]; simpl digits2_pos.
  - rewrite Pos2Z.inj_succ.
    replace (Z.succ (Zpos (digits2_pos p)) - 1) with
      (Z.succ (Zpos (digits2_pos p) - 1)) by lia.
    rewrite !Z.pow_succ_r by lia. lia.
  - rewrite Pos2Z.inj_succ.
    replace (Z.succ (Zpos (digits2_pos p)) - 1) with
      (Z.succ (Zpos (digits2_pos p) - 1)) by lia.
    rewrite !Z.pow_succ_r by lia. lia.
  - simpl. lia.
Qed.

Lemma Zdigits2_bounds (m : Z) :
  0 < m -> 2 ^ (Zdigits2 m - 1) <= m < 2 ^ Zdigits2 m.
Proof.
  destruct m as [|p|p]; try lia. intros _. apply digits2_bounds.
Qed.

Lemma Zdigits2_pos (m : Z) : 0 < m -> 0 < Zdigits2 m.
Proof. destruct m; simpl; lia. Qed.

Lemma Zdigits2_unique (m d : Z) :
  2 ^ (d - 1) <= m < 2 ^ d -> 0 < d -> Zdigits2 m = d.
Proof.
  intros [Hlo Hhi] Hd.
  assert (Hm : 0 < m).
  { pose proof (Z.pow_pos_nonneg 2 (d - 1)). lia. }
  pose proof (Zdigits2_bounds m Hm) as [Hlo' Hhi'].
  pose proof (Zdigits2_pos m Hm) as Hd'.
  assert (d - 1 < Zdigits2 m).
  { apply (Z.pow_lt_mono_r_iff 2); lia. }
  assert (Zdigits2 m - 1 < d).
  { apply (Z.pow_lt_mono_r_iff 2); lia. }
  lia.
Qed.

Lemma Zdigits2_shift (m k : Z) :
  0 < m -> 0 <= k -> Zdigits2 (m * 2 ^ k) = Zdigits2 m + k.
Proof.
  intros Hm Hk.
  pose proof (Zdigits2_bounds m Hm) as [Hlo Hhi].
  pose proof (Zdigits2_pos m Hm) as Hd.
  pose proof (Z.pow_pos_nonneg 2 k).
  apply Zdigits2_unique; [|lia].
  replace (Zdigits2 m + k - 1) with ((Zdigits2 m - 1) + k) by lia.
  rewrite !Z.pow_add_r by lia. nia.
Qed.

Lemma shr_1_m (mrs : shr_record) :
  0 <= shr_m mrs -> shr_m (shr_1 mrs) = shr_m mrs / 2.
Proof.
  destruct mrs as [m r s]. simpl. intros Hm.
  destruct m as [|[p|p|]|p]; try lia; simpl;
    rewrite <- Z.div2_div; reflexivity.
Qed.

Lemma iter_shr_m (p : positive) :
  forall mrs,
    0 <= shr_m mrs ->
    shr_m (iter_pos shr_1 p mrs) = shr_m mrs / 2 ^ Zpos p.
Proof.
  induction p as [p IH|p IH|]; intros mrs Hm; simpl iter_pos.
  - assert (H1 : 0 <= shr_m (shr_1 mrs)).
    { rewrite shr_1_m by exact Hm. apply Z.div_pos; lia. }
    assert (H2 : 0 <= shr_m (iter_pos shr_1 p (shr_1 mrs))).
    { rewrite IH by exact H1. apply Z.div_pos; [lia|].
      apply Z.pow_pos_nonneg; lia. }
    rewrite (IH _ H2), (IH _ H1), shr_1_m by exact Hm.
    pose proof (Z.pow_pos_nonneg 2 (Zpos p)).
    rewrite !Z.div_div by lia.
    f_equal. replace (Zpos p~1) with (1 + Zpos p + Zpos p) by lia.
    rewrite !Z.pow_add_r by lia. change (2 ^ 1) with 2. lia.
  - assert (H2 : 0 <= shr_m (iter_pos shr_1 p mrs)).
    { rewrite IH by exact Hm. apply Z.div_pos; [lia|].
      apply Z.pow_pos_nonneg; lia. }
    rewrite (IH _ H2), (IH _ Hm).
    pose proof (Z.pow_pos_nonneg 2 (Zpos p)).
    rewrite !Z.div_div by lia.
    f_equal. replace (Zpos p~0) with (Zpos p + Zpos p) by lia.
    rewrite !Z.pow_add_r by lia. lia.
  - apply shr_1_m, Hm.
Qed.

Lemma shr_record_of_loc_m (m : Z) (l : location) :
  shr_m (shr_record_of_loc m l) = m.
Proof. destruct l as [|[]]; reflexivity. Qed.

(** Aligning a mantissa to the exponent its magnitude calls for. *)
Lemma shr_fexp_spec (m e : Z) (l : location) :
  0 <= m ->
  let n := Z.max 0 (fexp64 (Zdigits2 m + e) - e) in
  shr_m (fst (shr_fexp F64.prec F64.emax m e l)) = m / 2 ^ n /\
  snd (shr_fexp F64.prec F64.emax m e l) = e + n.
Proof.
  intros Hm n. unfold shr_fexp, shr. fold (fexp64 (Zdigits2 m + e)).
  subst n. destruct (fexp64 (Zdigits2 m + e) - e) as [|p|p] eqn:E; simpl fst; simpl snd.
  - rewrite shr_record_of_loc_m. simpl. rewrite Z.div_1_r. lia.
  - rewrite iter_shr_m by (rewrite shr_record_of_loc_m; exact Hm).
    rewrite shr_record_of_loc_m.
    replace (Z.max 0 (Zpos p)) with (Zpos p) by lia. auto.
  - rewrite shr_record_of_loc_m.
    replace (Z.max 0 (Zneg p)) with 0 by lia. simpl. rewrite Z.div_1_r. lia.
Qed.

Lemma round_nearest_even_bounds (m : Z) (l : location) :
  m <= round_nearest_even m l <= m + 1.
Proof.
  destruct l as [|[]]; simpl; try lia. destruct (Z.even m); lia.
Qed.

(** The two alignments and the rounding step of [binary_round_aux]. *)
Lemma binary_round_aux_spec (s : bool) (m e : Z) (l : location) :
  0 <= m ->
  exists m2,
    let n1 := Z.max 0 (fexp64 (Zdigits2 m + e) - e) in
    let m1 := m / 2 ^ n1 in
    let e1 := e + n1 in
    let n2 := Z.max 0 (fexp64 (Zdigits2 m2 + e1) - e1) in
    let m3 := m2 / 2 ^ n2 in
    let e3 := e1 + n2 in
    m1 <= m2 <= m1 + 1 /\
    (l = loc_Exact -> n1 = 0 -> m2 = m) /\
    binary_round_aux F64.prec F64.emax s m e l
    = match m3 with
      | Z0 => S754_zero s
      | Zpos p => if e3 <=? 971 then S754_finite s p e3 else S754_infinity s
      | Zneg _ => S754_nan
      end.
Proof.
  intros Hm. unfold binary_round_aux.
  pose proof (shr_fexp_spec m e l Hm) as [H1m H1e].
  destruct (shr_fexp F64.prec F64.emax m e l) as [mrs1 e1] eqn:E1.
  simpl in H1m, H1e.
  set (m2 := round_nearest_even (shr_m mrs1) (loc_of_shr_record mrs1)).
  exists m2. cbv zeta.
  pose proof (round_nearest_even_bounds (shr_m mrs1) (loc_of_shr_record mrs1))
    as Hb. fold m2 in Hb.
  assert (Hm1 : 0 <= shr_m mrs1).
  { rewrite H1m. apply Z.div_pos; [lia|]. apply Z.pow_pos_nonneg; lia. }
  assert (Hm2 : 0 <= m2) by lia.
  pose proof (shr_fexp_spec m2 e1 loc_Exact Hm2) as [H2m H2e].
  destruct (shr_fexp F64.prec F64.emax m2 e1 loc_Exact) as [mrs2 e2] eqn:E2.
  simpl in H2m, H2e.
  rewrite <- H1m, <- H1e. split; [exact Hb|]. split.
  - intros -> Hn. unfold shr_fexp, shr in E1.
    fold (fexp64 (Zdigits2 m + e)) in E1.
    destruct (fexp64 (Zdigits2 m + e) - e) eqn:En; try lia;
      injection E1 as <- <-; reflexivity.
  - rewrite H2m, H2e. reflexivity.
Qed.

Definition finite_or_inf (s : bool) (x : float) : Prop :=
  match x with
  | S754_finite s' _ _ | S754_infinity s' => s' = s
  | _ => False
  end.

Lemma aligned_mantissa_pos (m e : Z) :
  0 < m -> -1074 <= e ->
  0 < m / 2 ^ Z.max 0 (fexp64 (Zdigits2 m + e) - e).
Proof.
  intros Hm He.
  pose proof (Zdigits2_bounds m Hm) as [Hlo _].
  pose proof (Zdigits2_pos m Hm) as Hd.
  set (n := Z.max 0 (fexp64 (Zdigits2 m + e) - e)).
  assert (Hn : 0 <= n <= Zdigits2 m - 1).
  { unfold n. rewrite fexp64_eq. lia. }
  assert (2 ^ n <= 2 ^ (Zdigits2 m - 1)) by (apply Z.pow_le_mono_r; lia).
  apply Z.div_str_pos. split; [apply Z.pow_pos_nonneg; lia | lia].
Qed.

Lemma binary_round_aux_not_nan (s : bool) (m e : Z) (l : location) :
  0 <= m -> F64.is_nan (binary_round_aux F64.prec F64.emax s m e l) = false.
Proof.
  intros Hm. destruct (binary_round_aux_spec s m e l Hm) as (m2 & H).
  cbv zeta in H. destruct H as (Hb & _ & ->).
  set (n1 := Z.max 0 (fexp64 (Zdigits2 m + e) - e)) in *.
  assert (0 <= m / 2 ^ n1).
  { apply Z.div_pos; [lia|]. apply Z.pow_pos_nonneg; lia. }
  set (n2 := Z.max 0 (fexp64 (Zdigits2 m2 + (e + n1)) - (e + n1))).
  assert (H3 : 0 <= m2 / 2 ^ n2).
  { apply Z.div_pos; [lia|]. apply Z.pow_pos_nonneg; lia. }
  destruct (m2 / 2 ^ n2) as [|p|p]; try reflexivity; [|lia].
  destruct (_ <=? _); reflexivity.
Qed.

(** A non-zero value whose exponent is in range never rounds to a zero. *)
Lemma binary_round_aux_nonzero (s : bool) (m e : Z) (l : location) :
  0 < m -> -1074 <= e ->
  finite_or_inf s (binary_round_aux F64.prec F64.emax s m e l).
Proof.
  intros Hm He.
  destruct (binary_round_aux_spec s m e l) as (m2 & H); [lia|].
  cbv zeta in H. destruct H as (Hb & _ & ->).
  pose proof (aligned_mantissa_pos m e Hm He) as H1.
  set (n1 := Z.max 0 (fexp64 (Zdigits2 m + e) - e)) in *.
  assert (Hm2 : 0 < m2) by lia.
  assert (He1 : -1074 <= e + n1) by lia.
  pose proof (aligned_mantissa_pos m2 (e + n1) Hm2 He1) as H3.
  destruct (m2 / 2 ^ _) as [|p|p]; try lia.
  destruct (_ <=? _); reflexivity.
Qed.

Lemma iter_xO (m d : positive) :
  Zpos (Pos.iter xO m d) = Zpos m * 2 ^ Zpos d.
Proof.
  induction d as [|d IH] using Pos.peano_ind.
  - simpl. lia.
  - rewrite Pos.iter_succ, Pos2Z.inj_succ, Z.pow_succ_r by lia.
    rewrite Pos2Z.inj_xO, IH. lia.
Qed.

Lemma shl_align_spec (m : positive) (e e' : Z) :
  let '(m', e'') := shl_align m e e' in
  Zpos m' = Zpos m * 2 ^ Z.max 0 (e - e') /\ e'' = Z.min e e'.
Proof.
  unfold shl_align. destruct (e' - e) as [|p|p] eqn:E.
  - replace (Z.max 0 (e - e')) with 0 by lia. simpl. lia.
  - replace (Z.max 0 (e - e')) with 0 by lia. simpl. lia.
  - rewrite iter_xO. replace (Z.max 0 (e - e')) with (Zpos p) by lia. lia.
Qed.

Lemma binary_round_not_nan (s : bool) (m : positive) (e : Z) :
  F64.is_nan (binary_round F64.prec F64.emax s m e) = false.
Proof.
  unfold binary_round. destruct (shl_align _ _ _) as [mz ez].
  apply binary_round_aux_not_nan. lia.
Qed.

Lemma binary_round_nonzero (s : bool) (m : positive) (e : Z) :
  -1074 <= e -> finite_or_inf s (binary_round F64.prec F64.emax s m e).
Proof.
  intros He. unfold binary_round.
  pose proof (shl_align_spec m e (fexp F64.prec F64.emax (Zpos (digits2_pos m) + e)))
    as H.
  destruct (shl_align _ _ _) as [mz ez]. destruct H as [_ ->].
  apply binary_round_aux_nonzero; [lia|].
  change (fexp F64.prec F64.emax) with fexp64. rewrite fexp64_eq. lia.
Qed.

Lemma binary_normalize_not_nan (z e : Z) (sz : bool) :
  F64.is_nan (binary_normalize F64.prec F64.emax z e sz) = false.
Proof.
  destruct z; simpl; auto using binary_round_not_nan.
Qed.

Lemma binary_normalize_nonzero (z e : Z) (sz : bool) :
  z <> 0 -> -1074 <= e ->
  exists s, finite_or_inf s (binary_normalize F64.prec F64.emax z e sz).
Proof.
  intros Hz He. destruct z as [|p|p]; [lia| |]; simpl.
  - exists false. apply binary_round_nonzero, He.
  - exists true. apply binary_round_nonzero, He.
Qed.

(** ** Differences of binary64 values *)

Lemma valid_finite (s : bool) (m : positive) (e : Z) :
  F64.valid (S754_finite s m e) = true ->
  fexp64 (Zpos (digits2_pos m) + e) = e /\ e <= 971.
Proof.
  unfold F64.valid, valid_binary, bounded, canonical_mantissa.
  intros H. apply andb_true_iff in H as [H1 H2].
  apply Z.eqb_eq in H1. apply Z.leb_le in H2.
  split; [exact H1 | exact H2].
Qed.

(** Two canonical mantissas that agree once aligned are the same. *)
Lemma canonical_aligned_inj (m1 m2 : positive) (e1 e2 : Z) :
  fexp64 (Zpos (digits2_pos m1) + e1) = e1 ->
  fexp64 (Zpos (digits2_pos m2) + e2) = e2 ->
  Zpos m1 * 2 ^ Z.max 0 (e1 - Z.min e1 e2)
  = Zpos m2 * 2 ^ Z.max 0 (e2 - Z.min e1 e2) ->
  m1 = m2 /\ e1 = e2.
Proof.
  intros C1 C2 H.
  assert (Hd : Zpos (digits2_pos m1) + e1 = Zpos (digits2_pos m2) + e2).
  { apply (f_equal Zdigits2) in H.
    rewrite !Zdigits2_shift in H by lia. simpl Zdigits2 in H. lia. }
  assert (He : e1 = e2) by congruence.
  subst e2. split; [|reflexivity].
  replace (Z.max 0 (e1 - Z.min e1 e1)) with 0 in H by lia.
  simpl in H. lia.
Qed.

Lemma sub_finite_distinct (s1 s2 : bool) (m1 m2 : positive) (e1 e2 : Z) :
  F64.valid (S754_finite s1 m1 e1) = true ->
  F64.valid (S754_finite s2 m2 e2) = true ->
  S754_finite s1 m1 e1 <> S754_finite s2 m2 e2 ->
  exists s,
    finite_or_inf s (F64.sub (S754_finite s1 m1 e1) (S754_finite s2 m2 e2)).
Proof.
  intros V1 V2 Hne.
  apply valid_finite in V1 as [C1 _]. apply valid_finite in V2 as [C2 _].
  unfold F64.sub, SFsub.
  pose proof (shl_align_spec m1 e1 (Z.min e1 e2)) as A1.
  pose proof (shl_align_spec m2 e2 (Z.min e1 e2)) as A2.
  destruct (shl_align m1 e1 (Z.min e1 e2)) as [m1' e1'].
  destruct (shl_align m2 e2 (Z.min e1 e2)) as [m2' e2'].
  destruct A1 as [A1 _]. destruct A2 as [A2 _]. simpl fst.
  apply binary_normalize_nonzero.
  - intros Hz.
    assert (Hs : s1 = s2).
    { destruct s1, s2; unfold cond_Zopp in Hz; try reflexivity; lia. }
    subst s2.
    assert (Heq : Zpos m1' = Zpos m2')
      by (destruct s1; unfold cond_Zopp in Hz; lia).
    rewrite A1, A2 in Heq.
    destruct (canonical_aligned_inj m1 m2 e1 e2 C1 C2 Heq) as [-> ->].
    apply Hne. reflexivity.
  - rewrite fexp64_eq in C1, C2. lia.
Qed.

Lemma eqb_true (a v : float) :
  F64.eqb a v = true ->
  F64.is_finite v = true ->
  (F64.is_zero a = true /\ F64.is_zero v = true) \/
  (a = v /\ F64.is_finite a = true).
Proof.
  unfold F64.eqb, SFeqb.
  destruct a as [sa|sa| |sa ma ea]; destruct v as [sv|sv| |sv mv ev];
    simpl; try discriminate; auto;
    try (destruct sa; discriminate); try (destruct sv; discriminate).
  destruct sa, sv; try discriminate;
    destruct (Z.compare_spec ea ev); try discriminate;
    change (Pos.compare_cont Eq ma mv) with (Pos.compare ma mv);
    destruct (Pos.compare_spec ma mv); try discriminate;
    subst; auto.
Qed.

Lemma eqb_refl_finite (s : bool) (m : positive) (e : Z) :
  F64.eqb (S754_finite s m e) (S754_finite s m e) = true.
Proof.
  unfold F64.eqb, SFeqb. simpl. rewrite Z.compare_refl.
  change (Pos.compare_cont Eq m m) with (Pos.compare m m).
  rewrite Pos.compare_refl. destruct s; reflexivity.
Qed.

(** The distance [|a - v|] the nearest-match search minimises. *)
Definition dist (v a : float) : float := F64.abs (F64.sub a v).

Lemma dist_eq (a v : float) :
  F64.eqb a v = true -> F64.is_finite v = true -> dist v a = F64.zero.
Proof.
  intros H Hv. unfold dist.
  destruct (eqb_true a v H Hv) as [[Ha Hz]|[-> Ha]].
  - destruct a as [sa| | |]; try discriminate.
    destruct v as [sv| | |]; try discriminate.
    destruct sa, sv; reflexivity.
  - rewrite sub_self by exact Ha. reflexivity.
Qed.

Lemma dist_not_nan (a v : float) :
  F64.is_nan a = false -> F64.is_finite v = true ->
  F64.is_nan (dist v a) = false.
Proof.
  intros Ha Hv. unfold dist.
  destruct a as [sa|sa| |sa ma ea]; try discriminate;
    destruct v as [sv|sv| |sv mv ev]; try discriminate;
    try reflexivity.
  - destruct sa, sv; reflexivity.
  - unfold F64.sub, SFsub.
    pose proof (binary_normalize_not_nan
      (cond_Zopp sa (Zpos (fst (shl_align ma ea (Z.min ea ev))))
       - cond_Zopp sv (Zpos (fst (shl_align mv ev (Z.min ea ev)))))
      (Z.min ea ev) false) as H.
    destruct (binary_normalize _ _ _ _ _); try discriminate; reflexivity.
Qed.

Lemma abs_nonneg (x : float) : F64.ltb (F64.abs x) F64.zero = false.
Proof.
  destruct x as [s|s| |s m e]; reflexivity.
Qed.

Lemma abs_finite_or_inf_pos (s : bool) (x : float) :
  finite_or_inf s x -> F64.ltb F64.zero (F64.abs x) = true.
Proof.
  destruct x as [s'|s'| |s' m e]; simpl; intros H; try contradiction;
    reflexivity.
Qed.

Lemma dist_pos (a v : float) :
  F64.valid a = true -> F64.valid v = true ->
  F64.is_nan a = false -> F64.is_finite v = true ->
  F64.eqb a v = false ->
  F64.ltb F64.zero (dist v a) = true.
Proof.
  intros Va Vv Ha Hv Hne. unfold dist.
  destruct a as [sa|sa| |sa ma ea]; try discriminate;
    destruct v as [sv|sv| |sv mv ev]; try discriminate;
    try reflexivity.
  - destruct (sub_finite_distinct sa sv ma mv ea ev Va Vv) as (s & Hs).
    + intros E. injection E as -> -> ->.
      rewrite eqb_refl_finite in Hne. discriminate.
    + apply (abs_finite_or_inf_pos s), Hs.
Qed.

(** ** C6: nearest-match resolution *)

Local Open Scope nat_scope.

Lemma dist_no_nan (axis : list float) (v : float) :
  no_nan axis -> F64.is_finite v = true -> no_nan (map (dist v) axis).
Proof.
  intros Hnan Hv. unfold no_nan in *. rewrite Forall_map.
  eapply Forall_impl; [|exact Hnan].
  intros a Ha. apply dist_not_nan; assumption.
Qed.

(** Nearest match picks a NaN when the axis holds one: the wavelength row
    [500, abc, 700] is read as [500, NaN, 700]; the requests 500 and 700
    are both present, yet both resolve to index 1, the NaN. *)
Lemma nearest_nan_counterexample :
  exists l,
    bleach_compute (numpy := Np.scalar_loop) grid_file_text_cell [F64.of_Z 500; F64.of_Z 700]
                   false false true F64.zero = Ok l /\
    wavelengths_ l = [F64.of_Z 500; F64.nan; F64.of_Z 700] /\
    nearest (wavelengths_ l) (F64.of_Z 500) = Ok 1 /\
    nearest (wavelengths_ l) (F64.of_Z 700) = Ok 1 /\
    wls_ l = [1; 1].
Proof.
  eexists. split; [vm_compute; reflexivity|].
  repeat split; vm_compute; reflexivity.
Qed.

Lemma nearest_first_least (axis : list float) (v : float) (j : nat) :
  no_nan axis -> F64.is_finite v = true ->
  nearest axis v = Ok j ->
  exists a,
    nth_error axis j = Some a /\
    (forall b, In b axis -> F64.leb (dist v a) (dist v b) = true) /\
    (forall k b, k < j -> nth_error axis k = Some b ->
                 F64.ltb (dist v a) (dist v b) = true) /\
    (Forall (fun x => F64.valid x = true) axis -> F64.valid v = true ->
     forall i b,
       nth_error axis i = Some b -> F64.eqb b v = true ->
       F64.eqb a v = true /\ j <= i /\
       (forall k c, k < j -> nth_error axis k = Some c ->
                    F64.eqb c v = false) /\
       ((forall k c, k < i -> nth_error axis k = Some c ->
                     F64.eqb c v = false) -> j = i)).
Proof.
  intros Hnan Hv Hj. unfold nearest in Hj.
  change (fun a => F64.abs (F64.sub a v)) with (dist v) in Hj.
  destruct (argmin_spec _ _ (dist_no_nan axis v Hnan Hv) Hj)
    as (y & Hy & Hmin & Hfirst).
  rewrite nth_error_map in Hy.
  destruct (nth_error axis j) as [a|] eqn:Ea; [|discriminate].
  injection Hy as <-. exists a. split; [reflexivity|].
  assert (Hle : forall b, In b axis -> F64.leb (dist v a) (dist v b) = true).
  { intros b Hb. apply Hmin, in_map, Hb. }
  assert (Hlt : forall k b, k < j -> nth_error axis k = Some b ->
                            F64.ltb (dist v a) (dist v b) = true).
  { intros k b Hk Hb. apply (Hfirst k); [exact Hk|].
    rewrite nth_error_map, Hb. reflexivity. }
  split; [exact Hle|]. split; [exact Hlt|].
  intros Hval Hvv i b Hb Hbv.
  pose proof (dist_eq b v Hbv Hv) as Hd0.
  assert (Ha : F64.is_nan a = false).
  { unfold no_nan in Hnan. rewrite Forall_forall in Hnan.
    eapply Hnan, nth_error_In, Ea. }
  assert (Hav : F64.eqb a v = true).
  { destruct (F64.eqb a v) eqn:E; [reflexivity|]. exfalso.
    rewrite Forall_forall in Hval.
    pose proof (dist_pos a v (Hval a (nth_error_In _ _ Ea)) Hvv Ha Hv E)
      as Hpos.
    pose proof (Hle b (nth_error_In _ _ Hb)) as Hle0. rewrite Hd0 in Hle0.
    rewrite (ltb_not_leb F64.zero (dist v a)) in Hle0;
      [discriminate|reflexivity| |exact Hpos].
    apply dist_not_nan; assumption. }
  assert (Hearlier : forall k c, k < j -> nth_error axis k = Some c ->
                                 F64.eqb c v = false).
  { intros k c Hk Hc. destruct (F64.eqb c v) eqn:E; [|reflexivity].
    pose proof (Hlt k c Hk Hc) as Hc'.
    rewrite (dist_eq c v E Hv) in Hc'.
    unfold dist in Hc'. rewrite abs_nonneg in Hc'. discriminate. }
  assert (Hji : j <= i).
  { destruct (Nat.le_gt_cases j i) as [|Hgt]; [assumption|].
    rewrite (Hearlier i b Hgt Hb) in Hbv. discriminate. }
  repeat split; auto.
  intros Hfirst_i.
  destruct (Nat.eq_dec j i) as [|Hneq]; [assumption|].
  assert (Hlt_i : j < i) by lia.
  rewrite (Hfirst_i j a Hlt_i Ea) in Hav. discriminate.
Qed.

(** C6, amended.  On a non-empty axis without NaN and for a finite request,
    [np.argmin(np.abs(axis - v))] returns an index of the axis; no entry is
    closer to the request than the entry there, and every earlier entry is
    strictly farther: among entries at equal least distance the lowest
    index is returned.  If the request is present in the axis, the entry at
    the returned index equals it, and no earlier entry does. *)
Theorem nearest_match_resolution (axis : list float) (v : float) :
  axis <> [] -> no_nan axis -> F64.is_finite v = true ->
  Forall (fun x => F64.valid x = true) axis -> F64.valid v = true ->
  exists j a,
    nearest axis v = Ok j /\
    nth_error axis j = Some a /\
    (forall b, In b axis -> F64.leb (dist v a) (dist v b) = true) /\
    (forall k b, k < j -> nth_error axis k = Some b ->
                 F64.ltb (dist v a) (dist v b) = true) /\
    (forall i b,
        nth_error axis i = Some b -> F64.eqb b v = true ->
        F64.eqb a v = true /\ j <= i /\
        forall k c, k < j -> nth_error axis k = Some c ->
                    F64.eqb c v = false).
Proof.
  intros Hne Hnan Hfin Hval Hv.
  destruct (nearest_Ok axis v Hne) as (j & Hj & _).
  destruct (nearest_first_least axis v j Hnan Hfin Hj)
    as (a & Ha & Hle & Hlt & Hexact).
  exists j, a. split; [exact Hj|]. split; [exact Ha|].
  split; [exact Hle|]. split; [exact Hlt|].
  intros i b Hb Hbv.
  destruct (Hexact Hval Hv i b Hb Hbv) as (H1 & H2 & H3 & _). auto.
Qed.

Lemma nearest_match_resolution_witness :
  exists a,
    nearest grid_wavelengths (F64.of_Z 600) = Ok 1 /\
    nth_error grid_wavelengths 1 = Some a /\
    F64.eqb a (F64.of_Z 600) = true.
Proof.
  destruct (nearest_match_resolution grid_wavelengths (F64.of_Z 600))
    as (j & a & Hj & Ha & _ & _ & Hexact).
  - discriminate.
  - repeat constructor.
  - reflexivity.
  - repeat constructor.
  - reflexivity.
  - assert (Ej : j = 1).
    { vm_compute in Hj. injection Hj as <-. reflexivity. }
    subst j. exists a. split; [exact Hj|]. split; [exact Ha|].
    apply (Hexact 1 (F64.of_Z 600)); vm_compute; reflexivity.
Defined.

Lemma bleach_wls_nearest {numpy : Np.build}
    fname wls normalise mOD from_max constant l n v j :
  bleach_compute fname wls normalise mOD from_max constant = Ok l ->
  nth_error wls n = Some v ->
  nth_error (wls_ l) n = Some j ->
  nearest (wavelengths_ l) v = Ok j.
Proof.
  intros H Hv Hj.
  apply bleach_compute_inv in H as (_ & Hidx & _).
  destruct (mapM_nth _ _ _ Hidx n v Hv) as (j' & Hj' & Hnear).
  congruence.
Qed.

(** ** What [max] returns *)

Lemma maximum_nan_l (y : float) : Np.maximum F64.nan y = F64.nan.
Proof. unfold Np.maximum. rewrite orb_true_r. reflexivity. Qed.

Lemma fold_maximum_nan (l : list float) :
  fold_left Np.maximum l F64.nan = F64.nan.
Proof.
  induction l as [|y l IH]; simpl; [reflexivity|].
  rewrite maximum_nan_l. exact IH.
Qed.

Lemma maximum_not_nan (x y : float) :
  F64.is_nan (Np.maximum x y) = false ->
  F64.is_nan x = false /\ F64.is_nan y = false.
Proof.
  unfold Np.maximum, F64.geb, F64.leb, SFleb.
  destruct x, y; simpl; intros H; try discriminate; auto.
Qed.

(** A maximum that is not NaN comes from data without NaN. *)
Lemma fold_maximum_no_nan (l : list float) :
  forall acc,
    F64.is_nan (fold_left Np.maximum l acc) = false ->
    no_nan (acc :: l).
Proof.
  induction l as [|y l IH]; simpl; intros acc H.
  - repeat constructor. exact H.
  - apply IH in H. inversion H as [|? ? Hm Hl]; subst.
    apply maximum_not_nan in Hm as [Hacc Hy].
    repeat constructor; assumption.
Qed.

(** On data without NaN the maximum is an entry no entry exceeds. *)
Lemma fold_maximum_spec (l : list float) :
  forall acc,
    no_nan (acc :: l) ->
    In (fold_left Np.maximum l acc) (acc :: l) /\
    forall x, In x (acc :: l) -> F64.leb x (fold_left Np.maximum l acc) = true.
Proof.
  induction l as [|y l IH]; intros acc Hnan.
  - simpl. split; [auto|]. intros x [<-|[]].
    apply leb_refl. inversion Hnan; assumption.
  - inversion Hnan as [|? ? Hacc Hrest]; subst.
    inversion Hrest as [|? ? Hy Hl]; subst.
    assert (Hmax : (Np.maximum acc y = acc /\ F64.leb y acc = true) \/
                   (Np.maximum acc y = y /\ F64.ltb acc y = true)).
    { unfold Np.maximum. rewrite Hacc, orb_false_r.
      destruct (F64.geb acc y) eqn:E; [left | right]; split; auto.
      apply geb_false_ltb; auto. }
    cbn [fold_left].
    destruct Hmax as [[-> Hyacc]|[-> Haccy]].
    + destruct (IH acc) as [Hin Hle]; [constructor; assumption|].
      assert (Hm : F64.is_nan (fold_left Np.maximum l acc) = false).
      { destruct Hin as [<-|Hin]; [assumption|].
        unfold no_nan in Hl. rewrite Forall_forall in Hl. auto. }
      split.
      { destruct Hin as [H|H]; [left; exact H | right; right; exact H]. }
      intros x [<-|[<-|Hx]].
      * apply Hle. left. reflexivity.
      * apply (leb_trans _ acc); auto. apply Hle. left. reflexivity.
      * apply Hle. right. exact Hx.
    + destruct (IH y) as [Hin Hle]; [constructor; assumption|].
      assert (Hm : F64.is_nan (fold_left Np.maximum l y) = false).
      { destruct Hin as [<-|Hin]; [assumption|].
        unfold no_nan in Hl. rewrite Forall_forall in Hl. auto. }
      split.
      { right. exact Hin. }
      intros x [<-|[<-|Hx]].
      * apply (leb_trans _ y); auto.
        -- apply ltb_leb; auto.
        -- apply Hle. left. reflexivity.
      * apply Hle. left. reflexivity.
      * apply Hle. right. exact Hx.
Qed.

Lemma has_zero_In (s : bool) (a : list float) :
  Np.has_zero s a = true -> In (S754_zero s) a.
Proof.
  unfold Np.has_zero. intros H.
  apply existsb_exists in H as (x & Hin & Hx).
  destruct x as [s'| | |]; try discriminate.
  apply Bool.eqb_prop in Hx. subst. exact Hin.
Qed.

Lemma leb_zero_r (x : float) (s s' : bool) :
  F64.leb x (S754_zero s) = F64.leb x (S754_zero s').
Proof. destruct x as [sx|sx| |sx mx ex]; try destruct sx; reflexivity. Qed.

Lemma leb_zero_l (x : float) (s s' : bool) :
  F64.leb (S754_zero s) x = F64.leb (S754_zero s') x.
Proof. destruct x as [sx|sx| |sx mx ex]; try destruct sx; reflexivity. Qed.

(** The maximum is what the comparisons give, but for the sign of a zero,
    which is that of a zero of the data. *)
Lemma max_cases {numpy : Np.build} (x : float) (l : list float) :
  exists m,
    Np.max (x :: l) = Ok m /\
    (m = fold_left Np.maximum l x \/
     exists s s',
       fold_left Np.maximum l x = S754_zero s /\ m = S754_zero s' /\
       In m (x :: l)).
Proof.
  unfold Np.max.
  destruct (F64.is_zero (fold_left Np.maximum l x)
            && Np.has_zero true (x :: l)
            && Np.has_zero false (x :: l)) eqn:E.
  - eexists. split; [reflexivity|]. right.
    apply andb_true_iff in E as [E Hf]. apply andb_true_iff in E as [Hz Ht].
    destruct (fold_left Np.maximum l x) as [s| | |]; try discriminate.
    exists s, (Np.zero_tie (x :: l)). repeat split.
    destruct (Np.zero_tie (x :: l)); apply has_zero_In; assumption.
  - eexists. split; [reflexivity|]. left. reflexivity.
Qed.

Lemma max_spec {numpy : Np.build} (a : list float) (m : float) :
  Np.max a = Ok m -> F64.is_nan m = false ->
  no_nan a /\ In m a /\ forall x, In x a -> F64.leb x m = true.
Proof.
  destruct a as [|x l]; [discriminate|]. intros H Hm.
  destruct (max_cases x l) as (m' & Hm' & Hc).
  rewrite Hm' in H. injection H as ->.
  assert (Hf : F64.is_nan (fold_left Np.maximum l x) = false).
  { destruct Hc as [<-|(s & s' & -> & _)]; [exact Hm | reflexivity]. }
  pose proof (fold_maximum_no_nan l x Hf) as Hnan.
  destruct (fold_maximum_spec l x Hnan) as [Hin Hle].
  destruct Hc as [->|(s & s' & Ef & -> & Hin')]; [auto|].
  repeat split; auto.
  intros y Hy. rewrite (leb_zero_r y s' s), <- Ef. auto.
Qed.

(** An entry bounding data without NaN from above is their maximum, up to
    comparing equal. *)
Lemma max_of_bounded {numpy : Np.build} (a : list float) (b : float) :
  no_nan a -> In b a -> (forall x, In x a -> F64.leb x b = true) ->
  exists m, Np.max a = Ok m /\ F64.leb m b = true /\ F64.leb b m = true.
Proof.
  intros Hnan Hb Hle. destruct a as [|x l]; [destruct Hb|].
  destruct (max_cases x l) as (m & Hm & Hc).
  exists m. split; [exact Hm|].
  destruct (fold_maximum_spec l x Hnan) as [Hin Hmax].
  destruct Hc as [->|(s & s' & Ef & -> & _)]; [auto|].
  rewrite (leb_zero_l b s' s), (leb_zero_r b s' s), <- Ef. auto.
Qed.

Lemma leb_antisym_one (m : float) :
  F64.leb m F64.one = true -> F64.leb F64.one m = true -> m = F64.one.
Proof.
  intros H1 H2.
  assert (Hm : F64.is_nan m = false).
  { destruct m; try reflexivity. vm_compute in H1. discriminate. }
  apply (leb_key m F64.one Hm eq_refl) in H1.
  apply (leb_key F64.one m eq_refl Hm) in H2.
  unfold key_le, F64.one in H1, H2.
  destruct m as [s|s| |s mm e]; try discriminate;
    try destruct s; cbn [key] in H1, H2; try lia.
  assert (He : e = (-52)%Z) by lia.
  assert (Hmm : mm = 4503599627370496%positive) by lia.
  subst. reflexivity.
Qed.

(** ** Quotients of binary64 values *)

Local Open Scope Z_scope.

Lemma div_eucl_div_mod (a b : Z) : Z.div_eucl a b = (a / b, a mod b).
Proof.
  unfold Z.div, Z.modulo. destruct (Z.div_eucl a b). reflexivity.
Qed.

Lemma new_location_zero (n : Z) : new_location n 0 = loc_Exact.
Proof.
  unfold new_location, new_location_even, new_location_odd.
  destruct (Z.even n); reflexivity.
Qed.

(** The truncated quotient [SFdiv] hands to the rounding step. *)
Lemma div_core_spec (m1 m2 : positive) (e1 e2 : Z) :
  let e' := Z.min (fexp64 (Zdigits2 (Zpos m1) + e1 - (Zdigits2 (Zpos m2) + e2)))
                  (e1 - e2) in
  let q := Zpos m1 * 2 ^ (e1 - e2 - e') / Zpos m2 in
  exists l,
    SFdiv_core_binary F64.prec F64.emax (Zpos m1) e1 (Zpos m2) e2 = (q, e', l) /\
    ((Zpos m1 * 2 ^ (e1 - e2 - e')) mod Zpos m2 = 0 -> l = loc_Exact).
Proof.
  intros e' q. unfold SFdiv_core_binary. cbv zeta.
  change (fexp F64.prec F64.emax) with fexp64. fold e'.
  assert (Hs : 0 <= e1 - e2 - e') by (unfold e'; lia).
  assert (Hm : match e1 - e2 - e' with
               | Z0 => Zpos m1
               | Zpos _ => Z.shiftl (Zpos m1) (e1 - e2 - e')
               | Zneg _ => 0
               end = Zpos m1 * 2 ^ (e1 - e2 - e')).
  { destruct (e1 - e2 - e') as [|p|p] eqn:E; try lia.
    apply Z.shiftl_mul_pow2. lia. }
  rewrite Hm, div_eucl_div_mod. fold q.
  eexists. split; [reflexivity|].
  intros ->. apply new_location_zero.
Qed.

Lemma div_finite_spec (sx sy : bool) (mx my : positive) (ex ey : Z) :
  let e' := Z.min (fexp64 (Zdigits2 (Zpos mx) + ex - (Zdigits2 (Zpos my) + ey)))
                  (ex - ey) in
  let q := Zpos mx * 2 ^ (ex - ey - e') / Zpos my in
  exists l,
    F64.div (S754_finite sx mx ex) (S754_finite sy my ey)
    = binary_round_aux F64.prec F64.emax (xorb sx sy) q e' l /\
    ((Zpos mx * 2 ^ (ex - ey - e')) mod Zpos my = 0 -> l = loc_Exact).
Proof.
  intros e' q. destruct (div_core_spec mx my ex ey) as (l & Hcore & Hl).
  exists l. split; [|exact Hl].
  unfold F64.div, SFdiv. rewrite Hcore. reflexivity.
Qed.

(** A finite non-zero value divided by itself is exactly 1. *)
Lemma div_self (s : bool) (m : positive) (e : Z) :
  F64.div (S754_finite s m e) (S754_finite s m e) = F64.one.
Proof.
  destruct (div_finite_spec s s m m e e) as (l & -> & Hl).
  replace (Zdigits2 (Zpos m) + e - (Zdigits2 (Zpos m) + e)) with 0 in * by lia.
  replace (e - e) with 0 in * by lia.
  change (Z.min (fexp64 0) 0) with (-53) in *.
  change (0 - -53) with 53 in *.
  rewrite Hl by (rewrite Z.mul_comm; apply Z.mod_mul; lia).
  replace (Zpos m * 2 ^ 53 / Zpos m) with (2 ^ 53)
    by (rewrite Z.mul_comm, Z.div_mul; lia).
  rewrite xorb_nilpotent. vm_compute. reflexivity.
Qed.

(** What rounding returns carries the sign it was given. *)
Lemma binary_round_aux_sign (s : bool) (m e : Z) (l : location) :
  0 <= m ->
  match binary_round_aux F64.prec F64.emax s m e l with
  | S754_zero s' | S754_infinity s' | S754_finite s' _ _ => s' = s
  | S754_nan => False
  end.
Proof.
  intros Hm. pose proof (binary_round_aux_not_nan s m e l Hm) as Hnan.
  destruct (binary_round_aux_spec s m e l Hm) as (m2 & H).
  cbv zeta in H. destruct H as (_ & _ & E). rewrite E in *.
  destruct (m2 / _) as [|p|p]; simpl in *; try discriminate; auto.
  destruct (_ <=? _); reflexivity.
Qed.

Lemma negative_leb_one (x : float) :
  match x with
  | S754_zero s | S754_infinity s | S754_finite s _ _ => s = true
  | S754_nan => False
  end ->
  F64.leb x F64.one = true.
Proof.
  destruct x as [s|s| |s m e]; intros H; try contradiction; subst;
    reflexivity.
Qed.

(** A value below 1, given with at least 53 fractional bits, rounds to at
    most 1. *)
Lemma round_below_one (q N : Z) (l : location) :
  0 <= q < 2 ^ N -> 53 <= N ->
  F64.leb (binary_round_aux F64.prec F64.emax false q (- N) l) F64.one = true.
Proof.
  intros [Hq0 Hq] HN.
  destruct (binary_round_aux_spec false q (- N) l Hq0) as (m2 & H).
  cbv zeta in H. destruct H as (Hb & _ & ->).
  set (n1 := Z.max 0 (fexp64 (Zdigits2 q + - N) - - N)) in *.
  assert (Hdq : Zdigits2 q <= N).
  { destruct (Z.eq_dec q 0) as [->|Hne]; [simpl; lia|].
    pose proof (Zdigits2_bounds q ltac:(lia)) as [Hlo _].
    assert (Zdigits2 q - 1 < N); [|lia].
    apply (Z.pow_lt_mono_r_iff 2); lia. }
  assert (Hn1 : 0 <= n1 <= N - 53).
  { unfold n1. rewrite fexp64_eq. lia. }
  assert (Hm1 : 0 <= q / 2 ^ n1 < 2 ^ (N - n1)).
  { split.
    - apply Z.div_pos; [lia|]. apply Z.pow_pos_nonneg; lia.
    - apply Z.div_lt_upper_bound; [apply Z.pow_pos_nonneg; lia|].
      rewrite <- Z.pow_add_r by lia. replace (n1 + (N - n1)) with N by lia.
      exact Hq. }
  set (e1 := - N + n1) in *.
  assert (He1 : e1 <= -53) by (unfold e1; lia).
  assert (Hm2 : 0 <= m2 <= 2 ^ (- e1)).
  { replace (- e1) with (N - n1) by (unfold e1; lia). lia. }
  assert (Hd2 : Zdigits2 m2 <= - e1 + 1).
  { destruct (Z.eq_dec m2 0) as [->|Hne]; [simpl; lia|].
    pose proof (Zdigits2_bounds m2 ltac:(lia)) as [Hlo _].
    assert (Zdigits2 m2 - 1 <= - e1); [|lia].
    apply (Z.pow_le_mono_r_iff 2); lia. }
  set (n2 := Z.max 0 (fexp64 (Zdigits2 m2 + e1) - e1)).
  assert (Hn2 : 0 <= n2 /\ e1 + n2 <= -52 /\ n2 <= - e1).
  { unfold n2. rewrite fexp64_eq. lia. }
  assert (Hm3 : m2 / 2 ^ n2 <= 2 ^ (- (e1 + n2))).
  { apply Z.div_le_upper_bound; [apply Z.pow_pos_nonneg; lia|].
    rewrite <- Z.pow_add_r by lia.
    replace (n2 + - (e1 + n2)) with (- e1) by lia. lia. }
  assert (Hm3' : 0 <= m2 / 2 ^ n2).
  { apply Z.div_pos; [lia|]. apply Z.pow_pos_nonneg; lia. }
  destruct (m2 / 2 ^ n2) as [|p|p] eqn:E3; [reflexivity| |lia].
  replace (e1 + n2 <=? 971) with true by (symmetry; apply Z.leb_le; lia).
  apply (leb_key (S754_finite false p (e1 + n2)) F64.one eq_refl eq_refl).
  unfold key_le, F64.one. cbn [key].
  destruct (Z.eq_dec (e1 + n2) (-52)) as [E|E]; [|lia].
  rewrite E in *. change (2 ^ (- -52)) with 4503599627370496 in Hm3. lia.
Qed.

Lemma canonical_digits (m : positive) (e : Z) :
  fexp64 (Zpos (digits2_pos m) + e) = e ->
  -1074 <= e /\ Zpos (digits2_pos m) <= 53 /\
  (-1074 < e -> Zpos (digits2_pos m) = 53).
Proof.
  rewrite fexp64_eq. lia.
Qed.

(** The order of two positive canonical floats, on their mantissas. *)
Lemma leb_finite_value (mx my : positive) (ex ey : Z) :
  F64.valid (S754_finite false mx ex) = true ->
  F64.valid (S754_finite false my ey) = true ->
  F64.leb (S754_finite false mx ex) (S754_finite false my ey) = true ->
  S754_finite false mx ex <> S754_finite false my ey ->
  ex <= ey /\ Zpos mx < Zpos my * 2 ^ (ey - ex).
Proof.
  intros Vx Vy Hle Hne.
  apply valid_finite in Vx as [Cx _]. apply valid_finite in Vy as [Cy _].
  apply canonical_digits in Cx as (Hex & Hdx & _).
  apply canonical_digits in Cy as (Hey & _ & Hdy).
  apply (leb_key (S754_finite false mx ex) (S754_finite false my ey)
           eq_refl eq_refl) in Hle.
  unfold key_le in Hle. cbn [key] in Hle.
  destruct (Z.eq_dec ex ey) as [->|Hk].
  - split; [lia|]. rewrite Z.sub_diag. simpl.
    assert (Zpos mx <> Zpos my) by congruence. lia.
  - split; [lia|].
    pose proof (digits2_bounds mx) as [_ Hx].
    pose proof (digits2_bounds my) as [Hy _].
    rewrite Hdy in Hy by lia. change (2 ^ (53 - 1)) with 4503599627370496 in Hy.
    assert (Hx' : Zpos mx < 2 ^ 53).
    { eapply Z.lt_le_trans; [exact Hx|]. apply Z.pow_le_mono_r; lia. }
    change (2 ^ 53) with 9007199254740992 in Hx'.
    assert (Hk2 : 2 ^ 1 <= 2 ^ (ey - ex)) by (apply Z.pow_le_mono_r; lia).
    change (2 ^ 1) with 2 in Hk2. nia.
Qed.

Lemma finite_eq_dec (m1 m2 : positive) (e1 e2 : Z) :
  (m1 = m2 /\ e1 = e2) \/ ~ (m1 = m2 /\ e1 = e2).
Proof.
  destruct (Pos.eq_dec m1 m2), (Z.eq_dec e1 e2); tauto.
Qed.

(** Dividing by a positive finite value at least as large gives at most 1. *)
Lemma div_le_one (x m : float) :
  F64.valid x = true -> F64.valid m = true ->
  F64.is_finite m = true -> F64.ltb F64.zero m = true ->
  F64.leb x m = true ->
  F64.leb (F64.div x m) F64.one = true.
Proof.
  intros Vx Vm Hfin Hpos Hle.
  destruct m as [sm|sm| |sm mm em]; try discriminate.
  destruct sm; [discriminate|].
  destruct x as [sx|sx| |sx mx ex]; try discriminate.
  - destruct sx; reflexivity.
  - destruct sx; [reflexivity | discriminate].
  - destruct sx.
    + destruct (div_finite_spec true false mx mm ex em) as (l & -> & _).
      apply negative_leb_one. simpl xorb.
      pose proof (binary_round_aux_sign true
        (Zpos mx * 2 ^ (ex - em - Z.min (fexp64 (Zdigits2 (Zpos mx) + ex
            - (Zdigits2 (Zpos mm) + em))) (ex - em)) / Zpos mm)
        (Z.min (fexp64 (Zdigits2 (Zpos mx) + ex - (Zdigits2 (Zpos mm) + em)))
               (ex - em)) l) as Hs.
      destruct (binary_round_aux _ _ _ _ _ _); apply Hs;
        (apply Z.div_pos; [|lia]);
        (apply Z.mul_nonneg_nonneg; [lia|]);
        apply Z.pow_nonneg; lia.
    + destruct (finite_eq_dec mx mm ex em) as [[-> ->]|Hne].
      * rewrite div_self. reflexivity.
      * destruct (leb_finite_value mx mm ex em Vx Vm Hle) as [Hk HV].
        { intros E. injection E as -> ->. apply Hne. auto. }
        destruct (div_finite_spec false false mx mm ex em) as (l & -> & _).
        simpl xorb.
        pose proof (digits2_bounds mx) as [Hxlo _].
        pose proof (digits2_bounds mm) as [_ Hmhi].
        set (D := Zdigits2 (Zpos mx) + ex - (Zdigits2 (Zpos mm) + em)).
        assert (HD : D <= 0).
        { unfold D. simpl Zdigits2.
          assert (Hlt : 2 ^ (Zpos (digits2_pos mx) - 1)
                        < 2 ^ (Zpos (digits2_pos mm) + (em - ex))).
          { rewrite Z.pow_add_r by lia.
            pose proof (Z.pow_pos_nonneg 2 (em - ex)). nia. }
          apply Z.pow_lt_mono_r_iff in Hlt; lia. }
        set (e' := Z.min (fexp64 D) (ex - em)).
        assert (He' : e' <= -53 /\ e' <= ex - em).
        { unfold e'. rewrite fexp64_eq. lia. }
        replace e' with (- (- e')) at 2 by lia.
        apply round_below_one; [|lia].
        split.
        { apply Z.div_pos; [|lia]. apply Z.mul_nonneg_nonneg; [lia|].
          apply Z.pow_nonneg; lia. }
        apply Z.div_lt_upper_bound; [lia|].
        replace (- e') with ((em - ex) + (ex - em - e')) by lia.
        rewrite Z.pow_add_r by lia.
        pose proof (Z.pow_pos_nonneg 2 (ex - em - e')). nia.
Qed.

(** ** Arithmetic returns well-formed binary64 values *)

Lemma fexp64_mono (a b : Z) : a <= b -> fexp64 a <= fexp64 b.
Proof. rewrite !fexp64_eq. lia. Qed.

Lemma Zdigits2_nonneg (m : Z) : 0 <= Zdigits2 m.
Proof. destruct m; simpl; lia. Qed.

Lemma Zdigits2_mono (a b : Z) : 0 <= a <= b -> Zdigits2 a <= Zdigits2 b.
Proof.
  intros [Ha Hab]. destruct (Z.eq_dec a 0) as [->|Hne].
  - apply Zdigits2_nonneg.
  - pose proof (Zdigits2_bounds a ltac:(lia)) as [Hlo _].
    pose proof (Zdigits2_bounds b ltac:(lia)) as [_ Hhi].
    assert (Zdigits2 a - 1 < Zdigits2 b); [|lia].
    apply (Z.pow_lt_mono_r_iff 2); [lia| |lia].
    apply Zdigits2_nonneg.
Qed.

Lemma Zdigits2_ge (q k : Z) : 0 <= k -> 2 ^ k <= q -> k + 1 <= Zdigits2 q.
Proof.
  intros Hk Hq.
  pose proof (Z.pow_pos_nonneg 2 k).
  pose proof (Zdigits2_bounds q ltac:(lia)) as [_ Hhi].
  assert (k < Zdigits2 q); [|lia].
  apply (Z.pow_lt_mono_r_iff 2); [lia|apply Zdigits2_nonneg|lia].
Qed.

Lemma Zdigits2_div_pow (m n : Z) :
  0 < m -> 0 <= n < Zdigits2 m -> Zdigits2 (m / 2 ^ n) = Zdigits2 m - n.
Proof.
  intros Hm Hn.
  pose proof (Zdigits2_bounds m Hm) as [Hlo Hhi].
  pose proof (Z.pow_pos_nonneg 2 n).
  apply Zdigits2_unique; [|lia]. split.
  - apply Z.div_le_lower_bound; [lia|].
    rewrite <- Z.pow_add_r by lia.
    replace (n + (Zdigits2 m - n - 1)) with (Zdigits2 m - 1) by lia. lia.
  - apply Z.div_lt_upper_bound; [lia|].
    rewrite <- Z.pow_add_r by lia.
    replace (n + (Zdigits2 m - n)) with (Zdigits2 m) by lia. lia.
Qed.

Lemma div_pow_zero (m n : Z) :
  0 <= m -> 0 <= n -> m / 2 ^ n = 0 -> Zdigits2 m <= n.
Proof.
  intros Hm Hn H. destruct (Z.eq_dec m 0) as [->|Hne]; [simpl; lia|].
  pose proof (Zdigits2_bounds m ltac:(lia)) as [Hlo _].
  pose proof (Z.pow_pos_nonneg 2 n).
  assert (Hlt : m < 2 ^ n).
  { destruct (Z.lt_ge_cases m (2 ^ n)) as [|Hge]; [assumption|].
    assert (0 < m / 2 ^ n) by (apply Z.div_str_pos; lia). lia. }
  assert (Zdigits2 m - 1 < n); [|lia].
  apply (Z.pow_lt_mono_r_iff 2); lia.
Qed.

(** An aligned mantissa that is not shifted away is canonical after the
    shift. *)
Lemma aligned_canonical (m e : Z) :
  0 <= m ->
  let n := Z.max 0 (fexp64 (Zdigits2 m + e) - e) in
  0 < m / 2 ^ n -> 0 < n ->
  fexp64 (Zdigits2 (m / 2 ^ n) + (e + n)) = e + n.
Proof.
  intros Hm n Hpos Hn.
  assert (Hm' : 0 < m).
  { destruct (Z.eq_dec m 0) as [->|]; [|lia].
    rewrite Z.div_0_l in Hpos; [lia|].
    pose proof (Z.pow_pos_nonneg 2 n). lia. }
  assert (Hlt : n < Zdigits2 m).
  { destruct (Z.lt_ge_cases n (Zdigits2 m)) as [|Hge]; [assumption|].
    pose proof (Zdigits2_bounds m Hm') as [_ Hhi].
    assert (2 ^ Zdigits2 m <= 2 ^ n) by (apply Z.pow_le_mono_r; lia).
    rewrite Z.div_small in Hpos; lia. }
  rewrite Zdigits2_div_pow by lia.
  replace (Zdigits2 m - n + (e + n)) with (Zdigits2 m + e) by lia.
  unfold n in *. lia.
Qed.

(** Rounding a value given with enough bits returns a well-formed float. *)
Lemma binary_round_aux_valid (s : bool) (m e : Z) (l : location) :
  0 <= m -> e <= fexp64 (Zdigits2 m + e) ->
  F64.valid (binary_round_aux F64.prec F64.emax s m e l) = true.
Proof.
  intros Hm Hpre.
  destruct (binary_round_aux_spec s m e l Hm) as (m2 & H).
  cbv zeta in H. destruct H as (Hb & _ & ->).
  set (n1 := Z.max 0 (fexp64 (Zdigits2 m + e) - e)) in *.
  set (e1 := e + n1) in *.
  assert (He1 : e1 = fexp64 (Zdigits2 m + e)) by (unfold e1, n1; lia).
  assert (Hm1 : 0 <= m / 2 ^ n1).
  { apply Z.div_pos; [lia|]. apply Z.pow_pos_nonneg; lia. }
  (* the exponent after the first alignment suits every mantissa from the
     aligned one upwards *)
  assert (Hcan1 : 0 < m2 -> e1 <= fexp64 (Zdigits2 m2 + e1)).
  { intros Hm2.
    destruct (Z.eq_dec (m / 2 ^ n1) 0) as [Hz|Hnz].
    - apply div_pow_zero in Hz; [|lia|unfold n1; lia].
      assert (e1 = -1074).
      { rewrite He1. rewrite fexp64_eq in *. unfold n1 in Hz.
        rewrite fexp64_eq in Hz. lia. }
      rewrite fexp64_eq. lia.
    - destruct (Z.eq_dec n1 0) as [Hn0|Hn0].
      + rewrite Hn0 in *. simpl in Hb. rewrite Z.div_1_r in Hb.
        etransitivity; [|apply fexp64_mono].
        * rewrite He1. apply Z.le_refl.
        * unfold e1. rewrite Hn0.
          pose proof (Zdigits2_mono m m2 ltac:(lia)). lia.
      + pose proof (aligned_canonical m e Hm ltac:(fold n1; lia)
                      ltac:(fold n1; unfold n1 in *; lia)) as Hc.
        fold n1 in Hc. fold e1 in Hc.
        rewrite <- Hc at 1. apply fexp64_mono.
        pose proof (Zdigits2_mono (m / 2 ^ n1) m2 ltac:(lia)). lia. }
  set (n2 := Z.max 0 (fexp64 (Zdigits2 m2 + e1) - e1)).
  destruct (m2 / 2 ^ n2) as [|p|p] eqn:E3; try reflexivity.
  destruct (e1 + n2 <=? 971) eqn:Ele; [|reflexivity].
  unfold F64.valid, valid_binary, bounded, canonical_mantissa.
  change (F64.emax - F64.prec) with 971.
  rewrite Ele, andb_true_r. apply Z.eqb_eq.
  change (fexp F64.prec F64.emax) with fexp64.
  change (Zpos (digits2_pos p)) with (Zdigits2 (Zpos p)). rewrite <- E3.
  assert (Hm2 : 0 < m2).
  { destruct (Z.eq_dec m2 0) as [->|]; [|lia].
    rewrite Z.div_0_l in E3; [lia|].
    pose proof (Z.pow_pos_nonneg 2 n2). unfold n2 in *. lia. }
  destruct (Z.eq_dec n2 0) as [Hn0|Hn0].
  - rewrite Hn0. simpl. rewrite Z.div_1_r, Z.add_0_r.
    specialize (Hcan1 Hm2). unfold n2 in Hn0. lia.
  - apply (aligned_canonical m2 e1); fold n2; unfold n2 in *; lia.
Qed.

Lemma quotient_digits (m1 m2 : positive) (s : Z) :
  0 <= s ->
  Zdigits2 (Zpos m1) + s - Zdigits2 (Zpos m2)
  <= Zdigits2 (Zpos m1 * 2 ^ s / Zpos m2).
Proof.
  intros Hs.
  set (k := Zdigits2 (Zpos m1) + s - Zdigits2 (Zpos m2) - 1).
  destruct (Z.lt_ge_cases k 0) as [Hneg|Hk].
  - pose proof (Zdigits2_nonneg (Zpos m1 * 2 ^ s / Zpos m2)). lia.
  - assert (k + 1 <= Zdigits2 (Zpos m1 * 2 ^ s / Zpos m2)); [|lia].
    apply Zdigits2_ge; [exact Hk|].
    pose proof (Zdigits2_bounds (Zpos m1) ltac:(lia)) as [Hlo _].
    pose proof (Zdigits2_bounds (Zpos m2) ltac:(lia)) as [_ Hhi].
    apply Z.div_le_lower_bound; [lia|].
    assert (E : 2 ^ (Zdigits2 (Zpos m1) - 1) * 2 ^ s
                = 2 ^ Zdigits2 (Zpos m2) * 2 ^ k).
    { rewrite <- !Z.pow_add_r; try (simpl Zdigits2; lia).
      f_equal. unfold k. lia. }
    pose proof (Z.pow_pos_nonneg 2 s). pose proof (Z.pow_pos_nonneg 2 k).
    nia.
Qed.

Lemma div_valid (x y : float) : F64.valid (F64.div x y) = true.
Proof.
  destruct x as [sx|sx| |sx mx ex]; destruct y as [sy|sy| |sy my ey];
    try reflexivity.
  destruct (div_finite_spec sx sy mx my ex ey) as (l & -> & _).
  set (D := Zdigits2 (Zpos mx) + ex - (Zdigits2 (Zpos my) + ey)).
  set (e' := Z.min (fexp64 D) (ex - ey)).
  assert (Hs : 0 <= ex - ey - e') by (unfold e'; lia).
  apply binary_round_aux_valid.
  - apply Z.div_pos; [|lia]. apply Z.mul_nonneg_nonneg; [lia|].
    apply Z.pow_nonneg; lia.
  - pose proof (quotient_digits mx my (ex - ey - e') Hs) as Hq.
    etransitivity; [apply Z.le_min_l|]. fold e'.
    apply fexp64_mono. unfold D. lia.
Qed.

Lemma mul_valid (x y : float) :
  F64.valid x = true -> F64.valid y = true -> F64.valid (F64.mul x y) = true.
Proof.
  intros Vx Vy.
  destruct x as [sx|sx| |sx mx ex]; destruct y as [sy|sy| |sy my ey];
    try reflexivity.
  apply valid_finite in Vx as [Cx _]. apply valid_finite in Vy as [Cy _].
  unfold F64.mul, SFmul. apply binary_round_aux_valid; [lia|].
  pose proof (digits2_bounds mx) as [Hx _].
  pose proof (digits2_bounds my) as [Hy _].
  assert (Hd : Zpos (digits2_pos mx) + Zpos (digits2_pos my) - 1
               <= Zdigits2 (Zpos (mx * my))).
  { replace (Zpos (digits2_pos mx) + Zpos (digits2_pos my) - 1)
      with ((Zpos (digits2_pos mx) - 1 + (Zpos (digits2_pos my) - 1)) + 1)
      by lia.
    apply Zdigits2_ge; [lia|].
    rewrite Z.pow_add_r, Pos2Z.inj_mul by lia. nia. }
  rewrite fexp64_eq in *. lia.
Qed.

Lemma binary_round_valid (s : bool) (m : positive) (e : Z) :
  F64.valid (binary_round F64.prec F64.emax s m e) = true.
Proof.
  unfold binary_round.
  pose proof (shl_align_spec m e (fexp F64.prec F64.emax (Zpos (digits2_pos m) + e)))
    as H.
  change (fexp F64.prec F64.emax) with fexp64 in *.
  destruct (shl_align _ _ _) as [mz ez]. destruct H as [Hm ->].
  apply binary_round_aux_valid; [lia|].
  rewrite Hm, Zdigits2_shift by lia. simpl Zdigits2.
  set (f := fexp64 (Zpos (digits2_pos m) + e)) in *.
  destruct (Z.le_gt_cases e f) as [Hle|Hgt].
  - replace (Z.max 0 (e - f)) with 0 by lia.
    replace (Z.min e f) with e by lia. rewrite Z.add_0_r. exact Hle.
  - replace (Z.max 0 (e - f)) with (e - f) by lia.
    replace (Z.min e f) with f by lia.
    replace (Zpos (digits2_pos m) + (e - f) + f)
      with (Zpos (digits2_pos m) + e) by lia.
    apply Z.le_refl.
Qed.

Lemma binary_normalize_valid (z e : Z) (sz : bool) :
  F64.valid (binary_normalize F64.prec F64.emax z e sz) = true.
Proof.
  destruct z; simpl; auto using binary_round_valid.
Qed.

Lemma add_valid (x y : float) :
  F64.valid x = true -> F64.valid y = true -> F64.valid (F64.add x y) = true.
Proof.
  intros Vx Vy.
  destruct x as [sx|sx| |sx mx ex]; destruct y as [sy|sy| |sy my ey];
    try reflexivity; try assumption;
    try (destruct sx, sy; reflexivity).
  apply binary_normalize_valid.
Qed.

Lemma sub_valid (x y : float) :
  F64.valid x = true -> F64.valid y = true -> F64.valid (F64.sub x y) = true.
Proof.
  intros Vx Vy.
  destruct x as [sx|sx| |sx mx ex]; destruct y as [sy|sy| |sy my ey];
    try reflexivity; try assumption;
    try (destruct sx, sy; reflexivity).
  apply binary_normalize_valid.
Qed.

(** Every signal [plot_bleach] computes holds well-formed floats. *)
Lemma bleach_signals_valid {numpy : Np.build} fname wls normalise mOD from_max constant l :
  bleach_compute fname wls normalise mOD from_max constant = Ok l ->
  F64.valid constant = true ->
  Forall (fun x => F64.valid x = true) (signal_mean l) /\
  Forall (fun x => F64.valid x = true) (signal_unit l) /\
  Forall (fun x => F64.valid x = true) (signal_cut l) /\
  Forall (fun x => F64.valid x = true) (signal_norm l).
Proof.
  intros H Vc.
  apply bleach_compute_inv in H
    as (_ & _ & lo & hi & _ & _ & Hmean & _ & Hunit & Hcut & Hnorm).
  assert (V1 : Forall (fun x => F64.valid x = true) (signal_mean l)).
  { rewrite Hmean. unfold window_mean. rewrite Forall_map.
    apply Forall_forall. intros row _. apply div_valid. }
  assert (V2 : Forall (fun x => F64.valid x = true) (signal_unit l)).
  { rewrite Hunit. unfold unit_transform.
    destruct (negb mOD); rewrite Forall_map;
      (eapply Forall_impl; [|exact V1]); intros x Vx; cbv beta in *.
    - apply add_valid; [|exact Vc]. apply mul_valid; [reflexivity | exact Vx].
    - apply sub_valid; assumption. }
  assert (V3 : Forall (fun x => F64.valid x = true) (signal_cut l)).
  { destruct from_max.
    - destruct Hcut as (t0 & _ & _ & ->).
      apply Forall_forall. intros x Hx.
      rewrite Forall_forall in V2. apply V2.
      rewrite <- (firstn_skipn (signal_max l)). apply in_or_app. right. exact Hx.
    - destruct Hcut as (_ & ->). exact V2. }
  repeat split; auto.
  destruct normalise.
  - destruct Hnorm as (m & _ & ->). rewrite Forall_map.
    apply Forall_forall. intros x _. apply div_valid.
  - rewrite Hnorm. exact V3.
Qed.

(** ** Normalisation by the maximum *)

Local Open Scope nat_scope.

Lemma leb_not_nan_l (x y : float) : F64.leb x y = true -> F64.is_nan x = false.
Proof. destruct x; try reflexivity. destruct y; discriminate. Qed.

Lemma normalised_max_one {numpy : Np.build} (a : list float) (m : float) :
  Np.max a = Ok m ->
  Forall (fun x => F64.valid x = true) a ->
  F64.is_finite m = true -> F64.ltb F64.zero m = true ->
  Np.max (map (fun s => F64.div s m) a) = Ok F64.one.
Proof.
  intros Hmax Hval Hfin Hpos.
  assert (Hnan : F64.is_nan m = false) by (destruct m; auto; discriminate).
  destruct (max_spec a m Hmax Hnan) as (Hno & Hin & Hle).
  rewrite Forall_forall in Hval.
  assert (Hone : forall x, In x a -> F64.leb (F64.div x m) F64.one = true).
  { intros x Hx. apply div_le_one; auto. }
  destruct (max_of_bounded (map (fun s => F64.div s m) a) F64.one)
    as (m' & Hm' & H1 & H2).
  - unfold no_nan. rewrite Forall_map. apply Forall_forall.
    intros x Hx. apply (leb_not_nan_l _ F64.one), Hone, Hx.
  - apply in_map_iff. exists m. split; [|exact Hin].
    destruct m as [s|s| |s mm em]; try discriminate.
    destruct s; [discriminate|]. apply div_self.
  - intros y Hy. apply in_map_iff in Hy as (x & <- & Hx). auto.
  - rewrite Hm'. f_equal. apply leb_antisym_one; assumption.
Qed.

Lemma div_by_zero (x z : float) :
  F64.is_zero z = true ->
  F64.is_nan (F64.div x z) = true \/ F64.is_inf (F64.div x z) = true.
Proof.
  destruct z as [sz| | |]; try discriminate. intros _.
  destruct x as [sx|sx| |sx mx ex]; simpl; auto.
Qed.

(** X2.  With [normalise] the signal is divided by its own maximum.  If that
    maximum is finite and positive, the maximum of the result is exactly 1;
    if it is a zero, every entry of the result is NaN or infinite. *)
Theorem normalise_by_max {numpy : Np.build}
    fname wls mOD from_max constant l :
  bleach_compute fname wls true mOD from_max constant = Ok l ->
  F64.valid constant = true ->
  exists m,
    Np.max (signal_cut l) = Ok m /\
    signal_norm l = map (fun s => F64.div s m) (signal_cut l) /\
    (F64.is_finite m = true -> F64.ltb F64.zero m = true ->
     Np.max (signal_norm l) = Ok F64.one) /\
    (F64.is_zero m = true ->
     Forall (fun y => F64.is_nan y = true \/ F64.is_inf y = true)
            (signal_norm l)).
Proof.
  intros H Vc.
  destruct (bleach_signals_valid _ _ _ _ _ _ _ H Vc) as (_ & _ & V3 & _).
  apply bleach_compute_inv in H
    as (_ & _ & lo & hi & _ & _ & _ & _ & _ & _ & m & Hmax & Hnorm).
  exists m. split; [exact Hmax|]. split; [exact Hnorm|]. split.
  - intros Hfin Hpos. rewrite Hnorm.
    apply normalised_max_one; assumption.
  - intros Hz. rewrite Hnorm, Forall_map. apply Forall_forall.
    intros x _. apply div_by_zero, Hz.
Qed.

Lemma normalise_by_max_witness :
  exists l,
    bleach_compute (numpy := Np.scalar_loop) grid_file [F64.of_Z 500; F64.of_Z 700]
                   true true true F64.zero = Ok l /\
    Np.max (numpy := Np.scalar_loop) (signal_norm l) = Ok F64.one.
Proof.
  destruct (bleach_compute (numpy := Np.scalar_loop) grid_file [F64.of_Z 500; F64.of_Z 700]
              true true true F64.zero) as [l|e] eqn:E.
  2:{ vm_compute in E. discriminate. }
  exists l. split; [reflexivity|].
  destruct ((normalise_by_max (numpy := Np.scalar_loop)) _ _ _ _ _ _ E eq_refl) as (m & Hm & _ & H1 & _).
  assert (Em : m = Np.to_float "7.5").
  { vm_compute in E. injection E as <-. vm_compute in Hm.
    injection Hm as <-. vm_compute. reflexivity. }
  apply H1; rewrite Em; vm_compute; reflexivity.
Defined.

(** ** The truncation index *)

Lemma geb_nan_l (mp : float) : F64.geb F64.nan mp = false.
Proof. destruct mp; reflexivity. Qed.

Lemma argmin_loop_first_nan (pre post : list float) :
  forall i mp k,
    no_nan pre -> F64.is_nan mp = false ->
    Np.argmin_loop (pre ++ F64.nan :: post)%list i mp k = i + length pre.
Proof.
  induction pre as [|x pre IH]; intros i mp k Hpre Hmp; simpl.
  - rewrite geb_nan_l. simpl. lia.
  - inversion Hpre as [|? ? Hx Hpre']; subst. rewrite Hx.
    destruct (negb (F64.geb x mp)); rewrite IH by assumption; lia.
Qed.

(** With a NaN among the data, [argmin] returns the index of the first
    NaN. *)
Lemma argmin_first_nan (pre post : list float) :
  no_nan pre ->
  Np.argmin (pre ++ F64.nan :: post)%list = Ok (length pre).
Proof.
  intros Hpre. destruct pre as [|x pre]; [reflexivity|].
  inversion Hpre as [|? ? Hx Hpre']; subst. simpl. rewrite Hx.
  rewrite argmin_loop_first_nan by assumption. reflexivity.
Qed.

(** X3.  The row [plot_bleach] truncates at: when no window mean is NaN it
    is the first row whose mean is least (no mean is smaller, every earlier
    mean is strictly larger); when some mean is NaN it is the first row
    whose mean is NaN. *)
Theorem signal_max_is_first_minimum {numpy : Np.build}
    fname wls normalise mOD from_max constant l :
  bleach_compute fname wls normalise mOD from_max constant = Ok l ->
  (no_nan (signal_mean l) ->
   exists y,
     nth_error (signal_mean l) (signal_max l) = Some y /\
     (forall x, In x (signal_mean l) -> F64.leb y x = true) /\
     (forall k x, k < signal_max l -> nth_error (signal_mean l) k = Some x ->
                  F64.ltb y x = true)) /\
  (forall pre post,
      signal_mean l = (pre ++ F64.nan :: post)%list -> no_nan pre ->
      signal_max l = length pre).
Proof.
  intros H.
  apply bleach_compute_inv in H as (_ & _ & lo & hi & _ & _ & _ & Hmin & _).
  split.
  - intros Hnan. apply argmin_spec; assumption.
  - intros pre post E Hpre. rewrite E, argmin_first_nan in Hmin by assumption.
    congruence.
Qed.

Lemma signal_max_is_first_minimum_witness :
  exists l y,
    bleach_compute (numpy := Np.scalar_loop) grid_file [F64.of_Z 500; F64.of_Z 700]
                   false false true F64.zero = Ok l /\
    nth_error (signal_mean l) (signal_max l) = Some y /\
    (forall x, In x (signal_mean l) -> F64.leb y x = true).
Proof.
  destruct (bleach_compute (numpy := Np.scalar_loop) grid_file [F64.of_Z 500; F64.of_Z 700]
              false false true F64.zero) as [l|e] eqn:E.
  2:{ vm_compute in E. discriminate. }
  destruct (proj1 ((signal_max_is_first_minimum (numpy := Np.scalar_loop)) _ _ _ _ _ _ _ E))
    as (y & Hy & Hle & _).
  { vm_compute in E. injection E as <-. repeat constructor. }
  exists l, y. split; [reflexivity|]. split; assumption.
Defined.

(** ** What [plot_bleach] returns and draws *)

(** X4.  Once the grid is loaded and at least two bounds are given,
    [plot_bleach] returns: the canvas keeps what was drawn and gains the
    trace, the two axis labels, the logarithmic scale and the legend; the
    returned rows have one common length, the number of time rows from the
    truncation index on (all of them without [from_max]). *)
Theorem plot_bleach_returns {numpy : Np.build}
    fname wls normalise mOD lbl from_max constant cv w t I :
  load_TA fname = Ok (w, t, I) ->
  2 <= length wls ->
  exists l,
    bleach_compute fname wls normalise mOD from_max constant = Ok l /\
    plot_bleach fname wls normalise mOD lbl from_max constant cv
    = Ok ((cv ++ [ Plot (timepoints_cut l) (signal_norm l) EmptyString lbl;
                   Xlabel "Time (ns)";
                   Ylabel (if mOD then "$\Delta$mOD" else "${{\Delta}}$ T/T");
                   Yscale "log";
                   Legend None ])%list,
          [timepoints_cut l; signal_norm l]) /\
    length (timepoints_cut l) = length (signal_norm l) /\
    signal_max l < length t /\
    length (timepoints_cut l)
    = (if from_max then length t - signal_max l else length t).
Proof.
  intros Hload Hwls.
  destruct (bleach_compute_total fname wls normalise mOD from_max constant
              _ _ _ Hload Hwls) as (l & Hl).
  exists l. split; [exact Hl|]. split.
  { unfold plot_bleach. rewrite Hl. simpl. unfold draw.
    rewrite <- !app_assoc. reflexivity. }
  pose proof (bleach_compute_inv _ _ _ _ _ _ _ Hl)
    as (Hload' & _ & lo & hi & _ & _ & Hmean & Hmin & Hunit & Hcut & Hnorm).
  rewrite Hload in Hload'. injection Hload' as Hw Ht HI.
  apply load_TA_shape in Hload as (_ & _ & HIt & _).
  assert (Hlm : length (signal_mean l) = length t).
  { rewrite Hmean, <- HI. unfold window_mean. rewrite length_map. exact HIt. }
  assert (Hlu : length (signal_unit l) = length t).
  { rewrite Hunit. unfold unit_transform.
    destruct (negb mOD); rewrite length_map; exact Hlm. }
  assert (Hmax : signal_max l < length t).
  { apply argmin_lt in Hmin. lia. }
  assert (Hln : length (signal_norm l) = length (signal_cut l)).
  { destruct normalise.
    - destruct Hnorm as (m & _ & ->). apply length_map.
    - rewrite Hnorm. reflexivity. }
  rewrite Hln. destruct from_max.
  - destruct Hcut as (t0 & _ & -> & ->).
    rewrite length_map, !length_skipn, <- Ht, Hlu. auto.
  - destruct Hcut as (-> & ->). rewrite <- Ht, Hlu. auto.
Qed.

Lemma plot_bleach_returns_witness :
  exists l,
    bleach_compute (numpy := Np.scalar_loop) grid_file [F64.of_Z 500; F64.of_Z 700]
                   false false true F64.zero = Ok l /\
    length (timepoints_cut l) = length (signal_norm l) /\
    length (timepoints_cut l) = length grid_timepoints - signal_max l.
Proof.
  destruct ((plot_bleach_returns (numpy := Np.scalar_loop)) grid_file [F64.of_Z 500; F64.of_Z 700]
              false false NoLabel true F64.zero []
              grid_wavelengths grid_timepoints grid_intensities)
    as (l & Hl & _ & Hlen & _ & Hcut).
  - vm_compute. reflexivity.
  - simpl. lia.
  - exists l. auto.
Defined.

(** X5.  Failures of the two plotting functions.  An exception of the
    loader passes through both.  On a loaded grid [plot_bleach] raises
    [IndexError] when fewer than two bounds are given; [plot_spectrum] does
    so only if a time is requested, since it reads the bounds per curve:
    without requested times it draws just the legend, the labels and the
    zero line. *)
Theorem plotting_failures {numpy : Np.build} :
  (forall fname e times wls normalise mOD lbl from_max constant cv,
      load_TA fname = Raise e ->
      plot_bleach fname wls normalise mOD lbl from_max constant cv = Raise e /\
      plot_spectrum fname times mOD wls cv = Raise e) /\
  (forall fname w t I wls normalise mOD lbl from_max constant cv,
      load_TA fname = Ok (w, t, I) -> length wls < 2 ->
      plot_bleach fname wls normalise mOD lbl from_max constant cv
      = Raise IndexError) /\
  (forall fname w t I wls time times mOD cv,
      load_TA fname = Ok (w, t, I) -> length wls < 2 ->
      plot_spectrum fname (time :: times) mOD wls cv = Raise IndexError) /\
  (forall fname w t I wls mOD cv,
      load_TA fname = Ok (w, t, I) ->
      plot_spectrum fname [] mOD wls cv
      = Ok (cv ++ [ Legend (Some "Time (ns)"); Xlabel "Wavelength (nm)";
                    Ylabel (if mOD then "mOD" else "${{\Delta}}$ T/T");
                    Axhline F64.zero ])%list).
Proof.
  assert (Hres : forall (w : list float) (vs : list float),
             1 <= length w ->
             exists idx, mapM (nearest w) vs = Ok idx /\
                         length idx = length vs).
  { intros w vs Hw. destruct (mapM_total (nearest w) vs) as (idx & Hidx).
    - intros v _. destruct (nearest_Ok w v) as (i & Hi & _); [|eauto].
      destruct w; [simpl in Hw; lia | discriminate].
    - exists idx. split; [exact Hidx|]. eapply mapM_length, Hidx. }
  repeat split.
  - unfold plot_bleach, bleach_compute. rewrite H. reflexivity.
  - unfold plot_spectrum. rewrite H. reflexivity.
  - intros fname w t I wls normalise mOD lbl from_max constant cv Hload Hlen.
    unfold plot_bleach, bleach_compute. rewrite Hload. simpl.
    apply load_TA_shape in Hload as (Hw & _).
    destruct (Hres w wls Hw) as (idx & -> & Hl). simpl.
    destruct idx as [|a [|b idx]]; simpl in *; try reflexivity. lia.
  - intros fname w t I wls time times mOD cv Hload Hlen.
    unfold plot_spectrum. rewrite Hload. cbn [bind].
    apply load_TA_shape in Hload as (Hw & Ht & _).
    destruct (Hres w wls Hw) as (idx & -> & Hl). cbn [bind].
    destruct (Hres t (time :: times) Ht) as (tidx & -> & Hl'). cbn [bind].
    destruct tidx as [|i tidx]; [discriminate|]. simpl.
    unfold plot_curve.
    destruct idx as [|a [|b idx]]; simpl in *; try reflexivity. lia.
  - intros fname w t I wls mOD cv Hload.
    unfold plot_spectrum. rewrite Hload. simpl.
    apply load_TA_shape in Hload as (Hw & _).
    destruct (Hres w wls Hw) as (idx & -> & _). simpl.
    unfold draw. rewrite <- !app_assoc. reflexivity.
Qed.

Lemma plotting_failures_witness :
  plot_bleach (numpy := Np.scalar_loop) [] [F64.of_Z 500; F64.of_Z 700] false false NoLabel true
              F64.zero [] = Raise IndexError /\
  plot_bleach (numpy := Np.scalar_loop) grid_file [F64.of_Z 500] false false NoLabel true F64.zero []
  = Raise IndexError /\
  plot_spectrum grid_file [F64.of_Z 1] false [F64.of_Z 500] []
  = Raise IndexError /\
  plot_spectrum grid_file [] false [F64.of_Z 500] []
  = Ok [ Legend (Some "Time (ns)"); Xlabel "Wavelength (nm)";
         Ylabel "${{\Delta}}$ T/T"; Axhline F64.zero ].
Proof.
  destruct (plotting_failures (numpy := Np.scalar_loop)) as (H1 & H2 & H3 & H4).
  split; [|split; [|split]].
  - apply (H1 [] IndexError [] [F64.of_Z 500; F64.of_Z 700]
              false false NoLabel true F64.zero []). reflexivity.
  - apply (H2 grid_file _ _ _ [F64.of_Z 500] false false NoLabel true
              F64.zero [] load_grid). simpl. lia.
  - apply (H3 grid_file _ _ _ [F64.of_Z 500] (F64.of_Z 1) [] false []
              load_grid). simpl. lia.
  - apply (H4 grid_file _ _ _ [F64.of_Z 500] false [] load_grid).
Defined.

(** ** The curves of [plot_spectrum] *)

(** The curve drawn for the time row [i]. *)
Definition curve_at (w t : list float) (I : list (list float))
    (lo hi i : nat) (c : plt_cmd) : Prop :=
  exists row ti z,
    nth_error I i = Some row /\
    nth_error t i = Some ti /\
    F64.trunc ti = Some z /\
    c = Plot (slice lo hi w) (slice lo hi row) EmptyString (IntLabel z).

Lemma py_int_Ok (x : float) (z : Z) :
  py_int x = Ok z -> F64.trunc x = Some z /\ F64.is_finite x = true.
Proof.
  unfold py_int. destruct x as [s|s| |s m e]; simpl; intros H;
    try discriminate; injection H as <-; auto.
Qed.

Lemma plot_curves_spec (w t : list float) (I : list (list float))
    (wls : list nat) (times : list nat) :
  forall cv cv',
    plot_curves w t I wls times cv = Ok cv' ->
    exists curves,
      cv' = (cv ++ curves)%list /\
      Forall2 (fun i c =>
                 exists lo hi,
                   nth_error wls 0 = Some lo /\ nth_error wls 1 = Some hi /\
                   curve_at w t I lo hi i c) times curves.
Proof.
  induction times as [|i times IH]; simpl; intros cv cv' H.
  - injection H as <-. exists []. rewrite app_nil_r. auto.
  - apply bind_Ok in H as (cv1 & Hc & H).
    unfold plot_curve in Hc.
    apply bind_Ok in Hc as (lo & Hlo & Hc).
    apply bind_Ok in Hc as (hi & Hhi & Hc).
    apply bind_Ok in Hc as (row & Hrow & Hc).
    apply bind_Ok in Hc as (ti & Hti & Hc).
    apply bind_Ok in Hc as (z & Hz & Hc).
    injection Hc as <-.
    apply index_Ok in Hlo, Hhi, Hrow, Hti.
    apply py_int_Ok in Hz as [Hz _].
    destruct (IH _ _ H) as (curves & -> & Hall).
    eexists (_ :: curves). split.
    + unfold draw. rewrite <- app_assoc. reflexivity.
    + constructor; [|exact Hall].
      exists lo, hi. repeat split; auto.
      exists row, ti, z. auto.
Qed.

(** X6.  When [plot_spectrum] returns, it has drawn one curve per requested
    time, in request order, after what the canvas held, followed by the
    legend, the two labels and the zero line.  The curve of a requested time
    is taken at the row nearest to it: wavelengths and intensities of that
    row over the column window [lo:hi], of equal lengths, labelled with the
    integer part of the matched timepoint, which is finite. *)
Theorem plot_spectrum_curves fname times mOD wls cv cv' :
  plot_spectrum fname times mOD wls cv = Ok cv' ->
  exists w t I curves,
    load_TA fname = Ok (w, t, I) /\
    cv' = (cv ++ curves
              ++ [ Legend (Some "Time (ns)"); Xlabel "Wavelength (nm)";
                   Ylabel (if mOD then "mOD" else "${{\Delta}}$ T/T");
                   Axhline F64.zero ])%list /\
    length curves = length times /\
    forall n time c,
      nth_error times n = Some time ->
      nth_error curves n = Some c ->
      exists v0 v1 lo hi i row ti z,
        nth_error wls 0 = Some v0 /\ nearest w v0 = Ok lo /\
        nth_error wls 1 = Some v1 /\ nearest w v1 = Ok hi /\
        nearest t time = Ok i /\
        nth_error I i = Some row /\
        nth_error t i = Some ti /\
        F64.is_finite ti = true /\ F64.trunc ti = Some z /\
        c = Plot (slice lo hi w) (slice lo hi row) EmptyString (IntLabel z) /\
        length (slice lo hi w) = length (slice lo hi row).
Proof.
  unfold plot_spectrum. intros H.
  apply bind_Ok in H as ([[w t] I] & Hload & H).
  apply bind_Ok in H as (idx & Hidx & H).
  apply bind_Ok in H as (tidx & Htidx & H).
  apply bind_Ok in H as (cv1 & Hcv & H).
  injection H as <-.
  destruct (plot_curves_spec _ _ _ _ _ _ _ Hcv) as (curves & -> & Hall).
  exists w, t, I, curves. split; [exact Hload|]. split.
  { unfold draw. rewrite <- !app_assoc. reflexivity. }
  pose proof (Forall2_length Hall) as Hlen.
  pose proof (mapM_length _ _ _ Htidx) as Hlen'.
  split; [lia|].
  intros n time c Hn Hc.
  destruct (mapM_nth _ _ _ Htidx n time Hn) as (i & Hi & Hnear).
  assert (Hrel : exists lo hi,
             nth_error idx 0 = Some lo /\ nth_error idx 1 = Some hi /\
             curve_at w t I lo hi i c).
  { clear - Hall Hi Hc. revert n Hi Hc.
    induction Hall as [|i' c' tidx curves Hic _ IH]; intros n Hi Hc.
    - destruct n; discriminate.
    - destruct n as [|n]; simpl in Hi, Hc.
      + injection Hi as ->. injection Hc as ->. exact Hic.
      + eapply IH; eassumption. }
  destruct Hrel as (lo & hi & Hlo & Hhi & row & ti & z & Hrow & Hti & Hz & ->).
  assert (Hb0 : exists v0, nth_error wls 0 = Some v0 /\ nearest w v0 = Ok lo).
  { destruct (nth_error wls 0) as [v0|] eqn:E.
    - destruct (mapM_nth _ _ _ Hidx 0 v0 E) as (j & Hj & Hnj).
      exists v0. split; [reflexivity|]. congruence.
    - apply nth_error_None in E. apply mapM_length in Hidx.
      assert (0 < length idx) by (apply nth_error_Some; congruence). lia. }
  assert (Hb1 : exists v1, nth_error wls 1 = Some v1 /\ nearest w v1 = Ok hi).
  { destruct (nth_error wls 1) as [v1|] eqn:E.
    - destruct (mapM_nth _ _ _ Hidx 1 v1 E) as (j & Hj & Hnj).
      exists v1. split; [reflexivity|]. congruence.
    - apply nth_error_None in E. apply mapM_length in Hidx.
      assert (1 < length idx) by (apply nth_error_Some; congruence). lia. }
  destruct Hb0 as (v0 & Hv0 & Hn0). destruct Hb1 as (v1 & Hv1 & Hn1).
  exists v0, v1, lo, hi, i, row, ti, z.
  repeat split; auto.
  - destruct ti; try discriminate; reflexivity.
  - apply load_TA_shape in Hload as (_ & _ & _ & Hshape).
    rewrite Forall_forall in Hshape.
    unfold slice. rewrite !length_skipn, !length_firstn.
    rewrite (Hshape row (nth_error_In _ _ Hrow)). reflexivity.
Qed.

Lemma plot_spectrum_curves_witness :
  exists cv' w t I curves,
    plot_spectrum grid_file [F64.of_Z 1] false [F64.of_Z 500; F64.of_Z 700] []
    = Ok cv' /\
    load_TA grid_file = Ok (w, t, I) /\
    length curves = 1 /\
    cv' = (curves
             ++ [ Legend (Some "Time (ns)"); Xlabel "Wavelength (nm)";
                  Ylabel "${{\Delta}}$ T/T"; Axhline F64.zero ])%list.
Proof.
  destruct (plot_spectrum grid_file [F64.of_Z 1] false
              [F64.of_Z 500; F64.of_Z 700] []) as [cv'|e] eqn:E.
  2:{ vm_compute in E. discriminate. }
  destruct (plot_spectrum_curves _ _ _ _ _ _ E)
    as (w & t & I & curves & Hload & Hcv & Hlen & _).
  exists cv', w, t, I, curves. auto.
Defined.

(** ** The column window *)

Lemma firstn_removelast {A : Type} (n : nat) (l : list A) :
  n <= length l - 1 -> firstn n (removelast l) = firstn n l.
Proof.
  intros H. rewrite removelast_firstn_len, firstn_firstn.
  f_equal. lia.
Qed.

(** X7.  Both resolved bounds are column indices of the grid; the window of
    every row has [hi - lo] cells (none when [hi <= lo]); and the last
    wavelength column never enters the mean, whatever bounds are asked
    for. *)
Theorem window_excludes_last_column {numpy : Np.build}
    fname wls normalise mOD from_max constant l :
  bleach_compute fname wls normalise mOD from_max constant = Ok l ->
  exists lo hi,
    nth_error (wls_ l) 0 = Some lo /\ nth_error (wls_ l) 1 = Some hi /\
    lo < length (wavelengths_ l) /\ hi < length (wavelengths_ l) /\
    forall t row,
      nth_error (intensities_ l) t = Some row ->
      length (slice lo hi row) = hi - lo /\
      nth_error (signal_mean l) t
      = Some (Np.mean (slice lo hi (removelast row))).
Proof.
  intros H.
  apply bleach_compute_inv in H
    as (Hload & Hidx & lo & hi & Hlo & Hhi & Hmean & _).
  exists lo, hi. split; [exact Hlo|]. split; [exact Hhi|].
  assert (Hb : forall n j, nth_error (wls_ l) n = Some j ->
                           j < length (wavelengths_ l)).
  { intros n j Hj.
    assert (Hn : n < length wls).
    { rewrite <- (mapM_length _ _ _ Hidx). apply nth_error_Some. congruence. }
    destruct (nth_error wls n) as [v|] eqn:Ev;
      [|apply nth_error_None in Ev; lia].
    destruct (mapM_nth _ _ _ Hidx n v Ev) as (j' & Hj' & Hnear).
    assert (j' = j) by congruence. subst j'.
    unfold nearest in Hnear. apply argmin_lt in Hnear.
    rewrite length_map in Hnear. exact Hnear. }
  pose proof (Hb 0 lo Hlo) as Hlo'. pose proof (Hb 1 hi Hhi) as Hhi'.
  split; [exact Hlo'|]. split; [exact Hhi'|].
  intros t row Hrow.
  apply load_TA_shape in Hload as (_ & _ & _ & Hshape).
  rewrite Forall_forall in Hshape.
  pose proof (Hshape row (nth_error_In _ _ Hrow)) as Hlen.
  split.
  - unfold slice. rewrite length_skipn, length_firstn. lia.
  - rewrite Hmean, (window_mean_nth _ _ _ _ _ Hrow).
    unfold slice. rewrite firstn_removelast by lia. reflexivity.
Qed.

Lemma window_excludes_last_column_witness :
  exists l,
    bleach_compute (numpy := Np.scalar_loop) grid_file [F64.of_Z 500; F64.of_Z 700]
                   false false true F64.zero = Ok l /\
    nth_error (signal_mean l) 2
    = Some (Np.mean (slice 0 2 (removelast (map F64.of_Z [7; 8; 9]%Z)))).
Proof.
  destruct (bleach_compute (numpy := Np.scalar_loop) grid_file [F64.of_Z 500; F64.of_Z 700]
              false false true F64.zero) as [l|e] eqn:E.
  2:{ vm_compute in E. discriminate. }
  exists l. split; [reflexivity|].
  destruct ((window_excludes_last_column (numpy := Np.scalar_loop)) _ _ _ _ _ _ _ E)
    as (lo & hi & Hlo & Hhi & _ & _ & Hrows).
  assert (El : wls_ l = [0; 2] /\
               nth_error (intensities_ l) 2 = Some (map F64.of_Z [7; 8; 9]%Z)).
  { vm_compute in E. injection E as <-. split; reflexivity. }
  destruct El as [Ew Er]. rewrite Ew in Hlo, Hhi.
  injection Hlo as <-. injection Hhi as <-.
  apply (Hrows 2 _ Er).
Defined.

(** ** Bounds beyond the first two *)

Lemma bleach_output_determined {numpy : Np.build}
    fname wls wls' normalise mOD from_max constant l l' :
  bleach_compute fname wls normalise mOD from_max constant = Ok l ->
  bleach_compute fname wls' normalise mOD from_max constant = Ok l' ->
  nth_error (wls_ l) 0 = nth_error (wls_ l') 0 ->
  nth_error (wls_ l) 1 = nth_error (wls_ l') 1 ->
  timepoints_cut l = timepoints_cut l' /\ signal_norm l = signal_norm l'.
Proof.
  intros H H' E0 E1.
  apply bleach_compute_inv in H
    as (Hload & _ & lo & hi & Hlo & Hhi & Hmean & Hmin & Hunit & Hcut & Hnorm).
  apply bleach_compute_inv in H'
    as (Hload' & _ & lo' & hi' & Hlo' & Hhi' & Hmean' & Hmin' & Hunit'
        & Hcut' & Hnorm').
  rewrite Hload in Hload'. injection Hload' as Hw Ht HI.
  assert (lo' = lo) by congruence. assert (hi' = hi) by congruence. subst.
  assert (Em : signal_mean l' = signal_mean l) by congruence.
  assert (Ei : signal_max l' = signal_max l) by congruence.
  assert (Eu : signal_unit l' = signal_unit l) by congruence.
  assert (Ec : timepoints_cut l = timepoints_cut l' /\
               signal_cut l = signal_cut l').
  { destruct from_max.
    - destruct Hcut as (t0 & Ht0 & -> & ->).
      destruct Hcut' as (t0' & Ht0' & -> & ->).
      rewrite Ei, <- Ht, Ht0 in Ht0'. injection Ht0' as <-.
      rewrite Ei, Eu, Ht. auto.
    - destruct Hcut as (-> & ->). destruct Hcut' as (-> & ->). auto. }
  destruct Ec as [Ect Ecs]. split; [exact Ect|].
  destruct normalise.
  - destruct Hnorm as (m & Hm & ->). destruct Hnorm' as (m' & Hm' & ->).
    rewrite Ecs in Hm. assert (m' = m) by congruence. subst. rewrite Ecs.
    reflexivity.
  - congruence.
Qed.

(** X8.  [plot_bleach] reads only the first two entries of [wls]: further
    entries change neither the returned array nor the canvas, and make no
    call fail. *)
Theorem plot_bleach_two_bounds {numpy : Np.build}
    fname w0 w1 more normalise mOD lbl from_max constant cv :
  plot_bleach fname (w0 :: w1 :: more) normalise mOD lbl from_max constant cv
  = plot_bleach fname [w0; w1] normalise mOD lbl from_max constant cv.
Proof.
  destruct (load_TA fname) as [[[w t] I]|e] eqn:Hload.
  2:{ unfold plot_bleach, bleach_compute. rewrite Hload. reflexivity. }
  destruct (bleach_compute_total fname (w0 :: w1 :: more) normalise mOD
              from_max constant _ _ _ Hload) as (l & Hl); [simpl; lia|].
  destruct (bleach_compute_total fname [w0; w1] normalise mOD
              from_max constant _ _ _ Hload) as (l' & Hl'); [simpl; lia|].
  assert (E : nth_error (wls_ l) 0 = nth_error (wls_ l') 0 /\
              nth_error (wls_ l) 1 = nth_error (wls_ l') 1).
  { pose proof (bleach_compute_inv _ _ _ _ _ _ _ Hl) as (Hld & Hidx & _).
    pose proof (bleach_compute_inv _ _ _ _ _ _ _ Hl') as (Hld' & Hidx' & _).
    rewrite Hload in Hld, Hld'.
    injection Hld as Hw _ _. injection Hld' as Hw' _ _.
    rewrite <- Hw in Hidx. rewrite <- Hw' in Hidx'.
    simpl in Hidx, Hidx'.
    destruct (nearest w w0) as [a|]; [|discriminate].
    destruct (nearest w w1) as [b|]; [|discriminate].
    simpl in Hidx, Hidx'.
    destruct (mapM (nearest w) more) as [r|]; [|discriminate].
    simpl in Hidx, Hidx'. injection Hidx as <-. injection Hidx' as <-.
    split; reflexivity. }
  destruct E as [E0 E1].
  destruct (bleach_output_determined _ _ _ _ _ _ _ _ _ Hl Hl' E0 E1)
    as [Et Es].
  unfold plot_bleach. rewrite Hl, Hl'. simpl. rewrite Et, Es. reflexivity.
Qed.

(** ** A trace left as it is *)

Lemma sub_zero_r (x : float) : F64.sub x F64.zero = x.
Proof. destruct x as [[]|[]| |s m e]; reflexivity. Qed.

(** X9.  With [mOD] true, a zero constant and neither truncation nor
    normalisation, [plot_bleach] returns the timepoints of the file and the
    window means themselves, bit for bit. *)
Theorem plot_bleach_plain {numpy : Np.build} fname wls lbl cv cv' arr :
  plot_bleach fname wls false true lbl false F64.zero cv = Ok (cv', arr) ->
  exists w t I lo hi,
    load_TA fname = Ok (w, t, I) /\
    mapM (nearest w) (firstn 2 wls) = Ok [lo; hi] /\
    arr = [t; window_mean lo hi I].
Proof.
  unfold plot_bleach. intros H.
  apply bind_Ok in H as (l & Hl & H). injection H as _ <-.
  pose proof (bleach_compute_inv _ _ _ _ _ _ _ Hl)
    as (Hload & Hidx & lo & hi & Hlo & Hhi & Hmean & _ & Hunit & Hcut & Hnorm).
  destruct Hcut as (Ht & Hc). simpl in Hnorm.
  exists (wavelengths_ l), (timepoints_ l), (intensities_ l), lo, hi.
  split; [exact Hload|]. split.
  - destruct wls as [|v0 [|v1 more]]; simpl in Hidx.
    + injection Hidx as E. rewrite <- E in Hlo. discriminate.
    + destruct (nearest (wavelengths_ l) v0); [|discriminate].
      simpl in Hidx. injection Hidx as E. rewrite <- E in Hhi. discriminate.
    + simpl. destruct (nearest (wavelengths_ l) v0) as [a|]; [|discriminate].
      destruct (nearest (wavelengths_ l) v1) as [b|]; [|discriminate].
      simpl in *.
      destruct (mapM (nearest (wavelengths_ l)) more); [|discriminate].
      simpl in Hidx. injection Hidx as E. rewrite <- E in Hlo, Hhi.
      simpl in Hlo, Hhi. congruence.
  - rewrite Ht, Hnorm, Hc, Hunit, Hmean. unfold unit_transform. simpl.
    f_equal. f_equal. rewrite <- (map_id (window_mean lo hi _)) at 2.
    apply map_ext. intros x. apply sub_zero_r.
Qed.

Lemma plot_bleach_plain_witness :
  exists cv' arr,
    plot_bleach (numpy := Np.scalar_loop) grid_file [F64.of_Z 500; F64.of_Z 700]
                false true NoLabel false F64.zero [] = Ok (cv', arr) /\
    arr = [grid_timepoints; window_mean 0 2 grid_intensities].
Proof.
  destruct (plot_bleach (numpy := Np.scalar_loop) grid_file [F64.of_Z 500; F64.of_Z 700]
              false true NoLabel false F64.zero []) as [[cv' arr]|e] eqn:E.
  2:{ vm_compute in E. discriminate. }
  exists cv', arr. split; [reflexivity|].
  destruct ((plot_bleach_plain (numpy := Np.scalar_loop)) _ _ _ _ _ _ E)
    as (w & t & I & lo & hi & Hload & Hidx & ->).
  rewrite load_grid in Hload. injection Hload as <- <- <-.
  assert (Ei : mapM (nearest grid_wavelengths)
                 (firstn 2 [F64.of_Z 500; F64.of_Z 700]) = Ok [0; 2])
    by (vm_compute; reflexivity).
  rewrite Ei in Hidx. injection Hidx as <- <-. reflexivity.
Defined.

(** ** The pump values *)

Local Open Scope string_scope.
Local Open Scope list_scope.

Definition sign_is (s : bool) (x : float) : Prop :=
  match x with
  | S754_zero s' | S754_infinity s' | S754_finite s' _ _ => s' = s
  | S754_nan => False
  end.

Lemma round_ratio_sign (s : bool) (n d : positive) :
  sign_is s (F64.round_ratio s n d).
Proof.
  unfold F64.round_ratio.
  destruct (div_core_spec n d 0 0) as (l & -> & _).
  apply binary_round_aux_sign.
  apply Z.div_pos; [|lia]. apply Z.mul_nonneg_nonneg; [lia|].
  apply Z.pow_nonneg; lia.
Qed.

Lemma decimal_sign (s : bool) (m e : Z) : sign_is s (Text.decimal s m e).
Proof.
  unfold Text.decimal. destruct m as [|p|p]; try reflexivity.
  destruct e; apply round_ratio_sign.
Qed.

Lemma sign_false_nonneg (x : float) :
  sign_is false x -> F64.leb F64.zero x = true.
Proof.
  destruct x as [s|s| |s m e]; simpl; intros H; try contradiction; subst;
    reflexivity.
Qed.

Fixpoint no_capital_p (s : text) : bool :=
  match s with
  | [] => true
  | c :: s' => negb (Text.is_char "P" c) && no_capital_p s'
  end.

Lemma search_pump_skip (pre s : text) :
  no_capital_p pre = true ->
  Re.search_pump (pre ++ s) = Re.search_pump s.
Proof.
  induction pre as [|c pre IH]; intros H; [reflexivity|].
  cbn [no_capital_p] in H. apply andb_true_iff in H as [Hc Hpre].
  apply negb_true_iff in Hc.
  change ((c :: pre) ++ s) with (c :: (pre ++ s)).
  cbn [Re.search_pump]. unfold Re.match_pump_here at 1.
  change (utf8 "Pump=") with (ord "P" :: utf8 "ump=").
  cbn [Re.strip_prefix].
  unfold Text.is_char in Hc. rewrite N.eqb_sym, Hc. auto.
Qed.

Lemma search_pump_here (s g : text) :
  Re.match_pump_here s = Some g -> Re.search_pump s = Some g.
Proof.
  intros H. destruct s; cbn [Re.search_pump]; rewrite H; reflexivity.
Qed.

(** X10.  A line that holds no capital [P] before a token
    [Pump=<digits>.<digits>e<sign?><digits>], the token not being followed
    by a digit, contributes exactly the correctly rounded decimal value of
    that token.  Every value read from a log is a non-negative number or
    [+inf], never NaN. *)
Theorem pump_values_read :
  (forall pre g d1 d2 sg d3 rest,
      no_capital_p pre = true ->
      number_shape g d1 d2 sg d3 ->
      starts_with_digit rest = false ->
      line_values (pre ++ "Pump=" ++ g ++ rest)
      = [Text.decimal false (Text.digits_value 0 (d1 ++ d2))
           ((if Text.eqb sg "-" then - Text.digits_value 0 d3
             else Text.digits_value 0 d3)
            - Z.of_nat (length d2))%Z]) /\
  (forall lines vs,
      read_pump_values lines = Ok vs ->
      Forall (fun v => F64.leb F64.zero v = true) vs).
Proof.
  split.
  - intros pre g d1 d2 sg d3 rest Hpre Hshape Hrest.
    unfold line_values. rewrite search_pump_skip by exact Hpre.
    assert (Hs : Re.search_pump ("Pump=" ++ g ++ rest) = Some g).
    { apply search_pump_here. unfold Re.match_pump_here.
      rewrite strip_prefix_app.
      apply (match_number_complete _ _ _ _ _ _ Hshape Hrest). }
    rewrite Hs. unfold Np.to_float.
    rewrite (py_float_number _ _ _ _ _ Hshape). reflexivity.
  - intros lines vs H. rewrite read_pump_values_flat_map in H.
    injection H as <-. apply Forall_forall. intros v Hv.
    apply in_flat_map in Hv as (line & _ & Hv).
    unfold line_values in Hv.
    destruct (Re.search_pump line) as [g|] eqn:E; [|destruct Hv].
    destruct Hv as [<-|[]].
    apply search_pump_shape in E as (_ & _ & d1 & d2 & sg & d3 & _ & Hs).
    unfold Np.to_float. rewrite (py_float_number _ _ _ _ _ Hs).
    apply sign_false_nonneg, decimal_sign.
Qed.

Lemma pump_values_read_witness :
  line_values "t=3 Pump=1.25e-01 mW"
  = [Text.decimal false 125 (-3)] /\
  Forall (fun v => F64.leb F64.zero v = true)
         [Np.to_float "1.0"; Np.to_float "2.0"].
Proof.
  destruct pump_values_read as (H1 & H2). split.
  - apply (H1 "t=3 " "1.25e-01" "1" "25" "-" "01" " mW").
    + reflexivity.
    + repeat split; auto; discriminate.
    + reflexivity.
  - apply (H2 pump_log_scenario). vm_compute. reflexivity.
Defined.

Lemma mul_not_finite (x c : float) :
  F64.is_finite x = false -> F64.is_finite (F64.mul x c) = false.
Proof.
  destruct x as [s|s| |s m e]; try discriminate; intros _;
    destruct c as [sc|sc| |sc mc ec]; reflexivity.
Qed.

Lemma deviation_finite (m v c : float) :
  F64.is_finite (F64.mul (F64.div (F64.sub m v) m) c) = true ->
  F64.is_finite m = true /\ F64.is_zero m = false.
Proof.
  intros H.
  destruct m as [s|s| |s mm e]; [| | |split; reflexivity]; exfalso;
    rewrite mul_not_finite in H; try discriminate.
  - destruct (div_by_zero (F64.sub (S754_zero s) v) (S754_zero s) eq_refl)
      as [Hd|Hd]; destruct (F64.div _ _); try discriminate; reflexivity.
  - destruct v as [sv|sv| |sv mv ev]; try reflexivity;
      destruct s, sv; reflexivity.
Qed.

Lemma percentile_Ok (a : list float) (q p : float) :
  Np.percentile a q = Ok p -> a <> [].
Proof.
  unfold Np.percentile. destruct (negb _); [discriminate|].
  destruct a; [discriminate | discriminate].
Qed.

(** X11.  [extract_pump_values] returns only for a log with at least one
    matching line whose values have a finite, non-zero mean and only finite
    deviations; otherwise one of the percentile or histogram calls raises.
    When it returns, the canvas has kept what was drawn before. *)
Theorem extract_pump_values_returns file_path cv cv' loc :
  extract_pump_values file_path cv = Ok (cv', loc) ->
  pump_values loc <> [] /\
  F64.is_finite (Np.mean (pump_values loc)) = true /\
  F64.is_zero (Np.mean (pump_values loc)) = false /\
  Forall (fun d => F64.is_finite d = true) (percentage_deviation loc) /\
  exists drawn, cv' = (cv ++ drawn)%list.
Proof.
  intros H.
  pose proof (extract_pump_values_inv _ _ _ _ H) as (Hv & Hd & H95 & _).
  assert (Hne : pump_values loc <> []).
  { apply percentile_Ok in H95. rewrite Hd in H95. unfold deviations in H95.
    intros E. rewrite E in H95. apply H95. reflexivity. }
  unfold extract_pump_values in H.
  rewrite read_pump_values_flat_map in H. cbn [bind] in H.
  apply bind_Ok in H as (p95 & _ & H).
  apply bind_Ok in H as (p5 & _ & H).
  apply bind_Ok in H as (cv1 & Hhist & H).
  injection H as <- <-. cbn [pump_values percentage_deviation] in *.
  unfold hist in Hhist.
  destruct (forallb F64.is_finite _) eqn:Hfin; [|discriminate].
  injection Hhist as <-.
  rewrite forallb_forall in Hfin.
  assert (Hall : Forall (fun d => F64.is_finite d = true)
                        (deviations (flat_map line_values file_path))).
  { apply Forall_forall. exact Hfin. }
  assert (Hmean : F64.is_finite (Np.mean (flat_map line_values file_path)) = true
                  /\ F64.is_zero (Np.mean (flat_map line_values file_path)) = false).
  { destruct (flat_map line_values file_path) as [|v vs] eqn:E;
      [congruence|].
    inversion Hall as [|? ? Hd0 _]. eapply deviation_finite, Hd0. }
  destruct Hmean as [Hm1 Hm2].
  repeat split; auto.
  assert (Hsc : forall vals i c, exists d, scatter i vals c = (c ++ d)%list).
  { induction vals as [|x vals IH]; intros i c; simpl.
    - exists []. rewrite app_nil_r. reflexivity.
    - destruct (IH (S i) (draw (draw (draw c (Plot [F64.of_nat i] [x] "r." NoLabel))
                  (Ylabel "Picolo Pump Power on Photodiode per spectrum"))
                  (Xlabel "Experimental Points Measured"))) as (d & ->).
      unfold draw. rewrite <- !app_assoc. eauto. }
  destruct (Hsc (flat_map line_values file_path) 0 cv) as (d & ->).
  unfold draw. rewrite <- !app_assoc. eauto.
Qed.

Lemma extract_pump_values_returns_witness :
  exists cv' loc,
    extract_pump_values pump_log_scenario [] = Ok (cv', loc) /\
    pump_values loc <> [] /\
    Forall (fun d => F64.is_finite d = true) (percentage_deviation loc).
Proof.
  destruct (extract_pump_values pump_log_scenario []) as [[cv' loc]|e] eqn:E.
  2:{ vm_compute in E. discriminate. }
  exists cv', loc. split; [reflexivity|].
  destruct (extract_pump_values_returns _ _ _ _ E) as (H1 & _ & _ & H2 & _).
  split; assumption.
Defined.

(** ** The loader returns well-formed numbers *)

Local Open Scope nat_scope.

Lemma round_ratio_valid (s : bool) (n d : positive) :
  F64.valid (F64.round_ratio s n d) = true.
Proof.
  unfold F64.round_ratio.
  destruct (div_core_spec n d 0 0) as (l & -> & _).
  set (e' := Z.min (fexp64 (Zdigits2 (Zpos n) + 0 - (Zdigits2 (Zpos d) + 0)))
                   (0 - 0)%Z).
  assert (Hs : (0 <= 0 - 0 - e')%Z) by (unfold e'; lia).
  apply binary_round_aux_valid.
  - apply Z.div_pos; [|lia]. apply Z.mul_nonneg_nonneg; [lia|].
    apply Z.pow_nonneg; lia.
  - pose proof (quotient_digits n d (0 - 0 - e') Hs) as Hq.
    etransitivity; [apply Z.le_min_l|]. fold e'.
    apply fexp64_mono. lia.
Qed.

Lemma decimal_valid (s : bool) (m e : Z) :
  F64.valid (Text.decimal s m e) = true.
Proof.
  unfold Text.decimal. destruct m as [|p|p]; try reflexivity.
  destruct e; apply round_ratio_valid.
Qed.

Lemma read_unsigned_valid (s : bool) (body : text) (v : float) :
  Text.read_unsigned s body = Some v -> F64.valid v = true.
Proof.
  unfold Text.read_unsigned.
  destruct (_ || _); [intros H; injection H as <-; reflexivity|].
  destruct (Text.eqb _ _); [intros H; injection H as <-; reflexivity|].
  destruct (Text.span Text.is_ascii_digit body) as [ip r].
  destruct (match r with
            | c :: t =>
                if Text.is_char "." c then Text.span Text.is_ascii_digit t
                else ([], r)
            | [] => ([], r)
            end) as [fp r'].
  destruct (_ && _); [discriminate|].
  destruct (Text.read_exponent r'); [|discriminate].
  intros H. injection H as <-. apply decimal_valid.
Qed.

Lemma parse_float_valid (t : text) (v : float) :
  Text.parse_float t = Some v -> F64.valid v = true.
Proof.
  unfold Text.parse_float.
  destruct (Text.strip_underscores false t) as [u|]; [|discriminate].
  destruct (Text.strip u) as [|c body]; [discriminate|].
  destruct (Text.is_char "-" c); [apply read_unsigned_valid|].
  destruct (Text.is_char "+" c); apply read_unsigned_valid.
Qed.

Lemma to_float_valid (tok : text) : F64.valid (Np.to_float tok) = true.
Proof.
  unfold Np.to_float, Text.py_float.
  destruct (Text.parse_float (Text.to_ascii tok)) as [v|] eqn:E;
    [|reflexivity].
  exact (parse_float_valid _ _ E).
Qed.

Lemma load_TA_valid (fname : file) (w t : list float) (I : list (list float)) :
  load_TA fname = Ok (w, t, I) ->
  Forall (fun x => F64.valid x = true) w /\
  Forall (fun x => F64.valid x = true) t /\
  Forall (Forall (fun x => F64.valid x = true)) I.
Proof.
  intros H. apply load_TA_inv in H
    as (row0 & rest & Hrows & _ & _ & Hlen & -> & -> & ->).
  assert (Hall : Forall (Forall (fun x => F64.valid x = true)) (row0 :: rest)).
  { rewrite <- Hrows. rewrite Forall_map. apply Forall_forall.
    intros r _. rewrite Forall_map. apply Forall_forall.
    intros tok _. apply to_float_valid. }
  inversion Hall as [|? ? H0 Hrest]; subst.
  assert (Hskip : forall r, Forall (fun x => F64.valid x = true) r ->
                            Forall (fun x => F64.valid x = true) (skipn 1 r)).
  { intros r Hr. destruct r; [constructor|]. inversion Hr; assumption. }
  repeat split.
  - apply Hskip, H0.
  - rewrite Forall_map. eapply Forall_impl; [|exact Hrest].
    intros r Hr. destruct r; [reflexivity|]. inversion Hr; assumption.
  - rewrite Forall_map. eapply Forall_impl; [|exact Hrest].
    intros r Hr. apply Hskip, Hr.
Qed.

(** X1.  On an axis without NaN and for a finite request,
    [np.argmin(np.abs(axis - v))] returns the lowest index among the
    entries at minimal absolute distance: no entry is closer and every
    earlier entry is strictly farther.  If moreover the request is present
    in the axis, the entry at the returned index equals the request, no
    earlier entry does, and the returned index is that of the first
    occurrence.  Every number [load_TA] returns is a well-formed binary64
    value, so in [plot_bleach] a finite bound found in a wavelength row
    without NaN resolves to the index of its first occurrence. *)
Theorem nearest_exact_and_first {numpy : Np.build} :
  (forall axis v j,
      no_nan axis -> F64.is_finite v = true ->
      nearest axis v = Ok j ->
      exists a,
        nth_error axis j = Some a /\
        (forall b, In b axis -> F64.leb (dist v a) (dist v b) = true) /\
        (forall k b, k < j -> nth_error axis k = Some b ->
                     F64.ltb (dist v a) (dist v b) = true) /\
        (Forall (fun x => F64.valid x = true) axis -> F64.valid v = true ->
         forall i b,
           nth_error axis i = Some b -> F64.eqb b v = true ->
           F64.eqb a v = true /\ j <= i /\
           (forall k c, k < j -> nth_error axis k = Some c ->
                        F64.eqb c v = false) /\
           ((forall k c, k < i -> nth_error axis k = Some c ->
                         F64.eqb c v = false) -> j = i))) /\
  (forall fname wls normalise mOD from_max constant l n v i b,
      bleach_compute fname wls normalise mOD from_max constant = Ok l ->
      no_nan (wavelengths_ l) ->
      nth_error wls n = Some v ->
      F64.is_finite v = true -> F64.valid v = true ->
      nth_error (wavelengths_ l) i = Some b -> F64.eqb b v = true ->
      (forall k c, k < i -> nth_error (wavelengths_ l) k = Some c ->
                   F64.eqb c v = false) ->
      Forall (fun x => F64.valid x = true) (wavelengths_ l) /\
      nth_error (wls_ l) n = Some i).
Proof.
  split; [exact nearest_first_least|].
  intros fname wls normalise mOD from_max constant l n v i b
         H Hnan Hn Hfin Hval Hb Hbv Hfirst.
  pose proof (bleach_compute_inv _ _ _ _ _ _ _ H) as (Hload & Hidx & _).
  apply load_TA_valid in Hload as (Vw & _).
  split; [exact Vw|].
  destruct (mapM_nth _ _ _ Hidx n v Hn) as (j & Hj & Hnear).
  destruct (nearest_first_least _ _ _ Hnan Hfin Hnear)
    as (a & _ & _ & _ & Hexact).
  destruct (Hexact Vw Hval i b Hb Hbv) as (_ & _ & _ & Heq).
  rewrite Hj. f_equal. apply Heq, Hfirst.
Qed.

Lemma nearest_exact_and_first_witness :
  (exists a,
      nth_error grid_wavelengths 1 = Some a /\
      (forall b, In b grid_wavelengths ->
                 F64.leb (dist (F64.of_Z 600) a) (dist (F64.of_Z 600) b) = true) /\
      F64.eqb a (F64.of_Z 600) = true) /\
  exists l,
    bleach_compute (numpy := Np.scalar_loop) grid_file [F64.of_Z 600; F64.of_Z 700]
                   false false true F64.zero = Ok l /\
    nth_error (wls_ l) 0 = Some 1.
Proof.
  destruct (nearest_exact_and_first (numpy := Np.scalar_loop)) as (HA & HB). split.
  - destruct (HA grid_wavelengths (F64.of_Z 600) 1)
      as (a & Ha & Hle & _ & Hexact).
    + repeat constructor.
    + reflexivity.
    + vm_compute. reflexivity.
    + exists a. split; [exact Ha|]. split; [exact Hle|].
      apply (Hexact ltac:(repeat constructor) eq_refl 1 (F64.of_Z 600));
        vm_compute; reflexivity.
  - destruct (bleach_compute (numpy := Np.scalar_loop) grid_file [F64.of_Z 600; F64.of_Z 700]
                false false true F64.zero) as [l|e] eqn:E.
    2:{ vm_compute in E. discriminate. }
    exists l. split; [reflexivity|].
    assert (Ew : wavelengths_ l = grid_wavelengths).
    { vm_compute in E. injection E as <-. reflexivity. }
    apply (HB _ _ _ _ _ _ l 0 (F64.of_Z 600) 1 (F64.of_Z 600) E).
    + rewrite Ew. repeat constructor.
    + reflexivity.
    + reflexivity.
    + reflexivity.
    + rewrite Ew. reflexivity.
    + vm_compute. reflexivity.
    + rewrite Ew. intros k c Hk Hc.
      destruct k as [|[|k]]; [|lia..].
      vm_compute in Hc. injection Hc as <-. vm_compute. reflexivity.
Defined.

(** ** Curve labels *)

(** X12.  [plot_spectrum] labels a curve with [int] of the matched
    timepoint.  On a loaded grid and with two bounds, if the first requested
    time resolves to a row whose time cell is NaN the call raises
    [ValueError], and if that cell is infinite it raises [OverflowError];
    nothing is drawn in either case. *)
Theorem plot_spectrum_label_errors
    fname w t I wls time times mOD cv i ti :
  load_TA fname = Ok (w, t, I) ->
  2 <= length wls ->
  nearest t time = Ok i ->
  nth_error t i = Some ti ->
  (F64.is_nan ti = true ->
   plot_spectrum fname (time :: times) mOD wls cv = Raise ValueError) /\
  (F64.is_inf ti = true ->
   plot_spectrum fname (time :: times) mOD wls cv = Raise OverflowError).
Proof.
  intros Hload Hwls Hnear Hti.
  pose proof (load_TA_shape _ _ _ _ Hload) as (Hw & Ht & HI & _).
  assert (Hidx : exists idx, mapM (nearest w) wls = Ok idx /\
                             length idx = length wls).
  { destruct (mapM_total (nearest w) wls) as (idx & Hidx).
    - intros v _. destruct (nearest_Ok w v) as (j & Hj & _); [|eauto].
      destruct w; [simpl in Hw; lia | discriminate].
    - exists idx. split; [exact Hidx|]. eapply mapM_length, Hidx. }
  destruct Hidx as (idx & Hidx & Hlen).
  assert (Htimes : exists rest, mapM (nearest t) (time :: times) = Ok (i :: rest)).
  { destruct (mapM_total (nearest t) times) as (rest & Hrest).
    - intros v _. destruct (nearest_Ok t v) as (j & Hj & _); [|eauto].
      destruct t; [simpl in Ht; lia | discriminate].
    - exists rest. cbn [mapM]. rewrite Hnear. cbn [bind]. rewrite Hrest.
      reflexivity. }
  destruct Htimes as (rest & Htimes).
  assert (Hrow : exists row, nth_error I i = Some row).
  { destruct (nth_error I i) as [row|] eqn:E; [eauto|].
    apply nth_error_None in E.
    assert (i < length t) by (apply nth_error_Some; congruence). lia. }
  destruct Hrow as (row & Hrow).
  assert (Hrun : forall e, py_int ti = Raise e ->
                   plot_spectrum fname (time :: times) mOD wls cv = Raise e).
  { intros e He. unfold plot_spectrum. rewrite Hload. cbn [bind].
    rewrite Hidx. cbn [bind]. rewrite Htimes. cbn [bind plot_curves].
    unfold plot_curve.
    destruct idx as [|lo [|hi idx]]; simpl in Hlen; try lia.
    cbn [index nth_error bind]. unfold index. rewrite Hrow, Hti.
    cbn [bind]. rewrite He. reflexivity. }
  split; intros Hc; apply Hrun; destruct ti; try discriminate; reflexivity.
Qed.

Lemma plot_spectrum_label_errors_witness :
  plot_spectrum [ "Carpetview export"; "time \ wavelength";
                  "0 500 600 700"; "n/a 1 2 3"; "1 4 5 6" ]%string
                [F64.of_Z 1] false [F64.of_Z 500; F64.of_Z 700] []
  = Raise ValueError.
Proof.
  apply (plot_spectrum_label_errors
           [ "Carpetview export"; "time \ wavelength";
             "0 500 600 700"; "n/a 1 2 3"; "1 4 5 6" ]%string
           [F64.of_Z 500; F64.of_Z 600; F64.of_Z 700]
           [F64.nan; F64.of_Z 1]
           (map (map F64.of_Z) [[1; 2; 3]; [4; 5; 6]]%Z)
           [F64.of_Z 500; F64.of_Z 700] (F64.of_Z 1) [] false [] 0
           F64.nan).
  - vm_compute. reflexivity.
  - simpl. lia.
  - vm_compute. reflexivity.
  - reflexivity.
  - reflexivity.
Defined.

(** ** Lines the loader passes over *)

Local Open Scope string_scope.
Local Open Scope list_scope.

Fixpoint all_space (s : text) : bool :=
  match s with
  | [] => true
  | c :: s' => Text.is_space c && all_space s'
  end.

Lemma split_ws_blank (s : text) :
  all_space s = true -> Text.split_ws s = [].
Proof.
  unfold Text.split_ws. induction s as [|c s IH]; simpl; [reflexivity|].
  intros H. apply andb_true_iff in H as [Hc Hs]. rewrite Hc. auto.
Qed.

Lemma cells_skip_line (pre post : file) (line : text) :
  2 <= length pre ->
  Np.split_line line = [] ->
  cells (pre ++ line :: post)%list 2 = cells (pre ++ post)%list 2.
Proof.
  intros Hpre Hline. unfold cells.
  destruct pre as [|h1 [|h2 pre]]; simpl in Hpre; try lia.
  cbn [app skipn]. rewrite !map_app, !filter_app. cbn [map filter].
  rewrite Hline. reflexivity.
Qed.

(** X13.  Below the two header lines, a line that is blank, or blank up to
    a [#] comment, is passed over: [load_TA] returns the same with or
    without it.  The text of the two header lines never matters. *)
Theorem load_TA_skips_lines :
  (forall pre post line,
      2 <= length pre ->
      all_space (Text.before_hash line) = true ->
      load_TA (pre ++ line :: post)%list = load_TA (pre ++ post)%list) /\
  (forall h1 h2 h1' h2' body,
      load_TA (h1 :: h2 :: body) = load_TA (h1' :: h2' :: body)).
Proof.
  split.
  - intros pre post line Hpre Hline.
    assert (Hc : cells (pre ++ line :: post)%list 2 = cells (pre ++ post)%list 2).
    { apply cells_skip_line; [exact Hpre|].
      unfold Np.split_line. apply split_ws_blank, Hline. }
    unfold load_TA, Np.genfromtxt.
    fold (cells (pre ++ line :: post)%list 2). fold (cells (pre ++ post)%list 2).
    rewrite Hc. reflexivity.
  - intros h1 h2 h1' h2' body. reflexivity.
Qed.

Lemma load_TA_skips_lines_witness :
  load_TA (([ "Carpetview export"; "time \ wavelength"; "0 500 600 700";
              "0 1 2 3" ] : file)
             ++ "   # remeasured" :: [ "1 4 5 6"; "2 7 8 9" ])
  = load_TA grid_file.
Proof.
  apply (proj1 load_TA_skips_lines
           [ "Carpetview export"; "time \ wavelength"; "0 500 600 700";
             "0 1 2 3" ] [ "1 4 5 6"; "2 7 8 9" ] "   # remeasured").
  - simpl. lia.
  - reflexivity.
Defined.

(** ** Normalisation by a negative maximum *)

Local Open Scope Z_scope.

(** A mantissa and exponent denoting at least 1. *)
Definition at_least_one (m e : Z) : Prop :=
  0 < m /\ (e <= 0 -> 2 ^ (- e) <= m).

Lemma aligned_at_least_one (m e : Z) :
  at_least_one m e -> -1074 <= e ->
  let n := Z.max 0 (fexp64 (Zdigits2 m + e) - e) in
  at_least_one (m / 2 ^ n) (e + n).
Proof.
  intros [Hm Hv] He n. split.
  - apply aligned_mantissa_pos; assumption.
  - intros Hen. assert (Hn : 0 <= n) by (unfold n; lia).
    apply Z.div_le_lower_bound; [apply Z.pow_pos_nonneg; lia|].
    rewrite <- Z.pow_add_r by lia.
    replace (n + - (e + n)) with (- e) by lia. apply Hv. lia.
Qed.

(** A value of at least 1, given with enough bits, rounds to at least 1. *)
Lemma round_above_one (q e : Z) (l : location) :
  at_least_one q e -> -1074 <= e ->
  e <= fexp64 (Zdigits2 q + e) ->
  F64.leb F64.one (binary_round_aux F64.prec F64.emax false q e l) = true.
Proof.
  intros Hq He Hpre.
  pose proof (binary_round_aux_valid false q e l ltac:(destruct Hq; lia) Hpre)
    as Hval.
  destruct (binary_round_aux_spec false q e l) as (m2 & H);
    [destruct Hq; lia|].
  cbv zeta in H. destruct H as (Hb & _ & E). rewrite E in *. clear E.
  pose proof (aligned_at_least_one q e Hq He) as H1. cbv zeta in H1.
  set (n1 := Z.max 0 (fexp64 (Zdigits2 q + e) - e)) in *.
  assert (H2 : at_least_one m2 (e + n1)).
  { destruct H1 as [H1a H1b]. split; [lia|]. intros Hle.
    specialize (H1b Hle). lia. }
  assert (He1 : -1074 <= e + n1) by (unfold n1; lia).
  pose proof (aligned_at_least_one m2 (e + n1) H2 He1) as H3. cbv zeta in H3.
  set (n2 := Z.max 0 (fexp64 (Zdigits2 m2 + (e + n1)) - (e + n1))) in *.
  destruct H3 as [H3a H3b].
  destruct (m2 / 2 ^ n2) as [|p|p] eqn:E3; try lia.
  destruct (e + n1 + n2 <=? 971) eqn:Ele; [|reflexivity].
  apply valid_finite in Hval as [Hc _].
  apply canonical_digits in Hc as (_ & Hd & _).
  pose proof (digits2_bounds p) as [_ Hp].
  assert (Hp53 : Zpos p < 2 ^ 53).
  { eapply Z.lt_le_trans; [exact Hp|]. apply Z.pow_le_mono_r; lia. }
  apply (leb_key F64.one (S754_finite false p (e + n1 + n2)) eq_refl eq_refl).
  unfold key_le, F64.one. cbn [key].
  destruct (Z.lt_ge_cases (-52) (e + n1 + n2)) as [|Hle]; [lia|].
  right. split; [reflexivity|]. right.
  specialize (H3b ltac:(lia)).
  assert (Hpow : 2 ^ 52 <= 2 ^ (- (e + n1 + n2)))
    by (apply Z.pow_le_mono_r; lia).
  destruct (Z.eq_dec (e + n1 + n2) (-52)) as [E52|Hne].
  - split; [lia|]. change (2 ^ 52) with 4503599627370496 in Hpow. lia.
  - exfalso.
    assert (2 ^ 53 <= 2 ^ (- (e + n1 + n2))) by (apply Z.pow_le_mono_r; lia).
    lia.
Qed.

(** The order of two negative canonical floats, on their mantissas. *)
Lemma leb_negative_value (mx my : positive) (ex ey : Z) :
  F64.valid (S754_finite true mx ex) = true ->
  F64.valid (S754_finite true my ey) = true ->
  F64.leb (S754_finite true mx ex) (S754_finite true my ey) = true ->
  ey <= ex /\ Zpos my <= Zpos mx * 2 ^ (ex - ey).
Proof.
  intros Vx Vy Hle.
  apply valid_finite in Vx as [Cx _]. apply valid_finite in Vy as [Cy _].
  apply canonical_digits in Cx as (_ & _ & Hdx).
  apply canonical_digits in Cy as (Hey & Hdy & _).
  apply (leb_key (S754_finite true mx ex) (S754_finite true my ey)
           eq_refl eq_refl) in Hle.
  unfold key_le in Hle. cbn [key] in Hle.
  destruct (Z.eq_dec ex ey) as [->|Hk].
  - split; [lia|]. rewrite Z.sub_diag. simpl. lia.
  - split; [lia|].
    pose proof (digits2_bounds mx) as [Hx _].
    pose proof (digits2_bounds my) as [_ Hy].
    rewrite Hdx in Hx by lia. change (2 ^ (53 - 1)) with 4503599627370496 in Hx.
    assert (Hy' : Zpos my < 2 ^ 53).
    { eapply Z.lt_le_trans; [exact Hy|]. apply Z.pow_le_mono_r; lia. }
    change (2 ^ 53) with 9007199254740992 in Hy'.
    assert (Hk2 : 2 ^ 1 <= 2 ^ (ex - ey)) by (apply Z.pow_le_mono_r; lia).
    change (2 ^ 1) with 2 in Hk2. nia.
Qed.

(** Dividing by a negative finite value at least as large gives at least
    1. *)
Lemma div_ge_one (x m : float) :
  F64.valid x = true -> F64.valid m = true ->
  F64.is_finite m = true -> F64.ltb m F64.zero = true ->
  F64.leb x m = true ->
  F64.leb F64.one (F64.div x m) = true.
Proof.
  intros Vx Vm Hfin Hneg Hle.
  destruct m as [sm|sm| |sm mm em]; try discriminate.
  destruct sm; [|discriminate].
  destruct x as [sx|sx| |sx mx ex]; try discriminate.
  - destruct sx; [reflexivity | discriminate].
  - destruct sx; [|discriminate].
    destruct (leb_negative_value mx mm ex em Vx Vm Hle) as [Hk HV].
    destruct (div_finite_spec true true mx mm ex em) as (l & -> & _).
    simpl xorb.
    apply valid_finite in Vx as [Cx _]. apply valid_finite in Vm as [Cm _].
    apply canonical_digits in Cx as (_ & Hdx & _).
    set (D := Zdigits2 (Zpos mx) + ex - (Zdigits2 (Zpos mm) + em)).
    set (e' := Z.min (fexp64 D) (ex - em)).
    assert (He' : -1074 <= e' /\ e' <= ex - em /\ e' <= fexp64 D).
    { unfold e'. rewrite fexp64_eq. lia. }
    assert (Hs : 0 <= ex - em - e') by lia.
    pose proof (Z.pow_pos_nonneg 2 (ex - em - e') ltac:(lia) Hs) as Hps.
    apply round_above_one; [|lia|].
    + split.
      * apply Z.div_str_pos. split; [lia|].
        destruct (Z.le_gt_cases e' 0) as [Hle0|Hgt0].
        -- replace (ex - em - e') with ((ex - em) + (- e')) by lia.
           rewrite Z.pow_add_r by lia.
           pose proof (Z.pow_pos_nonneg 2 (- e') ltac:(lia) ltac:(lia)). nia.
        -- pose proof (digits2_bounds mm) as [_ Hm].
           assert (Hsd : Zpos (digits2_pos mm) <= ex - em - e').
           { unfold D in He'. simpl Zdigits2 in He'.
             rewrite fexp64_eq in He'. lia. }
           assert (2 ^ Zpos (digits2_pos mm) <= 2 ^ (ex - em - e'))
             by (apply Z.pow_le_mono_r; lia).
           nia.
      * intros Hle0. apply Z.div_le_lower_bound; [lia|].
        replace (ex - em - e') with ((ex - em) + (- e')) by lia.
        rewrite Z.pow_add_r by lia.
        pose proof (Z.pow_pos_nonneg 2 (- e') ltac:(lia) ltac:(lia)). nia.
    + pose proof (quotient_digits mx mm (ex - em - e') Hs) as Hq.
      etransitivity; [apply Z.le_min_l|]. fold e'.
      apply fexp64_mono. unfold D. lia.
Qed.

(** X14.  With [normalise], when the maximum of the signal is finite and
    negative (every entry is negative), the division turns the order round:
    the entry at the maximum becomes exactly 1 and every entry of the result
    is at least 1, so 1 is the least value of the result, not its
    greatest. *)
Theorem normalise_negative_max {numpy : Np.build}
    fname wls mOD from_max constant l m :
  bleach_compute fname wls true mOD from_max constant = Ok l ->
  F64.valid constant = true ->
  Np.max (signal_cut l) = Ok m ->
  F64.is_finite m = true -> F64.ltb m F64.zero = true ->
  In F64.one (signal_norm l) /\
  Forall (fun y => F64.leb F64.one y = true) (signal_norm l).
Proof.
  intros H Vc Hmax Hfin Hneg.
  destruct (bleach_signals_valid _ _ _ _ _ _ _ H Vc) as (_ & _ & V3 & _).
  apply bleach_compute_inv in H
    as (_ & _ & lo & hi & _ & _ & _ & _ & _ & _ & m' & Hmax' & Hnorm).
  assert (m' = m) by congruence. subst m'. clear Hmax'.
  assert (Hnan : F64.is_nan m = false) by (destruct m; auto; discriminate).
  destruct (max_spec _ m Hmax Hnan) as (_ & Hin & Hle).
  rewrite Forall_forall in V3. rewrite Hnorm. split.
  - apply in_map_iff. exists m. split; [|exact Hin].
    destruct m as [s|s| |s mm em]; try discriminate. apply div_self.
  - rewrite Forall_map. apply Forall_forall. intros x Hx.
    apply div_ge_one; auto.
Qed.

Lemma normalise_negative_max_witness :
  exists l,
    bleach_compute (numpy := Np.scalar_loop) grid_file [F64.of_Z 500; F64.of_Z 700]
                   true false true F64.zero = Ok l /\
    In F64.one (signal_norm l) /\
    Forall (fun y => F64.leb F64.one y = true) (signal_norm l).
Proof.
  destruct (bleach_compute (numpy := Np.scalar_loop) grid_file [F64.of_Z 500; F64.of_Z 700]
              true false true F64.zero) as [l|e] eqn:E.
  2:{ vm_compute in E. discriminate. }
  exists l. split; [reflexivity|].
  destruct (Np.max (numpy := Np.scalar_loop) (signal_cut l)) as [m|e] eqn:Hm.
  2:{ vm_compute in E. injection E as <-. vm_compute in Hm. discriminate. }
  apply ((normalise_negative_max (numpy := Np.scalar_loop)) _ _ _ _ _ _ m E eq_refl Hm).
  - vm_compute in E. injection E as <-. vm_compute in Hm.
    injection Hm as <-. reflexivity.
  - vm_compute in E. injection E as <-. vm_compute in Hm.
    injection Hm as <-. reflexivity.
Defined.

(** ** C5: normalisation by the maximum *)

Local Open Scope nat_scope.
Local Open Scope string_scope.
Local Open Scope list_scope.

Lemma div_by_inf (x m : float) :
  F64.is_inf m = true ->
  F64.is_nan (F64.div x m) = true \/ F64.is_zero (F64.div x m) = true.
Proof.
  destruct m as [|sm| |]; try discriminate. intros _.
  destruct x as [sx|sx| |sx mx ex]; simpl; auto.
Qed.

Lemma div_by_nan (x m : float) :
  F64.is_nan m = true -> F64.is_nan (F64.div x m) = true.
Proof.
  destruct m; try discriminate. intros _. destruct x; reflexivity.
Qed.

(** C5, as stated, fails.  With the default [mOD = False] the scenario grid
    gives the signal [-3.42, -10.26, -17.099999999999998]; its maximum
    -3.42 is not zero, the division turns the order round, and the
    normalised signal [1.0, 3.0, 4.999999999999999] has a maximum that is
    not 1. *)
Lemma normalise_negative_counterexample :
  exists l,
    bleach_compute (numpy := Np.scalar_loop)
      grid_file [F64.of_Z 500; F64.of_Z 700] true false true F64.zero
    = Ok l /\
    signal_cut l
    = [Np.to_float "-3.42"; Np.to_float "-10.26";
       Np.to_float "-17.099999999999998"] /\
    Np.max (numpy := Np.scalar_loop) (signal_cut l)
    = Ok (Np.to_float "-3.42") /\
    signal_norm l
    = [Np.to_float "1.0"; Np.to_float "3.0";
       Np.to_float "4.999999999999999"] /\
    Np.max (numpy := Np.scalar_loop) (signal_norm l)
    = Ok (Np.to_float "4.999999999999999") /\
    F64.eqb (Np.to_float "4.999999999999999") F64.one = false.
Proof.
  eexists. split; [vm_compute; reflexivity|].
  repeat split; vm_compute; reflexivity.
Qed.

(** C5, amended.  With [normalise] the call returns whenever the grid loads
    and two bounds are given: the division never raises.  The signal, cut
    and converted, is divided entry by entry by its own maximum.  The
    maximum of the result is exactly 1 when that maximum is finite and
    positive.  When it is finite and negative, 1 is an entry of the result
    and every entry is at least 1.  When it is a zero every entry is NaN or
    infinite; when it is infinite every entry is NaN or a zero; when it is
    NaN every entry is NaN. *)
Theorem normalise_spec {numpy : Np.build} :
  (forall fname w t I wls mOD lbl from_max constant cv,
      load_TA fname = Ok (w, t, I) -> 2 <= length wls ->
      exists l,
        bleach_compute fname wls true mOD from_max constant = Ok l /\
        exists cv',
          plot_bleach fname wls true mOD lbl from_max constant cv
          = Ok (cv', [timepoints_cut l; signal_norm l])) /\
  (forall fname wls mOD from_max constant l,
      bleach_compute fname wls true mOD from_max constant = Ok l ->
      F64.valid constant = true ->
      exists m,
        Np.max (signal_cut l) = Ok m /\
        signal_norm l = map (fun s => F64.div s m) (signal_cut l) /\
        (F64.is_finite m = true -> F64.ltb F64.zero m = true ->
         Np.max (signal_norm l) = Ok F64.one) /\
        (F64.is_finite m = true -> F64.ltb m F64.zero = true ->
         In F64.one (signal_norm l) /\
         Forall (fun y => F64.leb F64.one y = true) (signal_norm l)) /\
        (F64.is_zero m = true ->
         Forall (fun y => F64.is_nan y = true \/ F64.is_inf y = true)
                (signal_norm l)) /\
        (F64.is_inf m = true ->
         Forall (fun y => F64.is_nan y = true \/ F64.is_zero y = true)
                (signal_norm l)) /\
        (F64.is_nan m = true ->
         Forall (fun y => F64.is_nan y = true) (signal_norm l))).
Proof.
  split.
  - intros fname w t I wls mOD lbl from_max constant cv Hload Hwls.
    destruct (bleach_compute_total fname wls true mOD from_max constant
                _ _ _ Hload Hwls) as (l & Hl).
    exists l. split; [exact Hl|].
    unfold plot_bleach. rewrite Hl. cbn [bind]. eauto.
  - intros fname wls mOD from_max constant l H Vc.
    destruct (bleach_signals_valid _ _ _ _ _ _ _ H Vc) as (_ & _ & V3 & _).
    apply bleach_compute_inv in H
      as (_ & _ & lo & hi & _ & _ & _ & _ & _ & _ & m & Hmax & Hnorm).
    exists m. split; [exact Hmax|]. split; [exact Hnorm|].
    rewrite Hnorm.
    split; [intros Hfin Hpos; apply normalised_max_one; assumption|].
    split.
    { intros Hfin Hneg.
      assert (Hnan : F64.is_nan m = false)
        by (destruct m; auto; discriminate).
      destruct (max_spec _ m Hmax Hnan) as (_ & Hin & Hle).
      rewrite Forall_forall in V3. split.
      - apply in_map_iff. exists m. split; [|exact Hin].
        destruct m as [s|s| |s mm em]; try discriminate. apply div_self.
      - rewrite Forall_map. apply Forall_forall. intros x Hx.
        apply div_ge_one; auto. }
    split.
    { intros Hz. rewrite Forall_map. apply Forall_forall.
      intros x _. apply div_by_zero, Hz. }
    split.
    { intros Hi. rewrite Forall_map. apply Forall_forall.
      intros x _. apply div_by_inf, Hi. }
    intros Hn. rewrite Forall_map. apply Forall_forall.
    intros x _. apply div_by_nan, Hn.
Qed.

Lemma normalise_spec_witness :
  exists l,
    bleach_compute (numpy := Np.scalar_loop)
      grid_file [F64.of_Z 500; F64.of_Z 700] true true false F64.zero
    = Ok l /\
    Np.max (numpy := Np.scalar_loop) (signal_norm l) = Ok F64.one.
Proof.
  destruct (normalise_spec (numpy := Np.scalar_loop)) as (Hret & Hdiv).
  destruct (Hret grid_file _ _ _ [F64.of_Z 500; F64.of_Z 700]
              true NoLabel false F64.zero [] load_grid)
    as (l & Hl & _); [simpl; lia|].
  exists l. split; [exact Hl|].
  destruct (Hdiv _ _ _ _ _ _ Hl eq_refl) as (m & Hm & _ & H1 & _).
  assert (Em : m = Np.to_float "7.5").
  { vm_compute in Hl. injection Hl as <-. vm_compute in Hm.
    injection Hm as <-. vm_compute. reflexivity. }
  apply H1; rewrite Em; vm_compute; reflexivity.
Defined.
